(** * Property listing normalisation: a Rocq model of the extraction engine

    The development follows the Python sources function by function:

    - [Text]    the string operations of the Python runtime that the parsers
                use ([str.strip], [str.split], [in], [str.lower]);
    - [Regex]   a backtracking matcher with the semantics of Python's [re]
                for the constructs that occur in the sources;
    - [Firecrawl]  [src/preprocessing/firecrawl_parser.py];
    - [Py]         the values of [Dict[str, Any]] documents, [str] and [repr]
                   of them, and exceptions;
    - [Parsers]    [ui/backend/parsers.py];
    - [Extractor]  [src/agents/simple_extractor.py].

    The definitions come first; the facts about them follow, with one
    theorem for each claim of the contract (C1 to C10).

    Text is modelled as [string], one character per code point in the range
    U+0000..U+00FF; the character classes below follow Python's tables on
    that range. *)

From Stdlib Require Import String Ascii List ZArith NArith Lia Bool DecimalString.
From stdpp Require Import base gmap sets list strings.

Local Open Scope string_scope.
Local Open Scope list_scope.

(* ===================================================================== *)
(** ** Python text primitives *)
(* ===================================================================== *)

Module Text.

Definition code (c : ascii) : N := N_of_ascii c.
Definition chr (n : N) : ascii := ascii_of_N n.

Definition between (lo hi : N) (c : ascii) : bool :=
  (lo <=? code c)%N && (code c <=? hi)%N.

Definition is_code (n : N) (c : ascii) : bool := (code c =? n)%N.

Definition ascii_eqb (a b : ascii) : bool := (code a =? code b)%N.

(** The newline character, and a one-character string. *)
Definition NL : ascii := chr 10.
Definition str1 (c : ascii) : string := String c EmptyString.
Definition nl : string := str1 NL.

(** [str.isspace] on one character (also the regex class [\s]). *)
Definition is_space (c : ascii) : bool :=
  between 9 13 c || between 28 32 c || is_code 133 c || is_code 160 c.

(** The regex class [\d]. *)
Definition is_digit (c : ascii) : bool := between 48 57 c.

(** The regex class [\w]: [str.isalnum] or an underscore. *)
Definition is_word (c : ascii) : bool :=
  between 48 57 c || between 65 90 c || between 97 122 c || is_code 95 c
  || is_code 170 c || is_code 178 c || is_code 179 c || is_code 181 c
  || is_code 185 c || is_code 186 c || between 188 190 c
  || between 192 214 c || between 216 246 c || between 248 255 c.

(** [str.lower] on one character. *)
Definition lower_char (c : ascii) : ascii :=
  if between 65 90 c || (between 192 222 c && negb (is_code 215 c))
  then chr (code c + 32) else c.

Definition chars (s : string) : list ascii := list_ascii_of_string s.
Definition text (l : list ascii) : string := string_of_list_ascii l.

(** [len(s)] *)
Definition len (s : string) : nat := String.length s.

(** [s.lower()] *)
Definition lower (s : string) : string := text (map lower_char (chars s)).

Fixpoint drop_while (p : ascii -> bool) (l : list ascii) : list ascii :=
  match l with
  | c :: t => if p c then drop_while p t else l
  | [] => []
  end.

Definition strip_with (p : ascii -> bool) (l : list ascii) : list ascii :=
  rev (drop_while p (rev (drop_while p l))).

(** [s.strip()] *)
Definition strip (s : string) : string := text (strip_with is_space (chars s)).

(** [s.strip(cs)]: strips the characters of [cs] *)
Definition strip_chars (cs s : string) : string :=
  text (strip_with (fun c => existsb (ascii_eqb c) (chars cs)) (chars s)).

Fixpoint is_prefix (p l : list ascii) : bool :=
  match p, l with
  | [], _ => true
  | a :: p', b :: l' => ascii_eqb a b && is_prefix p' l'
  | _ :: _, [] => false
  end.

(** [s.startswith(p)] *)
Definition startswith (p s : string) : bool := is_prefix (chars p) (chars s).

Fixpoint has_infix (p l : list ascii) : bool :=
  is_prefix p l || match l with [] => false | _ :: t => has_infix p t end.

(** [needle in hay] *)
Definition contains (needle hay : string) : bool :=
  has_infix (chars needle) (chars hay).

(** [any(kw in s for kw in kws)] *)
Definition contains_any (kws : list string) (s : string) : bool :=
  existsb (fun kw => contains kw s) kws.

(** [s.split(sep)] for a one-character separator; never empty. *)
Fixpoint split_char_aux (sep : ascii) (cur : list ascii) (l : list ascii)
  : list (list ascii) :=
  match l with
  | [] => [rev cur]
  | c :: t => if ascii_eqb c sep then rev cur :: split_char_aux sep [] t
              else split_char_aux sep (c :: cur) t
  end.

Definition split_char (sep : ascii) (s : string) : list string :=
  map text (split_char_aux sep [] (chars s)).

(** [s.split('\n')] *)
Definition lines (s : string) : list string := split_char NL s.

(** [s.split(sep)] for a non-empty separator string: the separator is
    searched from left to right and occurrences do not overlap.  [skip] counts
    the characters of an occurrence that are still to be passed over. *)
Fixpoint split_str_aux (sep : list ascii) (skip : nat) (cur : list ascii)
  (l : list ascii) : list (list ascii) :=
  match l with
  | [] => [rev cur]
  | c :: t =>
      match skip with
      | S n => split_str_aux sep n cur t
      | O => if is_prefix sep l
             then rev cur :: split_str_aux sep (List.length sep - 1) [] t
             else split_str_aux sep 0 (c :: cur) t
      end
  end.

Definition split_str (sep s : string) : list string :=
  map text (split_str_aux (chars sep) 0 [] (chars s)).

(** [s.split()]: maximal runs of non-space characters. *)
Fixpoint words_aux (cur : list ascii) (l : list ascii) : list (list ascii) :=
  match l with
  | [] => match cur with [] => [] | _ => [rev cur] end
  | c :: t =>
      if is_space c
      then match cur with [] => words_aux [] t | _ => rev cur :: words_aux [] t end
      else words_aux (c :: cur) t
  end.

Definition split_ws (s : string) : list string :=
  map text (words_aux [] (chars s)).

(** [sep.join(l)] *)
Definition join (sep : string) (l : list string) : string := String.concat sep l.

(** [s.replace(old, new, 1)] for a non-empty [old] *)
Fixpoint replace_first_aux (old new : list ascii) (l : list ascii) : list ascii :=
  if is_prefix old l then new ++ skipn (List.length old) l
  else match l with
       | [] => []
       | c :: t => c :: replace_first_aux old new t
       end.

Definition replace_first (old new s : string) : string :=
  text (replace_first_aux (chars old) (chars new) (chars s)).

(** [s.replace(a, b)] for one-character [a] and [b] *)
Definition replace_char (a b : ascii) (s : string) : string :=
  text (map (fun c => if ascii_eqb c a then b else c) (chars s)).

End Text.

(* ===================================================================== *)
(** ** Regular expressions with the semantics of Python's [re] *)
(* ===================================================================== *)

(** The sources use [re.match], [re.search], [re.finditer], [re.findall],
    [re.split] and [re.sub] with patterns built from literals, character
    classes, greedy and lazy repetition of a single character class, groups,
    alternation, anchors and positive lookahead.  The matcher below is the
    usual backtracking one: alternatives are tried in the order of the
    pattern, a greedy repetition tries the longest run first, a lazy one the
    shortest, and the first way of matching that lets the rest of the pattern
    succeed is the match. *)

Module Regex.
Import Text.

Inductive re : Type :=
| Eps                              (* the empty pattern *)
| Sym (p : ascii -> bool)          (* one character of a class *)
| Cat (a b : re)                   (* ab *)
| Or (a b : re)                    (* a|b *)
| Many (p : ascii -> bool)         (* [p]*   greedy *)
| Few (p : ascii -> bool)          (* [p]*?  lazy *)
| Grp (i : nat) (a : re)           (* capture group number i *)
| Ahead (a : re)                   (* (?=a) *)
| Bol (multiline : bool)           (* ^ *)
| Eol (multiline : bool)           (* $ *)
| EndZ.                            (* \Z *)

(** Matcher state: the characters before the current position (nearest
    first), the characters after it, and the groups captured so far (most
    recent first). *)
Record mstate : Type := MState {
  before : list ascii;
  after : list ascii;
  groups : list (nat * string)
}.

Fixpoint many (p : ascii -> bool) (pre post : list ascii)
  (g : list (nat * string)) (k : mstate -> option mstate) : option mstate :=
  match post with
  | c :: t =>
      if p c then
        match many p (c :: pre) t g k with
        | Some r => Some r
        | None => k (MState pre post g)
        end
      else k (MState pre post g)
  | [] => k (MState pre post g)
  end.

Fixpoint few (p : ascii -> bool) (pre post : list ascii)
  (g : list (nat * string)) (k : mstate -> option mstate) : option mstate :=
  match k (MState pre post g) with
  | Some r => Some r
  | None =>
      match post with
      | c :: t => if p c then few p (c :: pre) t g k else None
      | [] => None
      end
  end.

(** The text consumed between state [s] and the later state [s']. *)
Definition consumed (s s' : mstate) : string :=
  text (rev (take (List.length (before s') - List.length (before s)) (before s'))).

Definition at_line_start (s : mstate) : bool :=
  match before s with [] => true | c :: _ => ascii_eqb c NL end.

Definition at_line_end (s : mstate) : bool :=
  match after s with [] => true | c :: _ => ascii_eqb c NL end.

(** [$] without MULTILINE: the end, or just before a final newline. *)
Definition at_text_end (s : mstate) : bool :=
  match after s with
  | [] => true
  | c :: [] => ascii_eqb c NL
  | _ => false
  end.

Fixpoint run (r : re) (s : mstate) (k : mstate -> option mstate)
  : option mstate :=
  match r with
  | Eps => k s
  | Sym p =>
      match after s with
      | c :: t => if p c then k (MState (c :: before s) t (groups s)) else None
      | [] => None
      end
  | Cat a b => run a s (fun s' => run b s' k)
  | Or a b =>
      match run a s k with
      | Some x => Some x
      | None => run b s k
      end
  | Many p => many p (before s) (after s) (groups s) k
  | Few p => few p (before s) (after s) (groups s) k
  | Grp i a =>
      run a s (fun s' =>
        k (MState (before s') (after s') ((i, consumed s s') :: groups s')))
  | Ahead a =>
      match run a s Some with
      | Some _ => k s
      | None => None
      end
  | Bol ml =>
      if (if ml then at_line_start s else match before s with [] => true | _ => false end)
      then k s else None
  | Eol ml => if (if ml then at_line_end s else at_text_end s) then k s else None
  | EndZ => match after s with [] => k s | _ => None end
  end.

(** *** Pattern shorthands *)

Definition any_char : ascii -> bool := fun _ => true.          (* . with DOTALL *)
Definition not_nl (c : ascii) : bool := negb (ascii_eqb c NL).  (* . *)
Definition is_char (c : ascii) : ascii -> bool := ascii_eqb c.
Definition is_char_i (c : ascii) : ascii -> bool :=
  fun x => ascii_eqb (lower_char x) (lower_char c).
Definition none_of (cs : string) : ascii -> bool :=
  fun c => negb (existsb (ascii_eqb c) (chars cs)).
Definition one_of (cs : string) : ascii -> bool :=
  fun c => existsb (ascii_eqb c) (chars cs).

Fixpoint seq (l : list re) : re :=
  match l with
  | [] => Eps
  | [a] => a
  | a :: t => Cat a (seq t)
  end.

Fixpoint alt (l : list re) : re :=
  match l with
  | [] => Sym (fun _ => false)
  | [a] => a
  | a :: t => Or a (alt t)
  end.

(** A literal, and a literal under IGNORECASE. *)
Definition Lit (s : string) : re := seq (map (fun c => Sym (is_char c)) (chars s)).
Definition LitI (s : string) : re := seq (map (fun c => Sym (is_char_i c)) (chars s)).

Definition Plus (p : ascii -> bool) : re := Cat (Sym p) (Many p).      (* [p]+  *)
Definition PlusLazy (p : ascii -> bool) : re := Cat (Sym p) (Few p).   (* [p]+? *)
Definition Opt (a : re) : re := Or a Eps.                              (* a?    *)

(** *** Match objects and the functions of the [re] module *)

Record rmatch : Type := RMatch {
  m_start : nat;
  m_end : nat;
  m_all : string;                   (* group(0) *)
  m_groups : list (nat * string)
}.

(** [m.group(i)] for [i >= 1]; every group of the patterns below takes part
    in every match of its pattern. *)
Definition group (i : nat) (m : rmatch) : string :=
  match find (fun g => Nat.eqb (fst g) i) (m_groups m) with
  | Some g => snd g
  | None => ""
  end.

Definition match_here (r : re) (pre post : list ascii) : option rmatch :=
  let s := MState pre post [] in
  match run r s Some with
  | Some s' => Some (RMatch (List.length pre) (List.length (before s'))
                            (consumed s s') (groups s'))
  | None => None
  end.

Fixpoint search_from (r : re) (pre post : list ascii) : option rmatch :=
  match match_here r pre post with
  | Some m => Some m
  | None =>
      match post with
      | [] => None
      | c :: t => search_from r (c :: pre) t
      end
  end.

(** [re.match(r, s)] *)
Definition re_match (r : re) (s : string) : option rmatch :=
  match_here r [] (chars s).

(** [re.search(r, s)] *)
Definition re_search (r : re) (s : string) : option rmatch :=
  search_from r [] (chars s).

(** Successive non-overlapping matches, left to right.  After a match the
    scan resumes at its end; [skip] counts the characters of the last match
    that are still to be passed over.  All patterns used with [finditer],
    [findall], [split] and [sub] in the sources match at least one
    character. *)
Fixpoint finditer_from (r : re) (skip : nat) (pre post : list ascii)
  : list rmatch :=
  match skip with
  | S n =>
      match post with
      | [] => []
      | c :: t => finditer_from r n (c :: pre) t
      end
  | O =>
      match match_here r pre post with
      | Some m =>
          m :: match post with
               | [] => []
               | c :: t => finditer_from r (m_end m - m_start m - 1) (c :: pre) t
               end
      | None =>
          match post with
          | [] => []
          | c :: t => finditer_from r 0 (c :: pre) t
          end
      end
  end.

(** [re.finditer(r, s)] *)
Definition re_finditer (r : re) (s : string) : list rmatch :=
  finditer_from r 0 [] (chars s).

(** [re.findall(r, s)] for a pattern with exactly one group *)
Definition re_findall1 (r : re) (s : string) : list string :=
  map (group 1) (re_finditer r s).

(** The pieces of [l] (which starts at offset [pos]) between the matches. *)
Fixpoint pieces (l : list ascii) (pos : nat) (ms : list rmatch)
  : list (list ascii) :=
  match ms with
  | [] => [l]
  | m :: ms' =>
      take (m_start m - pos) l :: pieces (drop (m_end m - pos) l) (m_end m) ms'
  end.

(** [re.split(r, s)] for a pattern without groups *)
Definition re_split (r : re) (s : string) : list string :=
  map text (pieces (chars s) 0 (re_finditer r s)).

(** [re.sub(r, '', s)] *)
Definition re_delete (r : re) (s : string) : string :=
  text (concat (pieces (chars s) 0 (re_finditer r s))).

End Regex.

(* ===================================================================== *)
(** ** [src/preprocessing/firecrawl_parser.py] *)
(* ===================================================================== *)

Module Firecrawl.
Import Text Regex.

(** *** [_extract_real_property_name] *)

(** [' - Bedroom' in fallback or ' - Amenities' in fallback or
     ' - Kitchen' in fallback] *)
Definition looks_like_alt_text (fallback : string) : bool :=
  contains " - Bedroom" fallback || contains " - Amenities" fallback
  || contains " - Kitchen" fallback.

(** [r'^#+\s*(.+)$'] *)
Definition heading_re : re :=
  seq [Bol false; Plus (is_char "#"); Many is_space; Grp 1 (Plus not_nl); Eol false].

(** The test on a heading's captured text:
    [3 < len(candidate) < 80 and 'Overview' not in candidate and
     'Bedroom' not in candidate and 'Amenities' not in candidate]. *)
Definition name_like (candidate : string) : bool :=
  (3 <? len candidate)%nat && (len candidate <? 80)%nat
  && negb (contains "Overview" candidate)
  && negb (contains "Bedroom" candidate)
  && negb (contains "Amenities" candidate).

(** One turn of the loop over [lines[:20]]: the value the loop returns at
    this line, if it returns here. *)
Definition heading_candidate (line : string) : option string :=
  match re_match heading_re (strip line) with
  | Some heading_match =>
      let candidate := strip (group 1 heading_match) in
      if name_like candidate then Some candidate else None
  | None => None
  end.

Fixpoint first_heading (ls : list string) : option string :=
  match ls with
  | [] => None
  | line :: rest =>
      match heading_candidate line with
      | Some candidate => Some candidate
      | None => first_heading rest
      end
  end.

(** [fallback] is what [data.get('property_name')] gave: [None] when the key
    is missing. *)
Definition _extract_real_property_name (txt : string) (fallback : option string)
  : string :=
  match fallback with
  | Some fb =>
      if negb (fb =? "")%string && looks_like_alt_text fb then
        match first_heading (take 20 (lines txt)) with
        | Some candidate => candidate
        | None =>
            match split_str " - " fb with
            | part :: _ => strip part
            | [] => fb
            end
        end
      else if (fb =? "")%string then "Unknown Property" else fb
  | None => "Unknown Property"
  end.

(** *** [_infer_section_name] *)

(** [re.sub(r'[^\w\s]', '', heading_lower).replace(' ', '_')] *)
Definition slugify (heading_lower : string) : string :=
  replace_char " " "_"
    (re_delete (Sym (fun c => negb (is_word c || is_space c))) heading_lower).

Definition _infer_section_name (heading : string) : string :=
  let heading_lower := lower heading in
  let has kw := contains kw heading_lower in
  if has "amenities" || has "amenity" then "amenities"
  else if has "room types" || has "room type" then "room_types"
  else if has "pricing" || has "price" || has "fees" then "pricing"
  else if has "faq" || has "question" then "faqs"
  else if has "about" || has "overview" then "about"
  else if has "location" || has "commute" then "location"
  else if has "nearby" || has "surrounding" then "nearby_places"
  else if has "features" then "features"
  else if has "bills" && has "payment" then "bills_and_payments"
  else if has "bills" then "bills_included"
  else if has "payment" || has "policies" then "payment"
  else if has "cancellation" then "cancellation"
  else if has "offer" || has "deal" || has "promotion" then "offers"
  else if has "review" || has "rating" then "reviews"
  else if has "contact" || has "support" then "contact"
  else slugify heading_lower.

(** *** Sections and the item cascade *)

(** [PreSection] as the parser fills it. *)
Record PreSection : Type := mkPreSection {
  original_name : string;
  display_name : string;
  content : string;
  items : list string
}.

(** [list(dict.fromkeys(l))]: the keys of an insertion-ordered dictionary. *)
Definition dict_fromkeys (l : list string) : list string :=
  fold_left (fun keys x => if bool_decide (x ∈ keys) then keys else keys ++ [x]) l [].

(** [r'\s{2,}'] *)
Definition spaces2_re : re := seq [Sym is_space; Sym is_space; Many is_space].

(** [r'###\s*(.+\?)'] *)
Definition faq_heading_re : re :=
  seq [Lit "###"; Many is_space; Grp 1 (seq [Plus not_nl; Sym (is_char "?")])].

(** [r'(\d+\s*Bed\s*\d*\s*Bath)'] *)
Definition room_re : re :=
  Grp 1 (seq [Plus is_digit; Many is_space; Lit "Bed"; Many is_space;
              Many is_digit; Many is_space; Lit "Bath"]).

(** Pattern 2: the items of the lines that hold two consecutive spaces. *)
Definition space_separated_items (content : string) : list string :=
  flat_map (fun line =>
    if contains "  " line then
      List.filter (fun item => negb (item =? "")%string
                               && (1 <? len item)%nat && (len item <? 100)%nat)
                  (map strip (re_split spaces2_re (strip line)))
    else [])
    (lines content).

(** Pattern 3: [short_lines]. *)
Definition short_lines (content : string) : list string :=
  let ls := List.filter (fun l => negb (l =? "")%string) (map strip (lines content)) in
  List.filter (fun l => (len l <? 50)%nat && (2 <? len l)%nat) ls.

(** The final loop of the item extractor: [seen] and [unique_items]. *)
Definition dedupe_step (st : gset string * list string) (item : string)
  : gset string * list string :=
  let item_clean := strip item in
  if negb (item_clean =? "")%string && negb (bool_decide (item_clean ∈ st.1))
     && (1 <? len item_clean)%nat
  then ({[item_clean]} ∪ st.1, st.2 ++ [item_clean])
  else st.

Definition dedupe (items : list string) : list string :=
  (fold_left dedupe_step items (∅, [])).2.

Section Engine.

(** [BaseParser._extract_items_from_text], inherited from a module that is
    not part of the sources at hand: the parser's bullet-point extractor. *)
Variable _extract_items_from_text : string -> list string.

(** [list(set(l))]: the distinct elements of [l] in the order in which the
    interpreter's hash table happens to hold them. *)
Variable set_to_list : list string -> list string.

(** The items collected by patterns 1 to 5, before the final loop. *)
Definition collected_items (content section_name : string) : list string :=
  let items := [] in
  (* Pattern 1 *)
  let items := items ++ _extract_items_from_text content in
  (* Pattern 2 *)
  let items :=
    if (List.length items <? 3)%nat
    then items ++ space_separated_items content else items in
  (* Pattern 3 *)
  let items :=
    if (List.length items <? 3)%nat then
      let short := short_lines content in
      if (3 <=? List.length short)%nat then items ++ take 20 short else items
    else items in
  (* Pattern 4 *)
  let items :=
    if contains "faq" (lower section_name) || contains "question" (lower section_name)
    then items ++ re_findall1 faq_heading_re content else items in
  (* Pattern 5 *)
  let items :=
    if contains "room" (lower section_name)
    then items ++ set_to_list (re_findall1 room_re content) else items in
  items.

Definition _extract_items_from_firecrawl_content (content section_name : string)
  : list string :=
  take 50 (dedupe (collected_items content section_name)).

(** *** [_remove_navigation_noise] and [_is_navigation_section] *)

Definition skip_keywords : list string :=
  ["Menu"; "Login"; "Sign Up"; "Shortlist"; "Support"; "Download App";
   "Play Store"; "App Store"; "Follow us";
   "amber " +:+ text [chr 194; chr 169];
   "Company"; "Discover"; "Share Listing"; "Favorites"; "Add a Property"].

Definition _remove_navigation_noise (txt : string) : string :=
  join nl
    (List.filter
       (fun line => negb (contains_any skip_keywords line && (len line <? 100)%nat))
       (lines txt)).

Definition nav_keywords : list string :=
  ["Nearby Locations"; "Similar Properties"; "Student Accommodations";
   "Tourist Attractions"; "Universities in"; "Nearby Places";
   "Cities"; "Localities"].

Definition _is_navigation_section (heading : string) : bool :=
  contains_any nav_keywords heading.

(** *** Strategy 1: sections under [##] headings *)

(** [r'^##\s+(.+?)$\n(.*?)(?=\n##|\Z)] under MULTILINE and DOTALL *)
Definition heading_pattern : re :=
  seq [Bol true; Lit "##"; Plus is_space; Grp 1 (PlusLazy any_char); Eol true;
       Lit nl; Grp 2 (Few any_char); Ahead (alt [Lit (nl +:+ "##"); EndZ])].

(** The body of the loop over the heading matches: the section appended for
    one match, if any. *)
Definition heading_section (m : rmatch) : list PreSection :=
  let heading := strip (group 1 m) in
  let content := strip (group 2 m) in
  if _is_navigation_section heading then []
  else if (15 <? len content)%nat then
    let section_name := _infer_section_name heading in
    let items := _extract_items_from_firecrawl_content content section_name in
    [mkPreSection section_name heading content items]
  else [].

Definition heading_sections (text_cleaned : string) : list PreSection :=
  flat_map heading_section (re_finditer heading_pattern text_cleaned).

(** *** Strategy 2: [_extract_special_sections] *)

Definition count_keywords (kws : list string) (line : string) : nat :=
  List.length (List.filter (fun kw => contains kw line) kws).

Definition amenities_keywords : list string :=
  ["Gym"; "Study Room"; "Courtyard"; "Boardroom"; "Laundry"; "Study Lounge"].

Definition known_patterns : list string :=
  ["Study Room"; "Study Lounge"; "On-Site Laundry"; "In-Suite Laundry";
   "Laundry Room"; "Fitness Center"; "Game Room"; "Common Room";
   "Meeting Room"; "Board Room"; "Boardroom"].

Definition known_single : list string :=
  ["Gym"; "Courtyard"; "Pool"; "Cinema"; "Theater"; "Lounge";
   "Kitchen"; "Parking"; "Storage"; "Elevator"; "WiFi"].

(** The loop over [known_patterns]; the state is [(items, line_copy)]. *)
Definition amenity_pattern_step (st : list string * string) (pattern : string)
  : list string * string :=
  if contains pattern st.2
  then (st.1 ++ [pattern], replace_first pattern " " st.2)
  else st.

(** The loop over [remaining_words]; the state is [items]. *)
Definition amenity_word_step (items : list string) (word : string) : list string :=
  let word := strip word in
  if bool_decide (word ∈ known_single) && negb (contains word (join " " items))
  then items ++ [word] else items.

Definition amenity_items (line : string) : list string :=
  let st := fold_left amenity_pattern_step known_patterns ([], line) in
  let items := fold_left amenity_word_step (split_ws st.2) st.1 in
  let items := dict_fromkeys items in
  List.filter (fun i => (2 <? len i)%nat) items.

(** The loop over the lines, left at the first line that yields a section. *)
Fixpoint amenities_section (ls : list string) : list PreSection :=
  match ls with
  | [] => []
  | line :: rest =>
      if (3 <=? count_keywords amenities_keywords line)%nat then
        let items := amenity_items line in
        if (3 <=? List.length items)%nat
        then [mkPreSection "amenities" "Amenities" line items]
        else amenities_section rest
      else amenities_section rest
  end.

Definition bills_patterns : list string := ["Heat"; "Hydro"; "Gas"; "Internet"].

Definition known_bills : list string :=
  ["Heat"; "Hydro"; "Gas"; "Internet"; "In-Suite Laundry";
   "Electricity"; "Water"; "WiFi"; "Wi-Fi"].

Definition bill_items (line : string) : list string :=
  dict_fromkeys (List.filter (fun pattern => contains pattern line) known_bills).

Fixpoint bills_section (ls : list string) : list PreSection :=
  match ls with
  | [] => []
  | line :: rest =>
      if (3 <=? count_keywords bills_patterns line)%nat then
        let items := bill_items line in
        if (3 <=? List.length items)%nat
        then [mkPreSection "bills_included" "Bills Included" line items]
        else bills_section rest
      else bills_section rest
  end.

(** [(?=\n##[^#]| ...)]: the alternative shared by the region patterns. *)
Definition next_major_heading : re :=
  Cat (Lit (nl +:+ "##")) (Sym (none_of "#")).

(** [r'Frequently Asked Questions(.*?)(?=\n##[^#]|Show more|View less|Nearby
    Places|Student Accommodations|Universities in|$)'], DOTALL, IGNORECASE *)
Definition faq_region_re : re :=
  seq [LitI "Frequently Asked Questions"; Grp 1 (Few any_char);
       Ahead (alt [next_major_heading; LitI "Show more"; LitI "View less";
                   LitI "Nearby Places"; LitI "Student Accommodations";
                   LitI "Universities in"; Eol false])].

(** [r'^(.+\?)$'] under MULTILINE *)
Definition question_line_re : re :=
  seq [Bol true; Grp 1 (seq [Plus not_nl; Sym (is_char "?")]); Eol true].

Definition faqs_section (txt : string) : list PreSection :=
  match re_search faq_region_re txt with
  | Some faq_match =>
      let content := strip (group 1 faq_match) in
      let questions := re_findall1 faq_heading_re content in
      let questions := questions ++ re_findall1 question_line_re content in
      let questions := dict_fromkeys questions in
      match questions with
      | [] => []
      | _ => [mkPreSection "faqs" "FAQs" content questions]
      end
  | None => []
  end.

(** [re.escape(room) + r'.*?(?:\n\n|\n[A-Z]|$)'] under DOTALL *)
Definition room_context_re (room : string) : re :=
  seq [Lit room; Few any_char;
       alt [Lit (nl +:+ nl); Cat (Lit nl) (Sym (between 65 90)); Eol false]].

Definition room_types_section (txt : string) : list PreSection :=
  let room_types := re_findall1 room_re txt in
  match room_types with
  | [] => []
  | _ =>
      let unique_rooms := set_to_list room_types in
      let room_content :=
        flat_map (fun room =>
          match re_search (room_context_re room) txt with
          | Some m => [m_all m]
          | None => []
          end) (take 5 unique_rooms) in
      match unique_rooms with
      | [] => []
      | _ => [mkPreSection "room_types" "Room Types"
                           (join (nl +:+ nl) room_content) unique_rooms]
      end
  end.

(** [r'^-\s*(.+?)$'] under MULTILINE *)
Definition dash_line_re : re :=
  seq [Bol true; Sym (is_char "-"); Many is_space; Grp 1 (PlusLazy not_nl); Eol true].

(** [title\s*\((\d+)\)(.*?)(?=\n##[^#]|stop|$)], DOTALL, IGNORECASE; [stop]
    is left out when the pattern has no such alternative. *)
Definition policy_region_re (title : re) (stop : option string) : re :=
  seq [title; Many is_space; Sym (is_char "("); Grp 1 (Plus is_digit);
       Sym (is_char ")"); Grp 2 (Few any_char);
       Ahead (alt ([next_major_heading]
                   ++ match stop with Some w => [LitI w] | None => [] end
                   ++ [Eol false]))].

Definition dash_region_section (region : re) (name display : string) (txt : string)
  : list PreSection :=
  match re_search region txt with
  | Some region_match =>
      let content := strip (group 2 region_match) in
      let policies := re_findall1 dash_line_re content in
      match policies with
      | [] => []
      | _ => [mkPreSection name display content policies]
      end
  | None => []
  end.

(** [r'Payment Policies\s*\((\d+)\)(.*?)(?=\n##[^#]|Cancellation|$)'] *)
Definition payment_section : string -> list PreSection :=
  dash_region_section
    (policy_region_re (LitI "Payment Policies") (Some "Cancellation"))
    "payment" "Payment Policies".

(** [r'Cancellation Policies\s*\((\d+)\)(.*?)(?=\n##[^#]|Frequently|$)'] *)
Definition cancellation_section : string -> list PreSection :=
  dash_region_section
    (policy_region_re (LitI "Cancellation Policies") (Some "Frequently"))
    "cancellation" "Cancellation Policies".

(** [r'##\s*Offers\s*\((\d+)\)(.*?)(?=\n##[^#]|$)'] *)
Definition offers_section : string -> list PreSection :=
  dash_region_section
    (policy_region_re (seq [LitI "##"; Many is_space; LitI "Offers"]) None)
    "offers" "Offers".

Definition _extract_special_sections (txt : string) : list PreSection :=
  amenities_section (lines txt)
  ++ bills_section (lines txt)
  ++ faqs_section txt
  ++ room_types_section txt
  ++ payment_section txt
  ++ cancellation_section txt
  ++ offers_section txt.

(** *** The merge at the end of [_extract_firecrawl_sections] *)

Definition named (name : string) (s : PreSection) : bool :=
  (original_name s =? name)%string.

(** One turn of the loop over [sections]; the state is
    [(seen, unique_sections)].  [None] stands for the [IndexError] that
    [[...][0]] raises on an empty list. *)
Definition merge_step (st : option (gset string * list PreSection))
  (section : PreSection) : option (gset string * list PreSection) :=
  match st with
  | None => None
  | Some (seen, unique_sections) =>
      let name := original_name section in
      if bool_decide (name ∉ seen) then
        Some ({[name]} ∪ seen, unique_sections ++ [section])
      else
        match List.filter (named name) unique_sections with
        | [] => None
        | current :: _ =>
            if (List.length (items current) <? List.length (items section))%nat
            then Some ({[name]} ∪ seen,
                       List.filter (fun s => negb (named name s)) unique_sections
                       ++ [section])
            else Some (seen, unique_sections)
        end
  end.

Definition merge_sections (sections : list PreSection) : option (list PreSection) :=
  match fold_left merge_step sections (Some (∅, [])) with
  | Some (_, unique_sections) => Some unique_sections
  | None => None
  end.

(** The candidates of both strategies, in the order in which the function
    appends them to [sections]. *)
Definition candidate_sections (txt : string) : list PreSection :=
  let text_cleaned := _remove_navigation_noise txt in
  heading_sections text_cleaned ++ _extract_special_sections text_cleaned.

Definition _extract_firecrawl_sections (txt : string) : option (list PreSection) :=
  merge_sections (candidate_sections txt).

End Engine.

(** Modelled from the spec: the bullet-point extractor of the base parser
    ([BaseParser._extract_items_from_text], whose module is not among the
    sources).  The spec describes it as "leading-dash bullet lines": each line
    that starts with a dash, after surrounding blanks are removed, gives the
    text after the dash as an item. *)
Definition dash_bullets (content : string) : list string :=
  flat_map (fun line =>
    let l := strip line in
    if startswith "-" l then
      let item := strip (text (drop 1 (chars l))) in
      if (item =? "")%string then [] else [item]
    else [])
    (lines content).

(** A [set_to_list] that a run of the interpreter may show: the distinct
    elements in order of first appearance. *)
Definition first_seen_order (l : list string) : list string := dict_fromkeys l.

End Firecrawl.

(* ===================================================================== *)
(** ** Python values *)
(* ===================================================================== *)

(** The values that [json.loads] produces and that the parsers pass around
    as [Dict[str, Any]].  A dictionary is the list of its items in insertion
    order; a float is kept as the text that [str] prints for it, together
    with whether it is non-zero. *)

Module Py.
Import Text.

#[local] Set Warnings "-register-all".

Inductive pyval : Type :=
| PNone
| PBool (b : bool)
| PInt (z : Z)
| PFloat (shown : string) (nonzero : bool)
| PStr (s : string)
| PList (l : list pyval)
| PDict (d : list (string * pyval)).

Abbreviation pydict := (list (string * pyval)).

(** [bool(v)] *)
Definition truthy (v : pyval) : bool :=
  match v with
  | PNone => false
  | PBool b => b
  | PInt z => negb (z =? 0)%Z
  | PFloat _ nz => nz
  | PStr s => negb (s =? "")%string
  | PList l => match l with [] => false | _ => true end
  | PDict d => match d with [] => false | _ => true end
  end.

Fixpoint lookup_key (k : string) (d : pydict) : option pyval :=
  match d with
  | [] => None
  | (k', v) :: rest => if (k' =? k)%string then Some v else lookup_key k rest
  end.

(** [d.get(k, dflt)] and [d.get(k)] *)
Definition get_default (d : pydict) (k : string) (dflt : pyval) : pyval :=
  match lookup_key k d with Some v => v | None => dflt end.

Definition get (d : pydict) (k : string) : pyval := get_default d k PNone.

(** [a or b] *)
Definition por (a b : pyval) : pyval := if truthy a then a else b.

Definition show_Z (z : Z) : string := NilZero.string_of_int (Z.to_int z).

Definition quote1 : ascii := "'".
Definition quote2 : ascii := chr 34.
Definition backslash : ascii := chr 92.

Definition hex_digit (n : N) : ascii :=
  if (n <? 10)%N then chr (48 + n) else chr (87 + n).

(** [str.isprintable] on one character *)
Definition printable (c : ascii) : bool :=
  between 32 126 c || (between 161 255 c && negb (is_code 173 c)).

Definition repr_char (q : ascii) (c : ascii) : list ascii :=
  if ascii_eqb c backslash then [backslash; backslash]
  else if ascii_eqb c q then [backslash; q]
  else if is_code 9 c then [backslash; "t"%char]
  else if is_code 10 c then [backslash; "n"%char]
  else if is_code 13 c then [backslash; "r"%char]
  else if printable c then [c]
  else [backslash; "x"%char; hex_digit (code c / 16); hex_digit (code c mod 16)].

(** [repr(s)] of a string: single quotes, unless the string holds a single
    quote and no double quote. *)
Definition repr_str (s : string) : string :=
  let q := if existsb (ascii_eqb quote1) (chars s)
              && negb (existsb (ascii_eqb quote2) (chars s))
           then quote2 else quote1 in
  text ([q] ++ flat_map (repr_char q) (chars s) ++ [q]).

(** [repr(v)] *)
Fixpoint py_repr (v : pyval) : string :=
  match v with
  | PNone => "None"
  | PBool true => "True"
  | PBool false => "False"
  | PInt z => show_Z z
  | PFloat shown _ => shown
  | PStr s => repr_str s
  | PList l => "[" +:+ join ", " (map py_repr l) +:+ "]"
  | PDict d =>
      "{" +:+ join ", " (map (fun kv => match kv with
                                         | (k, x) => repr_str k +:+ ": " +:+ py_repr x
                                         end) d) +:+ "}"
  end.

(** [str(v)] *)
Definition py_str (v : pyval) : string :=
  match v with
  | PStr s => s
  | _ => py_repr v
  end.

(** Exceptions, and the outcome of a call that may raise.  A
    [JSONDecodeError] is what [except json.JSONDecodeError] catches; the
    other exceptions pass through such a clause. *)
Inductive exn : Type :=
| ValueError (msg : string)
| TypeError (msg : string)
| AttributeError (msg : string)
| JSONDecodeError (msg : string)
| RecursionError (msg : string).

Inductive outcome (A : Type) : Type :=
| Return (a : A)
| Raise (e : exn).

Arguments Return {A} a.
Arguments Raise {A} e.

End Py.

(* ===================================================================== *)
(** ** [ui/backend/parsers.py] *)
(* ===================================================================== *)

Module Parsers.
Import Text Regex Py.

(** *** Location resolution in [parse_json_to_property_data] *)

(** [if "data" in data and isinstance(data["data"], dict): data = data["data"]] *)
Definition unwrap_data (data : pydict) : pydict :=
  match lookup_key "data" data with
  | Some (PDict inner) => inner
  | _ => data
  end.

(** [data.get("location") or data.get("address") or data.get("city") or
     data.get("area") or data.get("address_line_1")] *)
Definition location_data_of (data : pydict) : pyval :=
  por (get data "location")
    (por (get data "address")
       (por (get data "city")
          (por (get data "area") (get data "address_line_1")))).

(** The chain of [if ...: location_parts.append(...)] statements. *)
Definition location_parts (location_data : pydict) : list string :=
  let g := get location_data in
  let location_parts := [] in
  let location_parts :=
    if truthy (g "name") then location_parts ++ [py_str (g "name")]
    else location_parts in
  let location_parts :=
    if truthy (g "address") then location_parts ++ [py_str (g "address")]
    else location_parts in
  let location_parts :=
    if truthy (g "street") then location_parts ++ [py_str (g "street")]
    else location_parts in
  let location_parts :=
    if truthy (g "city") then location_parts ++ [py_str (g "city")]
    else location_parts in
  let location_parts :=
    if truthy (g "state") || truthy (g "region")
    then location_parts ++ [py_str (por (g "state") (g "region"))]
    else location_parts in
  let location_parts :=
    if truthy (g "country") then location_parts ++ [py_str (g "country")]
    else location_parts in
  let location_parts :=
    if truthy (g "postal_code") || truthy (g "zip_code")
    then location_parts ++ [py_str (por (g "postal_code") (g "zip_code"))]
    else location_parts in
  location_parts.

(** The [elif isinstance(location_data, dict)] branch. *)
Definition location_of_dict (location_data : pydict) : string :=
  let g := get location_data in
  let parts := location_parts location_data in
  match parts with
  | _ :: _ => join ", " parts
  | [] =>
      if truthy (g "formatted_address") then py_str (g "formatted_address")
      else if truthy (g "display_name") then py_str (g "display_name")
      else if truthy (g "label") then py_str (g "label")
      else if truthy (g "lat") && truthy (g "lng")
      then py_str (g "lat") +:+ ", " +:+ py_str (g "lng")
      else py_str (PDict location_data)
  end.

(** The value of [location] when the function builds the record.  The
    "final safety check" that follows in the source only acts on a
    [location] that is neither a string nor [None], which none of the
    branches produces. *)
Definition resolve_location (data : pydict) : option string :=
  let location_data := location_data_of data in
  if truthy location_data then
    match location_data with
    | PStr s => Some s
    | PDict d => Some (location_of_dict d)
    | other => Some (py_str other)
    end
  else None.

(** The [location] of the record that [parse_json_to_property_data] builds
    for the dictionary [data]. *)
Definition json_location (data : pydict) : option string :=
  resolve_location (unwrap_data data).

(** *** URL resolution in [parse_text_to_property_data] *)

(** [[^\s\n]] *)
Definition text_url_char (c : ascii) : bool := negb (is_space c || ascii_eqb c NL).

(** [r'https?://[^\s\n]+|www\.[^\s\n]+'] under IGNORECASE *)
Definition text_url_pattern : re :=
  Or (seq [LitI "http"; Opt (Sym (is_char_i "s")); LitI "://"; Plus text_url_char])
     (seq [LitI "www"; Sym (is_char "."); Plus text_url_char]).

(** The loop [for line in lines: ... break]. *)
Fixpoint text_url_loop (ls : list string) (default_url : string) : string :=
  match ls with
  | [] => default_url
  | line :: rest =>
      match re_search text_url_pattern line with
      | Some m =>
          let url := m_all m in
          if negb (startswith "http" url) then "https://" +:+ url else url
      | None => text_url_loop rest default_url
      end
  end.

Definition text_url (txt default_url : string) : string :=
  text_url_loop (lines txt) default_url.

(** *** URL resolution in [parse_markdown_to_property_data] *)

Definition quotes : string := text [quote2; quote1].

(** The class of the characters of a URL: anything but a blank, a closing
    parenthesis, a quote of either kind and an angle bracket. *)
Definition md_url_char (c : ascii) : bool :=
  negb (is_space c || ascii_eqb c NL || one_of (")" +:+ quotes +:+ "<>") c).

(** [url_patterns]: the pattern, the group that holds the URL
    ([match.lastindex], 0 for a pattern without groups) and the base
    priority. *)
Definition url_patterns : list (re * nat * Z) :=
  [ (seq [Lit "href="; Sym (one_of quotes); Grp 1 (Plus (none_of quotes));
          Sym (one_of quotes)], 1, 3%Z);
    (seq [Sym (is_char "["); Grp 1 (Plus (none_of "]")); Sym (is_char "]");
          Sym (is_char "("); Grp 2 (Plus (none_of ")")); Sym (is_char ")")], 2, 2%Z);
    (seq [Lit "http"; Opt (Sym (is_char "s")); Lit "://"; Plus md_url_char], 0, 1%Z);
    (seq [Lit "www"; Sym (is_char "."); Plus md_url_char], 0, 0%Z) ].

Definition skip_keywords : list string :=
  ["logo"; "icon"; "cdn"; "facebook"; "twitter"; "instagram"; "linkedin";
   "youtube"; "pinterest"; "svg"; "png"; "jpg"; "jpeg"; "webp"; "gif";
   "favicon"; "apple-touch"; "stylesheet"; "script"; "font"; "assets"; "files"].

Definition prefer_keywords : list string :=
  ["property"; "accommodation"; "student"; "booking"; "sterling"; "iq";
   "universityliving.com"; "amberstudent.com"; "unilodgers.com";
   "student.com"; "casita.com"].

Definition image_extensions : list string :=
  [".svg"; ".png"; ".jpg"; ".jpeg"; ".gif"; ".webp"; ".ico"].

(** [l[0]] of a list that [str.split] returned (never empty). *)
Definition first_part (l : list string) : string :=
  match l with p :: _ => p | [] => "" end.

(** [potential_url.strip(...).split('?')[0].split('#')[0]], where the
    characters stripped are the parentheses, the square brackets and the two
    quotes. *)
Definition clean_url (potential_url : string) : string :=
  first_part (split_char "#"
    (first_part (split_char "?" (strip_chars ("()[]" +:+ quotes) potential_url)))).

(** The priority score of a URL that passed the filters. *)
Definition priority_of (base_priority : Z) (url_lower : string) : Z :=
  let priority := base_priority in
  let priority :=
    if contains_any prefer_keywords url_lower then (priority + 10)%Z else priority in
  let priority :=
    if contains "/property" url_lower || contains "/accommodation" url_lower
    then (priority + 5)%Z else priority in
  let priority :=
    if contains_any image_extensions url_lower then (priority - 10)%Z else priority in
  let priority :=
    if contains "cdn" url_lower || contains "assets" url_lower
       || contains "files" url_lower
    then (priority - 8)%Z else priority in
  priority.

(** The body of the innermost loop: the candidate appended for one match,
    if any ([continue] gives none). *)
Definition candidate_of (lastindex : nat) (base_priority : Z) (m : rmatch)
  : list (string * Z) :=
  let potential_url :=
    match lastindex with O => m_all m | _ => group lastindex m end in
  let potential_url := clean_url potential_url in
  let kept :=
    if negb (startswith "http" potential_url) then
      if startswith "www." potential_url then Some ("https://" +:+ potential_url)
      else if negb (contains "://" potential_url) then None
      else Some potential_url
    else Some potential_url in
  match kept with
  | None => []
  | Some potential_url =>
      let url_lower := lower potential_url in
      if contains_any skip_keywords url_lower then []
      else [(potential_url, priority_of base_priority url_lower)]
  end.

Definition line_candidates (line : string) : list (string * Z) :=
  flat_map (fun pat =>
    match pat with
    | (pattern, lastindex, base_priority) =>
        flat_map (candidate_of lastindex base_priority) (re_finditer pattern line)
    end) url_patterns.

Definition url_candidates (ls : list string) : list (string * Z) :=
  flat_map line_candidates ls.

(** [list.sort(key=lambda x: x[1], reverse=True)]: a stable sort by
    descending priority, written as an insertion sort. *)
Fixpoint insert_desc (x : string * Z) (l : list (string * Z)) : list (string * Z) :=
  match l with
  | [] => [x]
  | y :: t => if (x.2 <? y.2)%Z then y :: insert_desc x t else x :: l
  end.

Fixpoint sort_desc (l : list (string * Z)) : list (string * Z) :=
  match l with
  | [] => []
  | x :: t => insert_desc x (sort_desc t)
  end.

(** [url] after "Sort by priority and take the best one". *)
Definition best_url (ls : list string) (default_url : string) : string :=
  match sort_desc (url_candidates ls) with
  | (url, _) :: _ => url
  | [] => default_url
  end.

(** The breadcrumb pattern under IGNORECASE: [https?://], one or more URL
    characters, one of [property|accommodation|student|booking|
    universityliving|amberstudent], and any further URL characters, all in
    group 1. *)
Definition breadcrumb_re : re :=
  Grp 1 (seq [LitI "http"; Opt (Sym (is_char_i "s")); LitI "://"; Plus md_url_char;
              alt (map LitI ["property"; "accommodation"; "student"; "booking";
                             "universityliving"; "amberstudent"]);
              Many md_url_char]).

(** The fallback loop over [lines[:200]]. *)
Fixpoint breadcrumb_loop (ls : list string) (url : string) : string :=
  match ls with
  | [] => url
  | line :: rest =>
      match re_search breadcrumb_re line with
      | Some breadcrumb_match =>
          let candidate := group 1 breadcrumb_match in
          if negb (contains_any [".svg"; ".png"; ".jpg"; ".jpeg"; ".gif"; ".webp"]
                                (lower candidate))
          then candidate
          else breadcrumb_loop rest url
      | None => breadcrumb_loop rest url
      end
  end.

Definition markdown_url (markdown default_url : string) : string :=
  let ls := lines markdown in
  let url := best_url ls default_url in
  if (url =? default_url)%string
     || contains_any ["svg"; "png"; "jpg"; "jpeg"; "gif"; "cdn"; "files"] (lower url)
  then breadcrumb_loop (take 200 ls) url
  else url.

(** *** [parse_input_to_property_data] *)

(** [PropertyData], with the fields that the parsers resolve; the lists of
    images and links and the meta tags are not modelled. *)
Record PropertyData : Type := mkPropertyData {
  property_name : string;
  provider : option string;
  url : string;
  location : option string;
  extracted_text : string
}.

(** The argument [data : Any]: a [PropertyData], a [dict], a [str], or a
    value of another type, of which only the printed form of its type is
    kept (for example [<class 'int'>]). *)
Inductive input : Type :=
| InRecord (p : PropertyData)
| InDict (d : pydict)
| InStr (s : string)
| InOther (type_repr : string).

(** [re.search(r'^#+\s+', text, re.MULTILINE)] *)
Definition md_heading_re : re := seq [Bol true; Plus (is_char "#"); Plus is_space].

(** [re.search(r'\[([^\]]+)\]\(', text)] *)
Definition md_link_re : re :=
  seq [Sym (is_char "["); Grp 1 (Plus (none_of "]")); Sym (is_char "]");
       Sym (is_char "(")].

Definition has_markdown_patterns (txt : string) : bool :=
  match re_search md_heading_re txt with
  | Some _ => true
  | None => match re_search md_link_re txt with Some _ => true | None => false end
  end.

Section Dispatch.

(** [json.loads]: the decoded value, or the exception that the decoder
    raises: a [JSONDecodeError], with its message, for a text that is not
    JSON, and another exception for some texts (a [RecursionError] for
    brackets nested too deep, a [ValueError] for an integer of too many
    digits). *)
Variable json_loads : string -> outcome pyval.

(** The three format parsers.  [parse_json_to_property_data] may raise (it
    calls methods of whatever values the document holds); the markdown and
    text parsers only search, slice and join text. *)
Variable parse_json_to_property_data : pyval -> outcome PropertyData.
Variable parse_markdown_to_property_data : string -> string -> PropertyData.
Variable parse_text_to_property_data : string -> string -> PropertyData.

(** The body of both [try] blocks:
    [json_data = json.loads(text); return parse_json_to_property_data(json_data)].
    The [except json.JSONDecodeError] clause that follows it catches that
    exception alone, whichever of the two calls raised it. *)
Definition try_json (txt : string) : outcome PropertyData :=
  match json_loads txt with
  | Return json_data => parse_json_to_property_data json_data
  | Raise e => Raise e
  end.

Definition parse_input_to_property_data (data : input) (input_format : string)
  (default_url : string) : outcome PropertyData :=
  match data with
  | InRecord p => Return p
  | InDict d => parse_json_to_property_data (PDict d)
  | InStr s =>
      let txt := strip s in
      let markdown_or_text :=
        if has_markdown_patterns txt
        then Return (parse_markdown_to_property_data txt default_url)
        else Return (parse_text_to_property_data txt default_url) in
      if (input_format =? "auto")%string then
        if startswith "{" txt || startswith "[" txt then
          match try_json txt with
          | Raise (JSONDecodeError _) => markdown_or_text
          | other => other
          end
        else markdown_or_text
      else if (input_format =? "json")%string then
        match try_json txt with
        | Raise (JSONDecodeError e) => Raise (ValueError ("Invalid JSON format: " +:+ e))
        | other => other
        end
      else if (input_format =? "markdown")%string then
        Return (parse_markdown_to_property_data txt default_url)
      else Return (parse_text_to_property_data txt default_url)
  | InOther type_repr => Raise (ValueError ("Unsupported input type: " +:+ type_repr))
  end.

End Dispatch.

End Parsers.

(* ===================================================================== *)
(** ** [src/agents/simple_extractor.py] *)
(* ===================================================================== *)

Module Extractor.
Import Text Py.

Definition zero : pyval := PInt 0.

(** [_empty_result] *)
Definition _empty_result (property_name url : pyval) : pydict :=
    [ ("property_name", property_name);
      ("url", url);
      ("sections_count", zero);
      ("total_items", zero);
      ("total_word_count", zero);
      ("sections", PList []);
      ("metrics", PDict
         [ ("amenities_count", zero);
           ("room_types_count", zero);
           ("faqs_count", zero);
           ("bills_included_count", zero);
           ("payment_options_count", zero);
           ("universities_mentioned", zero);
           ("pois_count", zero);
           ("reviews_count", zero);
           ("trust_badges_count", zero);
           ("safety_features_count", zero) ]);
      ("images_count", zero);
      ("videos_count", zero) ].

(** [len(v)], which raises [TypeError] for a value without a length. *)
Definition py_len (v : pyval) : option nat :=
  match v with
  | PStr s => Some (len s)
  | PList l => Some (List.length l)
  | PDict d => Some (List.length d)
  | _ => None
  end.

Section Extract.

(** The [try] block of [extract]: the prompts are built, the model is
    called and its answer is decoded.  [None] stands for any exception raised
    inside the block, which the [except] clause catches. *)
Variable llm_extract : pyval -> pyval -> pyval -> option pyval.

Definition extract (raw_data : pydict) : outcome pyval :=
  match get_default raw_data "extracted_content" (PDict []) with
  | PDict extracted_content =>
      let txt := get_default extracted_content "text" (PStr "") in
      let property_name := get_default raw_data "property_name" (PStr "Unknown") in
      let url := get_default raw_data "url" (PStr "") in
      match py_len txt with
      | Some n =>
          if negb (truthy txt) || (n <? 50)%nat
          then Return (PDict (_empty_result property_name url))
          else
            match llm_extract txt property_name url with
            | Some result => Return result
            | None => Return (PDict (_empty_result property_name url))
            end
      | None => Raise (TypeError "object has no len()")
      end
  | _ => Raise (AttributeError "object has no attribute 'get'")
  end.

End Extract.

End Extractor.

(* ===================================================================== *)
(** ** [parse_text_to_property_data] of [ui/backend/parsers.py] *)
(* ===================================================================== *)

Module TextParser.
Import Text Regex.

(** The record that the text parser builds: the fields of [PropertyData],
    and of its [ExtractedContent] the text, the URLs of the images and of the
    links, and the title and the description of the meta tags. *)
Record ParsedText : Type := mkParsedText {
  property_name : string;
  provider : option string;
  url : string;
  location : option string;
  clean_text : string;
  images : list string;
  links : list string;
  title : string;
  description : string
}.

(** [[\s:]] *)
Definition blank_or_colon (c : ascii) : bool := is_space c || ascii_eqb c ":".

(** [r'(?:property\s*name|name|title)[\s:]+([^\n]+)'] under IGNORECASE *)
Definition name_label_re : re :=
  seq [alt [seq [LitI "property"; Many is_space; LitI "name"]; LitI "name"; LitI "title"];
       Plus blank_or_colon; Grp 1 (Plus not_nl)].

(** Strategy 1, the loop over [lines[:20]]: the name at which the loop
    breaks, if it does. *)
Fixpoint labelled_name (ls : list string) : option string :=
  match ls with
  | [] => None
  | line :: rest =>
      match re_search name_label_re line with
      | Some m =>
          let name_candidate := strip (group 1 m) in
          if (3 <? len name_candidate)%nat && (len name_candidate <? 100)%nat
          then Some name_candidate
          else labelled_name rest
      | None => labelled_name rest
      end
  end.

(** [clean_line.startswith(('http', 'www', 'Location', 'URL', 'Description'))] *)
Definition generic_start (clean_line : string) : bool :=
  existsb (fun p => startswith p clean_line)
          ["http"; "www"; "Location"; "URL"; "Description"].

(** Strategy 2, the loop over [lines[:5]]. *)
Fixpoint first_plain_line (ls : list string) : option string :=
  match ls with
  | [] => None
  | line :: rest =>
      let clean_line := strip line in
      if negb (clean_line =? "")%string
         && (3 <? len clean_line)%nat && (len clean_line <? 100)%nat
         && negb (generic_start clean_line)
      then Some clean_line
      else first_plain_line rest
  end.

(** [[a-zA-Z\s&]] *)
Definition name_body (c : ascii) : bool :=
  between 97 122 c || between 65 90 c || is_space c || ascii_eqb c "&".

(** [r'([A-Z][a-zA-Z\s&]+(?:Court|House|Hall|Residence|Accommodation|Property|
    Living|Student|Apartments?))'] *)
Definition building_re : re :=
  Grp 1 (seq [Sym (between 65 90); Plus name_body;
              alt [Lit "Court"; Lit "House"; Lit "Hall"; Lit "Residence";
                   Lit "Accommodation"; Lit "Property"; Lit "Living"; Lit "Student";
                   seq [Lit "Apartment"; Opt (Sym (is_char "s"))]]]).

(** The loops of the shape [for line in lines: match = re.search(...); if
    match: x = match.group(1).strip(); break]. *)
Fixpoint first_group1 (r : re) (ls : list string) : option string :=
  match ls with
  | [] => None
  | line :: rest =>
      match re_search r line with
      | Some m => Some (strip (group 1 m))
      | None => first_group1 r rest
      end
  end.

Definition unknown : string := "Unknown Property".

(** The three strategies for the name, each one run while the name is still
    the unknown one. *)
Definition text_property_name (ls : list string) : string :=
  let property_name := unknown in
  let property_name :=
    match labelled_name (take 20 ls) with
    | Some name => name
    | None => property_name
    end in
  let property_name :=
    if (property_name =? unknown)%string then
      match first_plain_line (take 5 ls) with
      | Some name => name
      | None => property_name
      end
    else property_name in
  let property_name :=
    if (property_name =? unknown)%string then
      match first_group1 building_re (take 30 ls) with
      | Some name => name
      | None => property_name
      end
    else property_name in
  property_name.

(** [r'(?:location|address|city)[\s:]+([^\n]+)'] under IGNORECASE *)
Definition location_re : re :=
  seq [alt [LitI "location"; LitI "address"; LitI "city"];
       Plus blank_or_colon; Grp 1 (Plus not_nl)].

(** [r'(?:provider|by|hosted by)[\s:]+([^\n]+)'] under IGNORECASE *)
Definition provider_re : re :=
  seq [alt [LitI "provider"; LitI "by"; LitI "hosted by"];
       Plus blank_or_colon; Grp 1 (Plus not_nl)].

(** ['\n'.join(line.strip() for line in lines if line.strip())] *)
Definition clean_lines (ls : list string) : list string :=
  map strip (List.filter (fun line => negb (strip line =? "")%string) ls).

(** [r'(?:image|photo|img)[\s:]+([^\s\n]+\.(?:jpg|jpeg|png|gif|webp))'] under
    IGNORECASE *)
Definition image_pattern : re :=
  seq [alt [LitI "image"; LitI "photo"; LitI "img"]; Plus blank_or_colon;
       Grp 1 (seq [Plus Parsers.text_url_char; Sym (is_char ".");
                   alt [LitI "jpg"; LitI "jpeg"; LitI "png"; LitI "gif"; LitI "webp"]])].

(** [r'(https?://[^\s\n\)]+)'] *)
Definition link_pattern : re :=
  Grp 1 (seq [Lit "http"; Opt (Sym (is_char "s")); Lit "://";
              Plus (fun c => Parsers.text_url_char c && negb (ascii_eqb c ")"))]).

(** [clean_text[:200] + "..." if len(clean_text) > 200 else clean_text] *)
Definition summary (clean_text : string) : string :=
  if (200 <? len clean_text)%nat
  then text (take 200 (chars clean_text)) +:+ "..."
  else clean_text.

Definition parse_text_to_property_data (txt default_url : string) : ParsedText :=
  let ls := lines txt in
  let property_name := text_property_name ls in
  let url := Parsers.text_url_loop ls default_url in
  let location := first_group1 location_re ls in
  let provider := first_group1 provider_re ls in
  let clean_text := join nl (clean_lines ls) in
  let images := map (group 1) (re_finditer image_pattern clean_text) in
  let links :=
    List.filter (fun url_found => negb (url_found =? url)%string)
                (map m_all (re_finditer link_pattern clean_text)) in
  mkParsedText property_name provider url location clean_text
               (take 20 images) (take 50 links)
               (property_name +:+ " | Property Details")
               (summary clean_text).

End TextParser.

(* ===================================================================== *)
(** ** The alias chains of [parse_json_to_property_data] *)
(* ===================================================================== *)

Module JsonFields.
Import Text Py.

(** [data.get("property_name") or data.get("name") or data.get("title") or
     data.get("property") or data.get("propertyName") or "Unknown Property"] *)
Definition json_property_name (data : pydict) : pyval :=
  por (get data "property_name")
    (por (get data "name")
       (por (get data "title")
          (por (get data "property")
             (por (get data "propertyName") (PStr "Unknown Property"))))).

(** [data.get("url") or data.get("source_link") or data.get("link") or
     data.get("property_url") or data.get("website") or data.get("sourceUrl")
     or "https://example.com"] *)
Definition json_url (data : pydict) : pyval :=
  por (get data "url")
    (por (get data "source_link")
       (por (get data "link")
          (por (get data "property_url")
             (por (get data "website")
                (por (get data "sourceUrl") (PStr "https://example.com")))))).

(** [data.get("provider") or data.get("source") or data.get("host") or
     data.get("owner_name") or None] *)
Definition json_provider (data : pydict) : pyval :=
  por (get data "provider")
    (por (get data "source")
       (por (get data "host")
          (por (get data "owner_name") PNone))).

End JsonFields.

(* ===================================================================== *)
(** ** [src/scrapers/firecrawl_scraper.py] *)
(* ===================================================================== *)

Module Scraper.
Import Text.

Definition title_suffixes : list string :=
  [" - Student Housing"; " - Property"; " | Amber Student"; " | UniversityLiving"].

(** The body of the loop over the suffixes in [scrape_to_property_data]:
    [if suffix in property_name: property_name = property_name.split(suffix)[0]] *)
Definition cut_at (property_name suffix : string) : string :=
  if contains suffix property_name then
    match split_str suffix property_name with
    | part :: _ => part
    | [] => property_name
    end
  else property_name.

(** The ['property_name'] of the dictionary that [scrape_to_property_data]
    returns for a page whose title is [title]. *)
Definition scraped_property_name (title : string) : string :=
  strip (fold_left cut_at title_suffixes title).

End Scraper.

(* ===================================================================== *)
(** ** [src/utils/llm_client.py] *)
(* ===================================================================== *)

Module LlmClient.
Import Text Py.

Section Retries.

(** [self.generate(system_prompt, user_prompt, **kwargs)] at each attempt:
    the text that the provider returns, or the exception that the call
    raises. *)
Variable generate : Z -> outcome string.

(** The loop [for attempt in range(retries)], with [todo] turns left. *)
Fixpoint attempts (retries : Z) (todo : nat) (attempt : Z) : outcome string :=
  match todo with
  | O => Return ""
  | S todo' =>
      match generate attempt with
      | Return answer => Return answer
      | Raise e =>
          if (attempt =? retries - 1)%Z then Raise e
          else attempts retries todo' (attempt + 1)%Z
      end
  end.

Definition generate_with_retries (retries : Z) : outcome string :=
  attempts retries (Z.to_nat retries) 0%Z.

End Retries.

End LlmClient.

(* ===================================================================== *)
(** ** Images and links in [parse_markdown_to_property_data] *)
(* ===================================================================== *)

Module MarkdownMedia.
Import Text Regex.

(** [ImageData] and [LinkData] as the markdown parser fills them. *)
Record ImageData : Type := mkImageData {
  image_url : string;
  alt : option string
}.

Record LinkData : Type := mkLinkData {
  link_url : string;
  link_text : string
}.

(** [image_pattern]: an exclamation mark, the alternative text in square
    brackets (any characters but a closing bracket, possibly none) as group 1,
    and the URL in parentheses (one or more characters other than a closing
    parenthesis) as group 2. *)
Definition image_pattern : re :=
  seq [Sym (is_char "!"); Sym (is_char "["); Grp 1 (Many (none_of "]"));
       Sym (is_char "]"); Sym (is_char "("); Grp 2 (Plus (none_of ")"));
       Sym (is_char ")")].

(** [link_pattern]: the same without the exclamation mark, and with one or
    more characters for the text. *)
Definition link_pattern : re :=
  seq [Sym (is_char "["); Grp 1 (Plus (none_of "]")); Sym (is_char "]");
       Sym (is_char "("); Grp 2 (Plus (none_of ")")); Sym (is_char ")")].

(** The body of the loop over the image matches. *)
Definition image_of (m : rmatch) : ImageData :=
  let alt_text := group 1 m in
  let image_url := group 2 m in
  mkImageData image_url (if negb (alt_text =? "")%string then Some alt_text else None).

(** The body of the loop over the link matches: anchors are skipped. *)
Definition link_of (m : rmatch) : list LinkData :=
  let link_text := group 1 m in
  let link_url := group 2 m in
  if negb (startswith "#" link_url) then [mkLinkData link_url link_text] else [].

(** [images[:20]] and [links[:50]] of the extracted content. *)
Definition markdown_images (markdown : string) : list ImageData :=
  take 20 (map image_of (re_finditer image_pattern markdown)).

Definition markdown_links (markdown : string) : list LinkData :=
  take 50 (flat_map link_of (re_finditer link_pattern markdown)).

End MarkdownMedia.

(* ===================================================================== *)
(** ** Facts about the text primitives *)
(* ===================================================================== *)

Section TextFacts.
Import Text.

Lemma ascii_eqb_eq (a b : ascii) : ascii_eqb a b = true <-> a = b.
Proof.
  unfold ascii_eqb, code. rewrite N.eqb_eq. split; [| now intros ->].
  intros H. rewrite <- (ascii_N_embedding a), <- (ascii_N_embedding b).
  now rewrite H.
Qed.

Lemma text_chars (s : string) : text (chars s) = s.
Proof. apply string_of_list_ascii_of_string. Qed.

Lemma chars_text (l : list ascii) : chars (text l) = l.
Proof. apply list_ascii_of_string_of_list_ascii. Qed.

Lemma chars_append (a b : string) : chars (a +:+ b) = chars a ++ chars b.
Proof.
  unfold chars. induction a as [| c a IH]; simpl; [reflexivity |].
  now rewrite IH.
Qed.

Lemma len_chars (s : string) : len s = List.length (chars s).
Proof.
  unfold len, chars. induction s as [| c s IH]; simpl; [reflexivity |].
  now rewrite IH.
Qed.

Lemma is_prefix_spec (p l : list ascii) :
  is_prefix p l = true <-> exists r, l = p ++ r.
Proof.
  revert l. induction p as [| a p IH]; intros l; simpl.
  - split; [intros _; now exists l | reflexivity].
  - destruct l as [| b l].
    + split; [discriminate | intros [r Hr]; discriminate].
    + rewrite andb_true_iff, ascii_eqb_eq, IH. split.
      * intros [-> [r ->]]. now exists r.
      * intros [r Hr]. injection Hr as -> ->. split; [reflexivity | now exists r].
Qed.

Lemma has_infix_spec (p l : list ascii) :
  has_infix p l = true <-> exists q r, l = q ++ p ++ r.
Proof.
  induction l as [| c l IH].
  - simpl. rewrite orb_false_r, is_prefix_spec. split.
    + intros [r Hr]. now exists [], r.
    + intros [q [r Hr]]. destruct q; [now exists r | discriminate].
  - change (has_infix p (c :: l)) with (is_prefix p (c :: l) || has_infix p l).
    rewrite orb_true_iff, is_prefix_spec, IH. split.
    + intros [[r Hr] | [q [r Hr]]].
      * now exists [], r.
      * exists (c :: q), r. now rewrite Hr.
    + intros [q [r Hr]]. destruct q as [| c' q].
      * left. now exists r.
      * right. injection Hr as -> ->. now exists q, r.
Qed.

End TextFacts.

(* ===================================================================== *)
(** ** The merge of candidate sections *)
(* ===================================================================== *)

Section MergeFacts.
Import Text Firecrawl.

Definition names (u : list PreSection) : list string := map original_name u.

(** The rule of the merger in the words of its contract: a candidate for
    [name] meets the current winner for that name, if there is one, and takes
    its place exactly when it has strictly more items. *)
Definition challenge (name : string) (cur : option PreSection) (c : PreSection)
  : option PreSection :=
  if named name c then
    match cur with
    | None => Some c
    | Some w =>
        if (List.length (items w) <? List.length (items c))%nat then Some c else Some w
    end
  else cur.

(** The winner for [name] among the candidates [cands], taken in order. *)
Definition winner (name : string) (cands : list PreSection) : option PreSection :=
  fold_left (challenge name) cands None.

Lemma named_true (n : string) (s : PreSection) :
  named n s = true <-> original_name s = n.
Proof. unfold named. apply String.eqb_eq. Qed.

Lemma named_false (n : string) (s : PreSection) :
  named n s = false <-> original_name s <> n.
Proof. unfold named. apply String.eqb_neq. Qed.

Lemma find_snoc {A : Type} (f : A -> bool) (l : list A) (x : A) :
  find f (l ++ [x]) =
  match find f l with
  | Some y => Some y
  | None => if f x then Some x else None
  end.
Proof.
  induction l as [| a l IH]; simpl.
  - destruct (f x); reflexivity.
  - destruct (f a); [reflexivity | exact IH].
Qed.

Lemma head_filter_find {A : Type} (f : A -> bool) (u : list A) :
  head (List.filter f u) = find f u.
Proof.
  induction u as [| a u IH]; simpl; [reflexivity |].
  destruct (f a); [reflexivity | exact IH].
Qed.

Lemma find_named_None (n : string) (u : list PreSection) :
  find (named n) u = None <-> n ∉ names u.
Proof.
  induction u as [| s u IH]; simpl.
  - split; [intros _; apply not_elem_of_nil | reflexivity].
  - rewrite not_elem_of_cons. destruct (named n s) eqn:E.
    + apply named_true in E. split; [discriminate | intros [H _]; congruence].
    + apply named_false in E. rewrite IH. split.
      * intros H. split; [congruence | exact H].
      * intros [_ H]. exact H.
Qed.

Lemma find_named_name (n : string) (u : list PreSection) (w : PreSection) :
  find (named n) u = Some w -> original_name w = n /\ w ∈ u.
Proof.
  intros H. apply find_some in H as [Hin Hn].
  split; [now apply named_true | now apply list_elem_of_In].
Qed.

Lemma find_drop_named (n m : string) (u : list PreSection) :
  find (named n) (List.filter (fun s => negb (named m s)) u) =
  if (n =? m)%string then None else find (named n) u.
Proof.
  induction u as [| s u IH]; simpl.
  - destruct (n =? m)%string; reflexivity.
  - destruct (named m s) eqn:Em; simpl.
    + rewrite IH. destruct (String.eqb_spec n m) as [-> | Hne]; [reflexivity |].
      apply named_true in Em.
      destruct (named n s) eqn:En; [apply named_true in En; congruence | reflexivity].
    + destruct (named n s) eqn:En.
      * destruct (String.eqb_spec n m) as [-> | Hne]; [congruence | reflexivity].
      * apply IH.
Qed.

Lemma names_drop_sublist (m : string) (u : list PreSection) :
  names (List.filter (fun s => negb (named m s)) u) `sublist_of` names u.
Proof.
  induction u as [| s u IH]; simpl; [constructor |].
  destruct (named m s); simpl; [now apply sublist_cons | now apply sublist_skip].
Qed.

Lemma names_drop_fresh (m : string) (u : list PreSection) :
  m ∉ names (List.filter (fun s => negb (named m s)) u).
Proof.
  apply find_named_None. rewrite find_drop_named.
  now rewrite String.eqb_refl.
Qed.

Lemma names_snoc (u : list PreSection) (c : PreSection) :
  names (u ++ [c]) = names u ++ [original_name c].
Proof. unfold names. now rewrite map_app. Qed.

Lemma NoDup_snoc_fresh (l : list string) (x : string) :
  NoDup l -> x ∉ l -> NoDup (l ++ [x]).
Proof.
  intros Hl Hx. apply NoDup_app. split; [exact Hl |]. split.
  - intros y Hy Hy'. apply list_elem_of_singleton in Hy'. now subst.
  - apply NoDup_singleton.
Qed.

Lemma winner_snoc (n : string) (l : list PreSection) (c : PreSection) :
  winner n (l ++ [c]) = challenge n (winner n l) c.
Proof. unfold winner. now rewrite fold_left_app. Qed.

(** What holds of the loop state after the candidates [l] have been seen. *)
Definition merge_inv (l : list PreSection) (st : gset string * list PreSection)
  : Prop :=
  (forall n, n ∈ st.1 <-> n ∈ names st.2)
  /\ NoDup (names st.2)
  /\ (forall n, find (named n) st.2 = winner n l).

Lemma merge_step_inv (l : list PreSection) (st : gset string * list PreSection)
  (c : PreSection) :
  merge_inv l st ->
  exists st', merge_step (Some st) c = Some st' /\ merge_inv (l ++ [c]) st'.
Proof.
  destruct st as [seen u]. intros (Hseen & Hnd & Hwin). simpl in *.
  unfold merge_step. case_bool_decide as Hfresh.
  - (* a name not seen before *)
    eexists. split; [reflexivity |].
    assert (Hnot : original_name c ∉ names u) by (now rewrite <- Hseen).
    split; [| split]; simpl.
    + intros n. rewrite names_snoc, elem_of_app, list_elem_of_singleton, <- Hseen.
      rewrite elem_of_union, elem_of_singleton. tauto.
    + rewrite names_snoc. now apply NoDup_snoc_fresh.
    + intros n. rewrite find_snoc, winner_snoc, <- Hwin. unfold challenge.
      destruct (named n c) eqn:En.
      * apply named_true in En. subst n.
        apply find_named_None in Hnot. now rewrite Hnot.
      * now destruct (find (named n) u).
  - (* a name seen before: the current winner is looked up *)
    assert (Hin : original_name c ∈ names u).
    { apply Hseen. destruct (decide (original_name c ∈ seen)); [assumption | contradiction]. }
    pose proof (head_filter_find (named (original_name c)) u) as Hhead.
    destruct (find (named (original_name c)) u) as [w |] eqn:Hw.
    2:{ apply find_named_None in Hw. contradiction. }
    destruct (List.filter (named (original_name c)) u) as [| w' rest] eqn:Hf;
      [discriminate |].
    simpl in Hhead. injection Hhead as ->.
    destruct (List.length (items w) <? List.length (items c))%nat eqn:Hlt.
    + eexists. split; [reflexivity |]. split; [| split]; simpl.
      * intros n. rewrite names_snoc, elem_of_app, list_elem_of_singleton.
        rewrite elem_of_union, elem_of_singleton, Hseen.
        destruct (decide (n = original_name c)) as [-> | Hne]; [tauto |].
        split; [intros [? | Hn]; [contradiction |] | intros [Hn | ?]; [| contradiction]].
        -- left. apply dec_stable. intros Hno. apply find_named_None in Hno.
           rewrite find_drop_named in Hno.
           apply String.eqb_neq in Hne. rewrite Hne in Hno.
           now apply find_named_None in Hno.
        -- right. eapply elem_of_sublist; [exact Hn | apply names_drop_sublist].
      * rewrite names_snoc. apply NoDup_snoc_fresh.
        -- eapply sublist_NoDup; [exact Hnd | apply names_drop_sublist].
        -- apply names_drop_fresh.
      * intros n. rewrite find_snoc, find_drop_named, winner_snoc, <- Hwin.
        unfold challenge. destruct (String.eqb_spec n (original_name c)) as [-> | Hne].
        -- assert (Hc : named (original_name c) c = true) by now apply named_true.
           now rewrite Hc, Hw, Hlt.
        -- assert (Hc : named n c = false) by (apply named_false; congruence).
           rewrite Hc. now destruct (find (named n) u).
    + eexists. split; [reflexivity |]. split; [| split]; simpl.
      * exact Hseen.
      * exact Hnd.
      * intros n. rewrite winner_snoc, <- Hwin. unfold challenge.
        destruct (named n c) eqn:En; [| reflexivity].
        apply named_true in En. subst n. now rewrite Hw, Hlt.
Qed.

Lemma merge_fold_inv (l : list PreSection) :
  exists st, fold_left merge_step l (Some (∅, [])) = Some st /\ merge_inv l st.
Proof.
  induction l as [| c l IH] using rev_ind.
  - exists (∅, []). split; [reflexivity |]. split; [| split]; simpl.
    + intros n. rewrite elem_of_nil. split; [apply not_elem_of_empty | tauto].
    + constructor.
    + reflexivity.
  - destruct IH as (st & Hst & Hinv).
    destruct (merge_step_inv l st c Hinv) as (st' & Hstep & Hinv').
    exists st'. split; [| exact Hinv'].
    now rewrite fold_left_app, Hst.
Qed.

(** The merge never raises: the winner it looks up is always there. *)
Lemma merge_sections_total (l : list PreSection) :
  exists u, merge_sections l = Some u
            /\ NoDup (names u)
            /\ (forall n, find (named n) u = winner n l).
Proof.
  destruct (merge_fold_inv l) as ([seen u] & Hst & _ & Hnd & Hwin).
  exists u. unfold merge_sections. rewrite Hst. auto.
Qed.

Lemma winner_is_candidate (n : string) (l : list PreSection) (w : PreSection) :
  winner n l = Some w -> w ∈ l /\ original_name w = n.
Proof.
  revert w. induction l as [| c l IH] using rev_ind; intros w; [discriminate |].
  rewrite winner_snoc. unfold challenge. rewrite elem_of_app, list_elem_of_singleton.
  destruct (named n c) eqn:En.
  - apply named_true in En. destruct (winner n l) as [w0 |].
    + destruct (_ <? _)%nat; intros [= <-]; [tauto |].
      destruct (IH w0 eq_refl). tauto.
    + intros [= <-]. tauto.
  - intros H. destruct (IH w H). tauto.
Qed.

Lemma merged_is_candidate (l u : list PreSection) (s : PreSection) :
  merge_sections l = Some u -> s ∈ u -> s ∈ l.
Proof.
  intros Hm Hs. destruct (merge_sections_total l) as (u' & Hu' & Hnd & Hwin).
  rewrite Hm in Hu'. injection Hu' as <-.
  assert (Hf : exists w, find (named (original_name s)) u = Some w).
  { destruct (find (named (original_name s)) u) eqn:E; [eauto |].
    apply find_named_None in E. exfalso. apply E.
    unfold names. apply list_elem_of_fmap. eauto. }
  destruct Hf as (w & Hw).
  assert (w = s) as ->.
  { destruct (find_named_name _ _ _ Hw) as [Hn Hin].
    clear Hw Hwin Hm. unfold names in Hnd.
    induction u as [| a u IHu]; [now apply elem_of_nil in Hs |].
    simpl in Hnd. apply NoDup_cons in Hnd as [Ha Hnd].
    apply elem_of_cons in Hs as [-> | Hs]; apply elem_of_cons in Hin as [-> | Hin];
      try reflexivity.
    - exfalso. apply Ha. apply list_elem_of_fmap. eauto.
    - exfalso. apply Ha. apply list_elem_of_fmap. exists s. auto.
    - now apply IHu. }
  rewrite Hwin in Hw. now apply winner_is_candidate in Hw.
Qed.

End MergeFacts.

(* ===================================================================== *)
(** ** Deduplication *)
(* ===================================================================== *)

Section DedupeFacts.
Import Text Firecrawl.

(** The elements of [l] that are not in [seen], each kept where it first
    appears. *)
Fixpoint first_occurrences (seen : list string) (l : list string) : list string :=
  match l with
  | [] => []
  | x :: t =>
      if bool_decide (x ∈ seen) then first_occurrences seen t
      else x :: first_occurrences (x :: seen) t
  end.

(** What the final loop of the item extractor lets through: a non-empty
    string of more than one character. *)
Definition keeps (x : string) : bool := negb (x =? "")%string && (1 <? len x)%nat.

Lemma first_occurrences_spec (l seen : list string) :
  NoDup (first_occurrences seen l)
  /\ (forall x, x ∈ first_occurrences seen l <-> x ∈ l /\ x ∉ seen)
  /\ first_occurrences seen l `sublist_of` l.
Proof.
  revert seen. induction l as [| a l IH]; intros seen; simpl.
  - split; [constructor |]. split; [| constructor].
    intros x. rewrite elem_of_nil. tauto.
  - destruct (IH seen) as (Hnd & Hin & Hsub).
    destruct (IH (a :: seen)) as (Hnd' & Hin' & Hsub').
    case_bool_decide as Ha.
    + split; [exact Hnd |]. split; [| now apply sublist_cons].
      intros x. rewrite Hin, elem_of_cons. split; [tauto |].
      intros [[-> | Hx] Hns]; [contradiction | tauto].
    + split; [| split; [| now apply sublist_skip]].
      * apply NoDup_cons. split; [| exact Hnd'].
        rewrite Hin', not_elem_of_cons. tauto.
      * intros x. rewrite !elem_of_cons, Hin', not_elem_of_cons.
        destruct (decide (x = a)) as [-> | Hne]; tauto.
Qed.

(** The loop with [seen] and [unique_items] computes the first occurrences
    of the trimmed items that it lets through. *)
Lemma dedupe_fold (l : list string) (seen : gset string) (acc seenl : list string) :
  (forall x, x ∈ seen <-> x ∈ seenl) ->
  (fold_left dedupe_step l (seen, acc)).2 =
  acc ++ first_occurrences seenl (List.filter keeps (map strip l)).
Proof.
  revert seen acc seenl. induction l as [| a l IH]; intros seen acc seenl H; simpl.
  - now rewrite app_nil_r.
  - unfold dedupe_step at 2. simpl. unfold keeps at 1.
    destruct (strip a =? "")%string eqn:He; simpl; [now apply IH |].
    destruct (1 <? len (strip a))%nat eqn:Hl; simpl.
    + rewrite (bool_decide_ext _ _ (H (strip a))). case_bool_decide as Hs; simpl.
      * now apply IH.
      * rewrite (IH _ _ (strip a :: seenl)).
        -- now rewrite <- app_assoc.
        -- intros x. rewrite elem_of_union, elem_of_singleton, elem_of_cons, H. tauto.
    + rewrite andb_false_r. now apply IH.
Qed.

Lemma dedupe_first_occurrences (l : list string) :
  dedupe l = first_occurrences [] (List.filter keeps (map strip l)).
Proof.
  unfold dedupe. rewrite (dedupe_fold l ∅ [] []); [reflexivity |].
  intros x. rewrite elem_of_nil. split; [apply not_elem_of_empty | tauto].
Qed.

Lemma dict_fromkeys_fold (l acc seenl : list string) :
  (forall x, x ∈ acc <-> x ∈ seenl) ->
  fold_left (fun keys x => if bool_decide (x ∈ keys) then keys else keys ++ [x]) l acc
  = acc ++ first_occurrences seenl l.
Proof.
  revert acc seenl. induction l as [| a l IH]; intros acc seenl H; simpl.
  - now rewrite app_nil_r.
  - rewrite (bool_decide_ext _ _ (H a)). case_bool_decide as Ha.
    + now apply IH.
    + rewrite (IH _ (a :: seenl)).
      * now rewrite <- app_assoc.
      * intros x. rewrite elem_of_app, list_elem_of_singleton, elem_of_cons, H. tauto.
Qed.

Lemma dict_fromkeys_first_occurrences (l : list string) :
  dict_fromkeys l = first_occurrences [] l.
Proof. unfold dict_fromkeys. now rewrite (dict_fromkeys_fold l [] []). Qed.


Lemma dict_fromkeys_elem (l : list string) (x : string) :
  x ∈ dict_fromkeys l <-> x ∈ l.
Proof.
  rewrite dict_fromkeys_first_occurrences.
  destruct (first_occurrences_spec l []) as (_ & H & _). rewrite H.
  split; [tauto |]. intros Hx. split; [exact Hx | apply not_elem_of_nil].
Qed.

Lemma list_filter_sublist {A : Type} (f : A -> bool) (l : list A) :
  List.filter f l `sublist_of` l.
Proof.
  induction l as [| a l IH]; simpl; [constructor |].
  destruct (f a); [now apply sublist_skip | now apply sublist_cons].
Qed.

Lemma elem_of_list_filter {A : Type} (f : A -> bool) (l : list A) (x : A) :
  x ∈ List.filter f l <-> x ∈ l /\ f x = true.
Proof. rewrite !list_elem_of_In. apply filter_In. Qed.

Lemma keeps_len (x : string) : keeps x = true -> 2 <= len x.
Proof.
  unfold keeps. rewrite andb_true_iff, Nat.ltb_lt. lia.
Qed.

(** The shape of every list that the item extractor returns. *)
Lemma capped_dedupe_spec (raw : list string) :
  let out := take 50 (dedupe raw) in
  out = take 50 (first_occurrences [] (List.filter keeps (map strip raw)))
  /\ List.length out <= 50
  /\ NoDup out
  /\ (forall x, x ∈ out -> 2 <= len x)
  /\ out `sublist_of` map strip raw.
Proof.
  simpl. rewrite dedupe_first_occurrences.
  set (clean := List.filter keeps (map strip raw)).
  destruct (first_occurrences_spec clean []) as (Hnd & Hin & Hsub).
  split; [reflexivity |]. split; [| split; [| split]].
  - rewrite length_take. lia.
  - eapply sublist_NoDup; [exact Hnd | apply sublist_take].
  - intros x Hx. apply keeps_len.
    assert (Hc : x ∈ clean).
    { apply Hin. eapply elem_of_sublist; [exact Hx | apply sublist_take]. }
    now apply elem_of_list_filter in Hc.
  - etransitivity; [apply sublist_take |].
    etransitivity; [exact Hsub |]. apply list_filter_sublist.
Qed.

End DedupeFacts.

(* ===================================================================== *)
(** ** The sections of a record *)
(* ===================================================================== *)

Section SpecialSectionFacts.
Import Text Regex Firecrawl.

Lemma amenity_pattern_fold (pats : list string) (st : list string * string)
  (x : string) :
  x ∈ (fold_left amenity_pattern_step pats st).1 -> x ∈ st.1 \/ x ∈ pats.
Proof.
  revert st. induction pats as [| p pats IH]; intros st; simpl; [tauto |].
  intros H. apply IH in H as [H | H]; [| right; now apply list_elem_of_further].
  unfold amenity_pattern_step in H. destruct (contains p st.2); simpl in H.
  - apply elem_of_app in H as [H | H]; [now left |].
    apply list_elem_of_singleton in H as ->. right. apply list_elem_of_here.
  - now left.
Qed.

Lemma amenity_word_fold (ws : list string) (its : list string) (x : string) :
  x ∈ fold_left amenity_word_step ws its -> x ∈ its \/ x ∈ known_single.
Proof.
  revert its. induction ws as [| w ws IH]; intros its; simpl; [tauto |].
  intros H. apply IH in H as [H | H]; [| now right].
  unfold amenity_word_step in H.
  case_bool_decide as Hw; simpl in H; [| now left].
  destruct (negb _); [| now left].
  apply elem_of_app in H as [H | H]; [now left |].
  apply list_elem_of_singleton in H as ->. now right.
Qed.



Lemma amenities_section_spec (ls : list string) (s : PreSection) :
  s ∈ amenities_section ls ->
  original_name s = "amenities" /\ exists line, items s = amenity_items line.
Proof.
  induction ls as [| line rest IH]; [intros H; now apply elem_of_nil in H |].
  cbn [amenities_section].
  destruct (3 <=? count_keywords amenities_keywords line)%nat; [| exact IH].
  destruct (3 <=? List.length (amenity_items line))%nat; [| exact IH].
  intros H. apply list_elem_of_singleton in H as ->. split; [reflexivity | eauto].
Qed.

Lemma bills_section_spec (ls : list string) (s : PreSection) :
  s ∈ bills_section ls ->
  original_name s = "bills_included" /\ exists line, items s = bill_items line.
Proof.
  induction ls as [| line rest IH]; [intros H; now apply elem_of_nil in H |].
  cbn [bills_section].
  destruct (3 <=? count_keywords bills_patterns line)%nat; [| exact IH].
  destruct (3 <=? List.length (bill_items line))%nat; [| exact IH].
  intros H. apply list_elem_of_singleton in H as ->. split; [reflexivity | eauto].
Qed.

Lemma faqs_section_spec (txt : string) (s : PreSection) :
  s ∈ faqs_section txt ->
  original_name s = "faqs" /\ exists l, items s = dict_fromkeys l.
Proof.
  unfold faqs_section. destruct (re_search faq_region_re txt) as [m |];
    [| intros H; now apply elem_of_nil in H].
  set (qs := re_findall1 faq_heading_re _ ++ _).
  destruct (dict_fromkeys qs) eqn:E; [intros H; now apply elem_of_nil in H |].
  intros H. apply list_elem_of_singleton in H as ->. simpl. rewrite <- E. eauto.
Qed.

Lemma dash_region_section_spec (region : re) (name display txt : string)
  (s : PreSection) :
  s ∈ dash_region_section region name display txt -> original_name s = name.
Proof.
  unfold dash_region_section. destruct (re_search region txt) as [m |];
    [| intros H; now apply elem_of_nil in H].
  destruct (re_findall1 dash_line_re _);
    [intros H; now apply elem_of_nil in H |].
  intros H. now apply list_elem_of_singleton in H as ->.
Qed.

End SpecialSectionFacts.

Section EngineFacts.
Import Text Regex Firecrawl.

Variable bullets : string -> list string.
Variable order : list string -> list string.



Lemma room_types_section_spec (txt : string) (s : PreSection) :
  s ∈ room_types_section order txt ->
  original_name s = "room_types" /\ exists l, items s = order l.
Proof.
  unfold room_types_section. destruct (re_findall1 room_re txt) as [| r rs] eqn:E;
    [intros H; now apply elem_of_nil in H |].
  destruct (order (r :: rs)) eqn:Eo; [intros H; now apply elem_of_nil in H |].
  intros H. apply list_elem_of_singleton in H as ->.
  split; [reflexivity |]. exists (r :: rs). now rewrite Eo.
Qed.

(** Where a keyword-density section can come from. *)
Lemma special_sections_spec (txt : string) (s : PreSection) :
  s ∈ _extract_special_sections order txt ->
  (original_name s = "amenities" /\ exists line, items s = amenity_items line)
  \/ (original_name s = "bills_included" /\ exists line, items s = bill_items line)
  \/ (original_name s = "faqs" /\ exists l, items s = dict_fromkeys l)
  \/ (original_name s = "room_types" /\ exists l, items s = order l)
  \/ original_name s = "payment"
  \/ original_name s = "cancellation"
  \/ original_name s = "offers".
Proof.
  unfold _extract_special_sections. rewrite !elem_of_app.
  intros [H | [H | [H | [H | [H | [H | H]]]]]].
  - left. now apply amenities_section_spec in H.
  - right; left. now apply bills_section_spec in H.
  - do 2 right; left. now apply faqs_section_spec in H.
  - do 3 right; left. now apply room_types_section_spec in H.
  - do 4 right; left. now apply dash_region_section_spec in H.
  - do 5 right; left. now apply dash_region_section_spec in H.
  - do 6 right. now apply dash_region_section_spec in H.
Qed.

(** *** The cascade of the item extractor *)

(** Patterns 1 to 3 in closed form: the bullet items [b] alone when there
    are three of them; otherwise with the space-separated items [sp] added;
    and, when these are still fewer than three, with the first twenty short
    lines [sh] added, provided there are three short lines. *)
Definition general_items (b sp sh : list string) : list string :=
  if (3 <=? List.length b)%nat then b
  else if (3 <=? List.length (b ++ sp))%nat then b ++ sp
  else if (3 <=? List.length sh)%nat then b ++ sp ++ take 20 sh
  else b ++ sp.

(** Patterns 4 and 5: the matches of the regular expression of the section
    name, whatever patterns 1 to 3 gave. *)
Definition named_items (content section_name : string) : list string :=
  (if contains "faq" (lower section_name) || contains "question" (lower section_name)
   then re_findall1 faq_heading_re content else [])
  ++ (if contains "room" (lower section_name)
      then order (re_findall1 room_re content) else []).

Lemma collected_items_cascade (content section_name : string) :
  collected_items bullets order content section_name =
  general_items (bullets content) (space_separated_items content)
                (short_lines content)
  ++ named_items content section_name.
Proof.
  unfold collected_items, general_items, named_items. cbv zeta.
  change ([] ++ bullets content) with (bullets content).
  set (b := bullets content). set (sp := space_separated_items content).
  set (sh := short_lines content).
  set (fq := contains "faq" _ || contains "question" _).
  set (rm := contains "room" _).
  destruct (List.length b <? 3)%nat eqn:Hb;
    destruct (3 <=? List.length b)%nat eqn:Hb';
    try (apply Nat.ltb_lt in Hb; apply Nat.leb_le in Hb'; lia);
    try (apply Nat.ltb_ge in Hb; apply Nat.leb_gt in Hb'; lia).
  - destruct (List.length (b ++ sp) <? 3)%nat eqn:Hs;
      destruct (3 <=? List.length (b ++ sp))%nat eqn:Hs';
      try (apply Nat.ltb_lt in Hs; apply Nat.leb_le in Hs'; lia);
      try (apply Nat.ltb_ge in Hs; apply Nat.leb_gt in Hs'; lia).
    + destruct (3 <=? List.length sh)%nat; destruct fq, rm;
        rewrite <- ?app_assoc, ?app_nil_r; reflexivity.
    + destruct fq, rm; rewrite <- ?app_assoc, ?app_nil_r; reflexivity.
  - rewrite Hb. destruct fq, rm; rewrite <- ?app_assoc, ?app_nil_r; reflexivity.
Qed.

End EngineFacts.

(* ===================================================================== *)
(** ** Claims about the section engine *)
(* ===================================================================== *)

Section EngineClaims.
Import Text Regex Firecrawl.

Variable bullets : string -> list string.
Variable order : list string -> list string.

(** C2, as amended.  The item extractor collects items cumulatively:
    pattern 1 (bullets) always runs; pattern 2 (splitting on runs of two or
    more blanks) runs only while fewer than three items have been collected
    and adds to them; pattern 3 (short lines) runs only while there are still
    fewer than three and adds up to twenty short lines when there are at
    least three of them.  The patterns tied to the section name (question
    headings for a name with "faq" or "question", bed/bath patterns for a name
    with "room") run whatever was collected and add their matches.  The
    result is the first fifty first occurrences of the trimmed items longer
    than one character.  For a section name without "faq", "question" and
    "room", nothing is added after patterns 1 to 3. *)
Theorem item_cascade_accumulates (content section_name : string) :
  let b := bullets content in
  let sp := space_separated_items content in
  let sh := short_lines content in
  let gen := general_items b sp sh in
  let extra := named_items order content section_name in
  _extract_items_from_firecrawl_content bullets order content section_name
  = take 50 (first_occurrences [] (List.filter keeps (map strip (gen ++ extra))))
  /\ (3 <= List.length b -> gen = b)
  /\ (List.length b < 3 -> 3 <= List.length (b ++ sp) -> gen = b ++ sp)
  /\ (List.length (b ++ sp) < 3 -> 3 <= List.length sh ->
      gen = b ++ sp ++ take 20 sh)
  /\ (List.length (b ++ sp) < 3 -> List.length sh < 3 -> gen = b ++ sp)
  /\ (contains "faq" (lower section_name) = false ->
      contains "question" (lower section_name) = false ->
      contains "room" (lower section_name) = false ->
      extra = []).
Proof.
  cbv zeta. split; [| split; [| split; [| split; [| split]]]].
  - unfold _extract_items_from_firecrawl_content.
    now rewrite dedupe_first_occurrences, collected_items_cascade.
  - intros H. unfold general_items.
    apply Nat.leb_le in H. now rewrite H.
  - intros H1 H2. unfold general_items.
    apply Nat.leb_gt in H1. apply Nat.leb_le in H2. now rewrite H1, H2.
  - intros H1 H2. unfold general_items.
    assert (H0 : List.length (bullets content) < 3).
    { rewrite length_app in H1. lia. }
    apply Nat.leb_gt in H0, H1. apply Nat.leb_le in H2. now rewrite H0, H1, H2.
  - intros H1 H2. unfold general_items.
    assert (H0 : List.length (bullets content) < 3).
    { rewrite length_app in H1. lia. }
    apply Nat.leb_gt in H0, H1, H2. now rewrite H0, H1, H2.
  - intros H1 H2 H3. unfold named_items. now rewrite H1, H2, H3.
Qed.

End EngineClaims.

Section EngineExamples.
Import Text Regex Firecrawl.

(** A counterexample to C2 as stated: three bullet items are found by the
    first strategy, and the question heading is added all the same. *)
Lemma item_cascade_counterexample :
  let content := join nl ["- Gym"; "- Pool"; "- Sauna"; "### Is parking free?"] in
  dash_bullets content = ["Gym"; "Pool"; "Sauna"]
  /\ _extract_items_from_firecrawl_content dash_bullets first_seen_order content "faqs"
     = ["Gym"; "Pool"; "Sauna"; "Is parking free?"].
Proof. cbv zeta. split; vm_compute; reflexivity. Qed.

Lemma item_cascade_witness :
  let content := join nl ["- Gym"; "- Pool"; "- Sauna"; "Open daily"] in
  _extract_items_from_firecrawl_content dash_bullets first_seen_order content "amenities"
  = take 50 (first_occurrences [] (List.filter keeps (map strip (dash_bullets content)))).
Proof.
  cbv zeta.
  destruct (item_cascade_accumulates dash_bullets first_seen_order
              (join nl ["- Gym"; "- Pool"; "- Sauna"; "Open daily"]) "amenities")
    as (Hall & Hb & _ & _ & _ & Hextra).
  rewrite Hall, Hb, Hextra.
  - now rewrite app_nil_r.
  - vm_compute; reflexivity.
  - vm_compute; reflexivity.
  - vm_compute; reflexivity.
  - vm_compute; lia.
Defined.

End EngineExamples.

Section MergeClaim.
Import Text Firecrawl.

(** C7.  For every sequence of candidate sections the merge returns, without
    raising, a list with exactly one section per name that occurs among the
    candidates: the winner for that name.  The winner is the first candidate
    of that name, replaced by a later candidate of the same name if and only
    if that candidate has strictly more items than the winner it meets; a
    candidate with as many or fewer items, or of another name, changes
    nothing. *)
Theorem merge_keeps_one_winner (cands : list PreSection) :
  exists merged,
    merge_sections cands = Some merged
    /\ NoDup (map original_name merged)
    /\ (forall s, s ∈ merged -> s ∈ cands)
    /\ (forall name, find (named name) merged = winner name cands)
    /\ (forall name c, original_name c = name -> winner name cands = None ->
        winner name (cands ++ [c]) = Some c)
    /\ (forall name c w, original_name c = name -> winner name cands = Some w ->
        winner name (cands ++ [c])
        = Some (if (List.length (items w) <? List.length (items c))%nat then c else w))
    /\ (forall name c, original_name c <> name ->
        winner name (cands ++ [c]) = winner name cands).
Proof.
  destruct (merge_sections_total cands) as (merged & Hm & Hnd & Hwin).
  exists merged. split; [exact Hm |]. split; [exact Hnd |].
  split; [intros s; now apply merged_is_candidate |].
  split; [exact Hwin |]. split; [| split].
  - intros name c Hn Hw. rewrite winner_snoc, Hw. unfold challenge.
    apply named_true in Hn. now rewrite Hn.
  - intros name c w Hn Hw. rewrite winner_snoc, Hw. unfold challenge.
    apply named_true in Hn. rewrite Hn.
    now destruct (List.length (items w) <? List.length (items c))%nat.
  - intros name c Hn. rewrite winner_snoc. unfold challenge.
    apply named_false in Hn. now rewrite Hn.
Qed.

Lemma merge_keeps_one_winner_witness :
  let a := mkPreSection "faqs" "FAQ" "Is it open?" ["Is it open?"] in
  let b := mkPreSection "faqs" "FAQs" "Is it open? Is it big?"
                        ["Is it open?"; "Is it big?"] in
  let c := mkPreSection "faqs" "Questions" "Why? How?" ["Why?"; "How?"] in
  winner "faqs" ([a; b] ++ [c]) = Some b /\ merge_sections [a; b; c] = Some [b].
Proof.
  cbv zeta. split; [| vm_compute; reflexivity].
  destruct (merge_keeps_one_winner
              [mkPreSection "faqs" "FAQ" "Is it open?" ["Is it open?"];
               mkPreSection "faqs" "FAQs" "Is it open? Is it big?"
                            ["Is it open?"; "Is it big?"]])
    as (merged & _ & _ & _ & _ & _ & Hkeep & _).
  apply (Hkeep "faqs"
           (mkPreSection "faqs" "Questions" "Why? How?" ["Why?"; "How?"])
           (mkPreSection "faqs" "FAQs" "Is it open? Is it big?"
                         ["Is it open?"; "Is it big?"]));
    reflexivity.
Defined.

End MergeClaim.

(* ===================================================================== *)
(** ** Section names *)
(* ===================================================================== *)

Section DeleteFacts.
Import Text Regex.

Variable p : ascii -> bool.

(** Deleting the matches of a one-character class: [kept] holds the
    characters passed over since the last match. *)
Lemma delete_class_pieces (post pre kept : list ascii) :
  List.length kept <= List.length pre ->
  concat (pieces (kept ++ post) (List.length pre - List.length kept)
                 (finditer_from (Sym p) 0 pre post))
  = kept ++ List.filter (fun c => negb (p c)) post.
Proof.
  revert pre kept. induction post as [| c t IH]; intros pre kept Hk.
  - cbn. now rewrite !app_nil_r.
  - cbn [finditer_from]. unfold match_here. cbn [run after before groups].
    destruct (p c) eqn:Hc; cbn [List.filter negb]; rewrite Hc; cbn [negb].
    + cbn [m_start m_end pieces before List.length].
      replace (S (List.length pre) - List.length pre - 1) with 0 by lia.
      replace (List.length pre - (List.length pre - List.length kept))
        with (List.length kept) by lia.
      replace (S (List.length pre) - (List.length pre - List.length kept))
        with (List.length kept + 1) by lia.
      rewrite take_app_length, drop_app_add.
      cbn [drop concat]. f_equal.
      specialize (IH (c :: pre) []). cbn [List.length app] in IH.
      rewrite Nat.sub_0_r in IH. apply IH. lia.
    + specialize (IH (c :: pre) (kept ++ [c])).
      rewrite <- !app_assoc in IH. cbn [app] in IH.
      rewrite length_app in IH. cbn [List.length] in IH.
      replace (S (List.length pre) - (List.length kept + 1))
        with (List.length pre - List.length kept) in IH by lia.
      apply IH. lia.
Qed.

Lemma re_delete_class (s : string) :
  re_delete (Sym p) s = text (List.filter (fun c => negb (p c)) (chars s)).
Proof.
  unfold re_delete, re_finditer. f_equal.
  apply (delete_class_pieces (chars s) [] []). reflexivity.
Qed.

End DeleteFacts.

Section SlugClaim.
Import Text Regex Firecrawl.

(** Slugifying keeps the word characters and the blanks, and writes an
    underscore for each space. *)
Lemma slugify_spec (heading_lower : string) :
  slugify heading_lower =
  text (map (fun c => if ascii_eqb c " " then "_"%char else c)
            (List.filter (fun c => is_word c || is_space c) (chars heading_lower))).
Proof.
  unfold slugify, replace_char. rewrite re_delete_class, chars_text.
  do 2 f_equal. apply filter_ext. intros c. apply negb_involutive.
Qed.

(** A keyword group fires when the lowered heading holds one of its
    keywords, or, for the combined group, all of them. *)
Inductive trigger : Type :=
| AnyOf (kws : list string)
| AllOf (kws : list string).

Definition fires (t : trigger) (heading_lower : string) : bool :=
  match t with
  | AnyOf kws => existsb (fun kw => contains kw heading_lower) kws
  | AllOf kws => forallb (fun kw => contains kw heading_lower) kws
  end.

(** The keyword groups in priority order, each with the name it gives. *)
Definition keyword_groups : list (trigger * string) :=
  [ (AnyOf ["amenities"; "amenity"], "amenities");
    (AnyOf ["room types"; "room type"], "room_types");
    (AnyOf ["pricing"; "price"; "fees"], "pricing");
    (AnyOf ["faq"; "question"], "faqs");
    (AnyOf ["about"; "overview"], "about");
    (AnyOf ["location"; "commute"], "location");
    (AnyOf ["nearby"; "surrounding"], "nearby_places");
    (AnyOf ["features"], "features");
    (AllOf ["bills"; "payment"], "bills_and_payments");
    (AnyOf ["bills"], "bills_included");
    (AnyOf ["payment"; "policies"], "payment");
    (AnyOf ["cancellation"], "cancellation");
    (AnyOf ["offer"; "deal"; "promotion"], "offers");
    (AnyOf ["review"; "rating"], "reviews");
    (AnyOf ["contact"; "support"], "contact") ].

(** The 21 names of the canonical taxonomy. *)
Definition canonical_taxonomy : list string :=
  ["hero_media"; "property_overview"; "address_core_details"; "room_types";
   "pricing"; "offers_deals"; "amenities"; "bills_included";
   "location_transport"; "nearby_places"; "payment_options"; "booking_process";
   "cancellation_policies"; "trust_badges"; "faqs"; "reviews_ratings";
   "contact_support"; "similar_properties"; "highlights"; "safety_security";
   "company_info"].

Definition first_group (heading_lower : string) : option (trigger * string) :=
  find (fun g => fires g.1 heading_lower) keyword_groups.

(** C1, as amended.  The name inferred for a heading is the name of the
    first keyword group, in the order of the table, that fires on the lowered
    heading; the groups are those of the table, with the feature group between
    the nearby and the bills groups, and the names are the parser's own short
    ones (about, location, payment, cancellation, offers, reviews, contact),
    of which only amenities, room_types, pricing, faqs, nearby_places and
    bills_included belong to the canonical taxonomy.  A heading on which no
    group fires is slugified: of its lowered characters the word characters
    and the blanks are kept, and each space becomes an underscore. *)
Theorem infer_section_name_first_group (heading : string) :
  _infer_section_name heading =
    match first_group (lower heading) with
    | Some g => g.2
    | None => slugify (lower heading)
    end
  /\ slugify (lower heading)
     = text (map (fun c => if ascii_eqb c " " then "_"%char else c)
                 (List.filter (fun c => is_word c || is_space c)
                              (map lower_char (chars heading))))
  /\ List.filter (fun name => bool_decide (name ∈ canonical_taxonomy))
                 (map snd keyword_groups)
     = ["amenities"; "room_types"; "pricing"; "faqs"; "nearby_places"; "bills_included"].
Proof.
  split; [| split; [| vm_compute; reflexivity]].
  2:{ rewrite slugify_spec. unfold lower. now rewrite chars_text. }
  unfold _infer_section_name, first_group, keyword_groups. cbv zeta.
  set (h := lower heading).
  cbn [find fires existsb forallb fst snd].
  repeat match goal with
         | |- context [contains ?k h] =>
             destruct (contains k h); cbn [orb andb]; try reflexivity
         end.
Qed.

(** A counterexample to C1 as stated: a heading with an about term is named
    [about], which is not the taxonomy's [property_overview] and not in the
    taxonomy at all. *)
Lemma infer_section_name_counterexample :
  contains "about" (lower "About the property") = true
  /\ first_group (lower "About the property")
     = Some (AnyOf ["about"; "overview"], "about")
  /\ _infer_section_name "About the property" = "about"
  /\ "about" <> "property_overview"
  /\ "about" ∉ canonical_taxonomy.
Proof.
  split; [vm_compute; reflexivity |]. split; [vm_compute; reflexivity |].
  split; [vm_compute; reflexivity |]. split; [discriminate |].
  intros H. apply list_elem_of_In in H. vm_compute in H.
  repeat (destruct H as [H | H]; [discriminate |]). exact H.
Qed.

End SlugClaim.

(* ===================================================================== *)
(** ** The property name *)
(* ===================================================================== *)

Section NameFacts.
Import Text Regex Firecrawl.

Lemma text_app (a b : list ascii) : text (a ++ b) = text a +:+ text b.
Proof.
  unfold text. induction a as [| c a IH]; simpl; [reflexivity |].
  now rewrite IH.
Qed.

(** The first piece that [str.split] returns for a separator that occurs is
    the text before the first occurrence. *)
Lemma split_str_aux_first (sep l cur : list ascii) :
  sep <> [] -> has_infix sep l = true ->
  exists p rest tail,
    split_str_aux sep 0 cur l = (rev cur ++ p) :: tail
    /\ l = p ++ sep ++ rest
    /\ (forall q r, l = q ++ sep ++ r -> List.length p <= List.length q).
Proof.
  intros Hsep. revert cur. induction l as [| c t IH]; intros cur Hin.
  - simpl in Hin. rewrite orb_false_r in Hin.
    destruct sep; [contradiction | discriminate].
  - change (has_infix sep (c :: t))
      with (is_prefix sep (c :: t) || has_infix sep t) in Hin.
    cbn [split_str_aux]. destruct (is_prefix sep (c :: t)) eqn:Hp.
    + apply is_prefix_spec in Hp as [rest Hrest].
      exists [], rest. eexists. split; [now rewrite app_nil_r |].
      split; [exact Hrest |]. intros q r _. simpl. lia.
    + simpl in Hin. destruct (IH (c :: cur) Hin) as (p & rest & tail & H1 & H2 & H3).
      exists (c :: p), rest, tail. split; [| split].
      * rewrite H1. simpl. now rewrite <- app_assoc.
      * simpl. now rewrite H2.
      * intros q r Hq. destruct q as [| c' q].
        -- exfalso. assert (Ht : is_prefix sep (c :: t) = true)
             by (apply is_prefix_spec; now exists r).
           congruence.
        -- injection Hq as _ Hq. apply H3 in Hq. simpl. lia.
Qed.

Lemma split_str_first (sep s : string) :
  sep <> "" -> contains sep s = true ->
  exists p rest tail,
    split_str sep s = p :: tail
    /\ s = p +:+ sep +:+ rest
    /\ (forall q r, s = q +:+ sep +:+ r -> len p <= len q).
Proof.
  intros Hsep Hin. unfold contains in Hin.
  assert (Hsep' : chars sep <> []).
  { intros H. apply Hsep. rewrite <- (text_chars sep). now rewrite H. }
  destruct (split_str_aux_first (chars sep) (chars s) [] Hsep' Hin)
    as (p & rest & tail & H1 & H2 & H3).
  exists (text p), (text rest), (map text tail). split; [| split].
  - unfold split_str. now rewrite H1.
  - rewrite <- (text_chars s), H2, !text_app. now rewrite text_chars.
  - intros q r Hq. rewrite !len_chars, chars_text. apply (H3 (chars q) (chars r)).
    now rewrite Hq, !chars_append.
Qed.

Lemma contains_prefix (a b s : string) :
  contains (a +:+ b) s = true -> contains a s = true.
Proof.
  unfold contains. rewrite chars_append, !has_infix_spec.
  intros (q & r & H). exists q, (chars b ++ r). now rewrite H, <- app_assoc.
Qed.

Lemma alt_text_has_separator (fb : string) :
  looks_like_alt_text fb = true -> contains " - " fb = true.
Proof.
  unfold looks_like_alt_text. rewrite !orb_true_iff.
  intros [[H | H] | H].
  - now apply (contains_prefix " - " "Bedroom").
  - now apply (contains_prefix " - " "Amenities").
  - now apply (contains_prefix " - " "Kitchen").
Qed.

Lemma name_like_spec (c : string) :
  name_like c = true <->
  4 <= len c <= 79
  /\ contains "Overview" c = false
  /\ contains "Bedroom" c = false
  /\ contains "Amenities" c = false.
Proof.
  unfold name_like. rewrite !andb_true_iff, !negb_true_iff, Nat.ltb_lt, Nat.ltb_lt.
  split; [intros [[[[? ?] ?] ?] ?] | intros [[? ?] [? [? ?]]]];
    repeat split; (lia || assumption).
Qed.

Lemma heading_candidate_name_like (line c : string) :
  heading_candidate line = Some c -> name_like c = true.
Proof.
  unfold heading_candidate. destruct (re_match heading_re (strip line)); [| discriminate].
  destruct (name_like _) eqn:E; [| discriminate]. now intros [= <-].
Qed.

Lemma first_heading_at (ls : list string) (i : nat) (line c : string) :
  ls !! i = Some line ->
  heading_candidate line = Some c ->
  (forall j l', j < i -> ls !! j = Some l' -> heading_candidate l' = None) ->
  first_heading ls = Some c.
Proof.
  revert i. induction ls as [| a ls IH]; intros i Hi Hc Hbefore; [discriminate |].
  cbn [first_heading]. destruct i as [| i].
  - injection Hi as ->. now rewrite Hc.
  - rewrite (Hbefore 0 a); [| lia | reflexivity].
    apply (IH i); [exact Hi | exact Hc |].
    intros j l' Hj Hl'. apply (Hbefore (S j) l'); [lia | exact Hl'].
Qed.

Lemma first_heading_none (ls : list string) :
  (forall i line, ls !! i = Some line -> heading_candidate line = None) ->
  first_heading ls = None.
Proof.
  induction ls as [| a ls IH]; intros H; [reflexivity |].
  cbn [first_heading]. rewrite (H 0 a); [| reflexivity].
  apply IH. intros i line Hi. now apply (H (S i)).
Qed.

(** C4, as amended.  Without a candidate, or with an empty one, the name is
    "Unknown Property".  A candidate that holds " - Bedroom", " - Amenities"
    or " - Kitchen" is set aside: the name is the captured text of the first
    heading among the first 20 lines whose captured text has between 4 and 79
    characters and holds none of Overview, Bedroom and Amenities; and if
    there is no such heading, it is the part of the candidate before its
    first " - ", with the blanks at both ends removed. *)
Theorem real_property_name_resolution (txt : string) :
  _extract_real_property_name txt None = "Unknown Property"
  /\ _extract_real_property_name txt (Some "") = "Unknown Property"
  /\ forall fb, fb <> "" -> looks_like_alt_text fb = true ->
     (forall i line c,
         i < 20 -> lines txt !! i = Some line -> heading_candidate line = Some c ->
         (forall j l', j < i -> lines txt !! j = Some l' -> heading_candidate l' = None) ->
         _extract_real_property_name txt (Some fb) = c
         /\ 4 <= len c <= 79
         /\ contains "Overview" c = false
         /\ contains "Bedroom" c = false
         /\ contains "Amenities" c = false)
     /\ ((forall i line,
            i < 20 -> lines txt !! i = Some line -> heading_candidate line = None) ->
         exists p rest,
           fb = p +:+ " - " +:+ rest
           /\ (forall q r, fb = q +:+ " - " +:+ r -> len p <= len q)
           /\ _extract_real_property_name txt (Some fb) = strip p).
Proof.
  split; [reflexivity |]. split; [reflexivity |].
  intros fb Hne Halt.
  assert (Hguard : negb (fb =? "")%string && looks_like_alt_text fb = true).
  { rewrite Halt, andb_true_r. apply negb_true_iff. now apply String.eqb_neq. }
  split.
  - intros i line c Hi Hline Hc Hbefore.
    split; [| now apply name_like_spec, (heading_candidate_name_like line)].
    unfold _extract_real_property_name. rewrite Hguard.
    rewrite (first_heading_at (take 20 (lines txt)) i line c); [reflexivity | | exact Hc |].
    + now rewrite lookup_take_lt.
    + intros j l' Hj Hl'. apply lookup_take_Some in Hl' as [Hl' _]. eauto.
  - intros Hnone.
    destruct (split_str_first " - " fb) as (p & rest & tail & H1 & H2 & H3);
      [discriminate | now apply alt_text_has_separator |].
    exists p, rest. split; [exact H2 |]. split; [exact H3 |].
    unfold _extract_real_property_name. rewrite Hguard.
    rewrite first_heading_none; [now rewrite H1 |].
    intros i line Hl. apply lookup_take_Some in Hl as [Hl Hi]. eauto.
Qed.

(** The example of the contract: the alt text of an image as candidate, and
    the heading of the listing in the body. *)
Lemma real_property_name_witness :
  _extract_real_property_name
    (join nl ["Home"; "## 1Ten On Whyte - Student Living"; "Edmonton"])
    (Some "1Ten on Whyte, Edmonton - Edmonton, Canada - 1 Bed 1 Bath - Bedroom")
  = "1Ten On Whyte - Student Living".
Proof.
  destruct (real_property_name_resolution
              (join nl ["Home"; "## 1Ten On Whyte - Student Living"; "Edmonton"]))
    as (_ & _ & H).
  destruct (H "1Ten on Whyte, Edmonton - Edmonton, Canada - 1 Bed 1 Bath - Bedroom")
    as (Hfirst & _); [discriminate | vm_compute; reflexivity |].
  apply (Hfirst 1 "## 1Ten On Whyte - Student Living").
  - lia.
  - vm_compute; reflexivity.
  - vm_compute; reflexivity.
  - intros j l' Hj Hl'. destruct j as [| j]; [| lia].
    vm_compute in Hl'. injection Hl' as <-. vm_compute; reflexivity.
Defined.

(** A counterexample to C4 as stated: no heading qualifies, and the name is
    not the part of the candidate before its first " - " (which ends in a
    blank) but that part without the blank. *)
Lemma real_property_name_counterexample :
  let fb := "Sunny Loft  - Kitchen" in
  looks_like_alt_text fb = true
  /\ first_heading (take 20 (lines "Welcome")) = None
  /\ fb = "Sunny Loft " +:+ " - " +:+ "Kitchen"
  /\ contains " - " "Sunny Loft  -" = false
  /\ _extract_real_property_name "Welcome" (Some fb) = "Sunny Loft"
  /\ "Sunny Loft" <> "Sunny Loft ".
Proof.
  cbv zeta. repeat split; try (vm_compute; reflexivity). discriminate.
Qed.

End NameFacts.

(* ===================================================================== *)
(** ** Location resolution *)
(* ===================================================================== *)

Section LocationClaim.
Import Text Py Parsers.

(** The address fields in their order of preference; a field with two keys
    takes the first of them that holds a true value. *)
Definition location_fields : list (list string) :=
  [["name"]; ["address"]; ["street"]; ["city"]; ["state"; "region"];
   ["country"]; ["postal_code"; "zip_code"]].

Definition field_text (location_data : pydict) (keys : list string) : option string :=
  match find truthy (map (get location_data) keys) with
  | Some v => Some (py_str v)
  | None => None
  end.

(** The single-key fallbacks, in order. *)
Definition fallback_keys : list string := ["formatted_address"; "display_name"; "label"].

Lemma location_parts_fields (ld : pydict) :
  location_parts ld = omap (field_text ld) location_fields.
Proof.
  unfold location_parts, location_fields, field_text, por. cbv zeta.
  cbn [omap list_omap map find].
  repeat match goal with
         | |- context [truthy (get ld ?k)] => destruct (truthy (get ld k)); cbn [orb app]
         end; reflexivity.
Qed.

(** C6, as amended.  For a location given as an object, the resolved
    location is the comma-join of the texts of its fields that hold a true
    value, in the order name, address, street, city, state (else region),
    country, postal_code (else zip_code).  When none of these holds a true
    value it is, in this order, the formatted_address, the display_name, the
    label, or the latitude and longitude joined by a comma; and when none of
    those is there either, it is the printed form of the object itself.  The
    location is absent only for an empty object. *)
Theorem location_of_object (ld : pydict) :
  let parts := omap (field_text ld) location_fields in
  location_of_dict ld =
    match parts with
    | _ :: _ => join ", " parts
    | [] =>
        match find truthy (map (get ld) fallback_keys) with
        | Some v => py_str v
        | None =>
            if truthy (get ld "lat") && truthy (get ld "lng")
            then py_str (get ld "lat") +:+ ", " +:+ py_str (get ld "lng")
            else py_str (PDict ld)
        end
    end
  /\ forall data, location_data_of (unwrap_data data) = PDict ld ->
       json_location data =
         match ld with
         | [] => None
         | _ :: _ => Some (location_of_dict ld)
         end.
Proof.
  cbv zeta. split.
  - unfold location_of_dict. cbv zeta. rewrite location_parts_fields.
    destruct (omap (field_text ld) location_fields); [| reflexivity].
    unfold fallback_keys. cbn [map find].
    destruct (truthy (get ld "formatted_address")); [reflexivity |].
    destruct (truthy (get ld "display_name")); [reflexivity |].
    destruct (truthy (get ld "label")); reflexivity.
  - intros data Hd. unfold json_location, resolve_location. rewrite Hd.
    destruct ld; reflexivity.
Qed.

(** The example of the contract. *)
Lemma location_of_object_witness :
  json_location
    [("location", PDict [("name", PStr "X"); ("city", PStr "Y"); ("country", PStr "Z")])]
  = Some "X, Y, Z".
Proof.
  destruct (location_of_object
              [("name", PStr "X"); ("city", PStr "Y"); ("country", PStr "Z")])
    as [Hjoin Hres].
  rewrite (Hres [("location",
                  PDict [("name", PStr "X"); ("city", PStr "Y"); ("country", PStr "Z")])]);
    [| reflexivity].
  rewrite Hjoin. vm_compute. reflexivity.
Defined.

(** A counterexample to C6 as stated: an object with none of the address
    fields and none of the fallbacks resolves to its printed form, not to an
    absent location. *)
Lemma location_counterexample :
  let ld := [("building", PStr "Block C")] in
  Forall (fun k => lookup_key k ld = None)
         (concat location_fields ++ fallback_keys ++ ["lat"; "lng"])
  /\ json_location [("location", PDict ld)] = Some "{'building': 'Block C'}"
  /\ json_location [("location", PDict ld)] <> None.
Proof.
  cbv zeta. split; [repeat constructor |].
  split; [vm_compute; reflexivity | discriminate].
Qed.

End LocationClaim.

(* ===================================================================== *)
(** ** URL resolution *)
(* ===================================================================== *)

Section UrlClaim.
Import Text Regex Py Parsers.

Lemma contains_any_false (kws : list string) (s k : string) :
  contains_any kws s = false -> k ∈ kws -> contains k s = false.
Proof.
  unfold contains_any. intros H Hk. apply list_elem_of_In in Hk.
  destruct (contains k s) eqn:E; [| reflexivity].
  assert (Ht : existsb (fun kw => contains kw s) kws = true)
    by (apply existsb_exists; eauto).
  congruence.
Qed.

Lemma candidate_of_clean (lastindex : nat) (base : Z) (m : rmatch) (c : string * Z) :
  c ∈ candidate_of lastindex base m ->
  contains_any skip_keywords (lower c.1) = false.
Proof.
  unfold candidate_of. cbv zeta.
  match goal with
  | |- context [match ?k with Some _ => _ | None => _ end] => destruct k as [u |]
  end; [| intros H; now apply elem_of_nil in H].
  destruct (contains_any skip_keywords (lower u)) eqn:E;
    [intros H; now apply elem_of_nil in H |].
  intros H. now apply list_elem_of_singleton in H as ->.
Qed.

Lemma url_candidates_clean (ls : list string) (c : string * Z) :
  c ∈ url_candidates ls -> contains_any skip_keywords (lower c.1) = false.
Proof.
  unfold url_candidates, line_candidates.
  rewrite list_elem_of_In, in_flat_map. intros (line & _ & H).
  apply in_flat_map in H as ([[pattern lastindex] base] & _ & H).
  apply in_flat_map in H as (m & _ & H). apply list_elem_of_In in H.
  now apply candidate_of_clean in H.
Qed.

(** The head of the sorted list is the first of the candidates of greatest
    priority. *)
Lemma sort_desc_head (l : list (string * Z)) (c : string * Z) (rest : list (string * Z)) :
  sort_desc l = c :: rest ->
  exists l1 l2, l = l1 ++ c :: l2
    /\ Forall (fun c' => (c'.2 < c.2)%Z) l1
    /\ Forall (fun c' => (c'.2 <= c.2)%Z) l2.
Proof.
  revert c rest. induction l as [| x t IH]; intros c rest; [discriminate |].
  cbn [sort_desc]. destruct (sort_desc t) as [| y s] eqn:Et.
  - destruct t as [| x' t'].
    + intros [= <- <-]. exists [], []. repeat constructor.
    + exfalso. cbn [sort_desc] in Et. destruct (sort_desc t'); cbn in Et;
        [discriminate | destruct (_ <? _)%Z; discriminate].
  - destruct (IH y s eq_refl) as (l1 & l2 & Ht & H1 & H2).
    cbn [insert_desc]. destruct (Z.ltb_spec x.2 y.2) as [Hlt | Hge].
    + intros [= <- <-]. exists (x :: l1), l2. split; [now rewrite Ht |].
      split; [now constructor | exact H2].
    + intros [= <- <-]. exists [], t. split; [reflexivity |].
      split; [constructor |]. rewrite Ht. apply Forall_app. split.
      * eapply Forall_impl; [exact H1 |]. intros z Hz. simpl in Hz. lia.
      * constructor; [lia |]. eapply Forall_impl; [exact H2 |].
        intros z Hz. simpl in Hz. lia.
Qed.

(** The two documents of the contract's example, an asset URL and a listing
    URL on a line each, in either order; and the placeholder URL. *)
Definition asset_url : string := "https://cdn.example.com/logo.svg".
Definition listing_url : string := "https://example.com/property/123".
Definition asset_first : string := join nl [asset_url; listing_url].
Definition listing_first : string := join nl [listing_url; asset_url].
Definition placeholder : string := "https://example.com".

(** C5, as amended.  On the markdown path a candidate whose lowercase form
    holds an asset, social or CDN keyword or an image extension of the skip
    list is never scored: the URL chosen is the first candidate of greatest
    priority among those that hold none, and it stands unless it is the
    placeholder itself; so the document with the asset URL and the listing
    URL resolves to the listing URL in either order.  On the plain-text path
    there is no scoring: the URL is the first URL-like text of the first line
    that has one (with https:// put before it when it does not start with
    http), so that document resolves to whichever URL comes first. *)
Theorem url_resolution_by_path (default_url : string) :
  (forall md url p rest,
      sort_desc (url_candidates (lines md)) = (url, p) :: rest ->
      url <> default_url ->
      markdown_url md default_url = url
      /\ contains_any skip_keywords (lower url) = false
      /\ exists l1 l2,
           url_candidates (lines md) = l1 ++ (url, p) :: l2
           /\ Forall (fun c => (c.2 < p)%Z) l1
           /\ Forall (fun c => (c.2 <= p)%Z) l2)
  /\ markdown_url asset_first placeholder = listing_url
  /\ markdown_url listing_first placeholder = listing_url
  /\ (forall txt before line after m,
      lines txt = before ++ line :: after ->
      Forall (fun l => re_search text_url_pattern l = None) before ->
      re_search text_url_pattern line = Some m ->
      text_url txt default_url =
        if startswith "http" (m_all m) then m_all m else "https://" +:+ m_all m)
  /\ text_url listing_first placeholder = listing_url
  /\ text_url asset_first placeholder = asset_url.
Proof.
  split; [| split; [vm_compute; reflexivity |
            split; [vm_compute; reflexivity |
            split; [| split; vm_compute; reflexivity]]]].
  - intros md url p rest Hsort Hne.
    destruct (sort_desc_head _ _ _ Hsort) as (l1 & l2 & Hl & H1 & H2).
    assert (Hclean : contains_any skip_keywords (lower url) = false).
    { apply (url_candidates_clean (lines md) (url, p)).
      rewrite Hl. apply elem_of_app. right. apply list_elem_of_here. }
    split; [| split; [exact Hclean | now exists l1, l2]].
    unfold markdown_url, best_url. cbv zeta. rewrite Hsort.
    apply String.eqb_neq in Hne. rewrite Hne. cbn [orb].
    assert (Hsub : contains_any ["svg"; "png"; "jpg"; "jpeg"; "gif"; "cdn"; "files"]
                     (lower url) = false).
    { cbn [contains_any existsb].
      rewrite !(contains_any_false skip_keywords (lower url) _ Hclean);
        [reflexivity | ..]; apply list_elem_of_In; cbn; tauto. }
    now rewrite Hsub.
  - intros txt before line after m Hlines Hbefore Hm.
    unfold text_url. rewrite Hlines. clear Hlines.
    induction Hbefore as [| l before Hl _ IH]; cbn [app text_url_loop].
    + rewrite Hm. now destruct (startswith "http" (m_all m)).
    + now rewrite Hl.
Qed.

Lemma url_resolution_witness :
  markdown_url
    (join nl ["# Sterling Court"; "[Book](https://example.com/property/123)";
              "https://example.com/about"])
    placeholder
  = listing_url.
Proof.
  destruct (url_resolution_by_path placeholder) as (Hmd & _).
  destruct (Hmd (join nl ["# Sterling Court"; "[Book](https://example.com/property/123)";
                          "https://example.com/about"])
                listing_url 17%Z
                [(listing_url, 16%Z); ("https://example.com/about", 1%Z)])
    as (Hurl & _).
  - vm_compute; reflexivity.
  - discriminate.
  - exact Hurl.
Defined.

(** A counterexample to C5 as stated: on the plain-text path, with the asset
    URL first, the asset URL is returned. *)
Lemma url_resolution_counterexample :
  has_markdown_patterns asset_first = false
  /\ contains "https://example.com/property/123" asset_first = true
  /\ contains_any skip_keywords (lower asset_url) = true
  /\ text_url asset_first placeholder = "https://cdn.example.com/logo.svg".
Proof. repeat split; vm_compute; reflexivity. Qed.

End UrlClaim.

(* ===================================================================== *)
(** ** The top-level parse *)
(* ===================================================================== *)

Section DispatchClaims.
Import Text Regex Py Parsers.

Variable json_loads : string -> outcome pyval.
Variable parse_json : pyval -> outcome PropertyData.
Variable parse_markdown : string -> string -> PropertyData.
Variable parse_text : string -> string -> PropertyData.

Abbreviation parse := (parse_input_to_property_data json_loads parse_json
                     parse_markdown parse_text).

Abbreviation attempt := (try_json json_loads parse_json).

(** [text.startswith('{') or text.startswith('[')] *)
Definition looks_like_json (txt : string) : bool :=
  startswith "{" txt || startswith "[" txt.

(** The decoder is called on a string declared as JSON, and on a string
    whose format is to be detected and that starts like JSON. *)
Definition decodes (input_format txt : string) : Prop :=
  input_format = "json" \/ (input_format = "auto" /\ looks_like_json txt = true).

Lemma decodes_dec (input_format txt : string) :
  decodes input_format txt
  \/ (input_format <> "json" /\ (input_format = "auto" -> looks_like_json txt = false)).
Proof.
  unfold decodes. destruct (String.eqb_spec input_format "json") as [-> | Hnj];
    [now left; left |].
  destruct (String.eqb_spec input_format "auto") as [-> | Hna].
  - destruct (looks_like_json txt); [left; right; auto | right; auto].
  - right. split; [exact Hnj | intros; contradiction].
Qed.

(** C9, as amended.  The top-level parse itself raises a [ValueError] in two
    cases: for a string declared as JSON whose decoding raises a
    [JSONDecodeError], and for an input that is neither a record, a
    dictionary nor a string.  Text whose format is detected, and that starts
    like JSON but whose decoding raises a [JSONDecodeError], goes to the
    markdown or the text parser and a record is returned, as for detected
    text that does not start like JSON and for every string whose declared
    format is neither JSON nor detection; a record given as input is
    returned.  Every other exception that leaves the function was raised by
    the decoder (only its [JSONDecodeError] is caught), or by the parser of
    JSON documents at the dictionary given as input or at the document that
    the decoder returned for the trimmed string. *)
Theorem parse_input_errors (s input_format default_url : string) :
  parse (InStr s) "json" default_url =
    match attempt (strip s) with
    | Raise (JSONDecodeError e) => Raise (ValueError ("Invalid JSON format: " +:+ e))
    | other => other
    end
  /\ (forall type_repr,
        parse (InOther type_repr) input_format default_url
        = Raise (ValueError ("Unsupported input type: " +:+ type_repr)))
  /\ (forall p, parse (InRecord p) input_format default_url = Return p)
  /\ (input_format <> "json" ->
      (input_format = "auto" ->
       looks_like_json (strip s) = false
       \/ exists e, json_loads (strip s) = Raise (JSONDecodeError e)) ->
      parse (InStr s) input_format default_url =
        Return (if (input_format =? "auto")%string && has_markdown_patterns (strip s)
                   || (input_format =? "markdown")%string
                then parse_markdown (strip s) default_url
                else parse_text (strip s) default_url))
  /\ (forall data e,
        parse data input_format default_url = Raise e <->
        (exists type_repr,
            data = InOther type_repr
            /\ e = ValueError ("Unsupported input type: " +:+ type_repr))
        \/ (exists s' err,
            data = InStr s' /\ input_format = "json"
            /\ attempt (strip s') = Raise (JSONDecodeError err)
            /\ e = ValueError ("Invalid JSON format: " +:+ err))
        \/ (exists s',
            data = InStr s' /\ decodes input_format (strip s')
            /\ attempt (strip s') = Raise e
            /\ forall err, e <> JSONDecodeError err)
        \/ (exists d, data = InDict d /\ parse_json (PDict d) = Raise e))
  /\ (forall txt e,
        attempt txt = Raise e <->
        json_loads txt = Raise e
        \/ exists json_data, json_loads txt = Return json_data
                             /\ parse_json json_data = Raise e).
Proof.
  split; [reflexivity |]. split; [reflexivity |]. split; [reflexivity |].
  split; [| split].
  - intros Hnj Hauto. unfold parse_input_to_property_data. cbv zeta.
    apply String.eqb_neq in Hnj. rewrite Hnj.
    destruct (String.eqb_spec input_format "auto") as [-> | Hna].
    + cbn [andb orb]. change ("auto" =? "markdown")%string with false.
      rewrite orb_false_r.
      destruct (Hauto eq_refl) as [Hlook | [e He]].
      * unfold looks_like_json in Hlook. rewrite Hlook.
        now destruct (has_markdown_patterns (strip s)).
      * unfold try_json. rewrite He.
        destruct (startswith "{" (strip s) || startswith "[" (strip s));
          now destruct (has_markdown_patterns (strip s)).
    + cbn [andb orb]. now destruct (input_format =? "markdown")%string.
  - intros data e. split.
    + unfold parse_input_to_property_data. cbv zeta.
      destruct data as [p | d | s' | t].
      * discriminate.
      * intros H. do 3 right. eauto.
      * destruct (String.eqb_spec input_format "auto") as [-> | Hna].
        -- fold (looks_like_json (strip s')).
           destruct (looks_like_json (strip s')) eqn:Hlook;
             [| destruct (has_markdown_patterns (strip s')); discriminate].
           destruct (attempt (strip s')) as [r | e'] eqn:Ha; [discriminate |].
           destruct e' as [m | m | m | m | m]; cbv beta iota;
             try (intros [= <-]; right; right; left; exists s';
                  split; [reflexivity |];
                  split; [right; split; [reflexivity | exact Hlook] |];
                  split; [exact Ha | discriminate]).
           destruct (has_markdown_patterns (strip s')); discriminate.
        -- destruct (String.eqb_spec input_format "json") as [-> | Hnj];
             [| destruct (input_format =? "markdown")%string; discriminate].
           destruct (attempt (strip s')) as [r | e'] eqn:Ha; [discriminate |].
           destruct e' as [m | m | m | m | m]; cbv beta iota;
             try (intros [= <-]; right; right; left; exists s';
                  split; [reflexivity |]; split; [left; reflexivity |];
                  split; [exact Ha | discriminate]).
           intros [= <-]. right; left. exists s', m. auto.
      * intros [= <-]. left. eauto.
    + intros [(t & -> & ->) | [(s' & err & -> & -> & Ha & ->)
                              | [(s' & -> & Hd & Ha & Hne) | (d & -> & Hd)]]].
      * reflexivity.
      * unfold parse_input_to_property_data. cbv zeta.
        change ("json" =? "auto")%string with false.
        change ("json" =? "json")%string with true. cbv iota. now rewrite Ha.
      * unfold parse_input_to_property_data. cbv zeta.
        destruct Hd as [-> | [-> Hlook]].
        -- change ("json" =? "auto")%string with false.
           change ("json" =? "json")%string with true. cbv iota. rewrite Ha.
           destruct e as [m | m | m | m | m]; try reflexivity.
           now contradiction (Hne m).
        -- change ("auto" =? "auto")%string with true. cbv iota.
           unfold looks_like_json in Hlook. rewrite Hlook, Ha.
           destruct e as [m | m | m | m | m]; try reflexivity.
           now contradiction (Hne m).
      * exact Hd.
  - intros txt e. unfold try_json.
    destruct (json_loads txt) as [v | e'] eqn:Hl.
    + split; [intros H; right; eauto |].
      intros [H | (v' & [= <-] & H)]; [discriminate | exact H].
    + split; [intros [= <-]; now left |].
      intros [[= <-] | (v' & H & _)]; [reflexivity | discriminate].
Qed.

(** C10.  The top-level parse returns a record given as input unchanged,
    whatever the declared format; so parsing the result of a parse again,
    under any format, gives that result (and an exception of the first parse
    is the exception of the whole). *)
Theorem parse_input_idempotent (data : input) (f g u u' : string) :
  (forall p, parse (InRecord p) f u = Return p)
  /\ match parse data f u with
     | Return r => parse (InRecord r) g u'
     | Raise e => Raise e
     end = parse data f u.
Proof.
  split; [reflexivity |].
  destruct (parse data f u); reflexivity.
Qed.

End DispatchClaims.

Section DispatchExamples.
Import Text Regex Py Parsers.

(** Stand-ins for the decoder and the three parsers, for the examples: the
    decoder accepts the empty object only, and each parser returns a record
    that tells which parser made it. *)
Definition sample_loads (s : string) : outcome pyval :=
  if (s =? "{}")%string then Return (PDict [])
  else Raise (JSONDecodeError "Expecting value: line 1 column 1 (char 0)").

Definition sample_record (made_by txt url : string) : PropertyData :=
  mkPropertyData made_by None url None txt.

Definition sample_json (v : pyval) : outcome PropertyData :=
  Return (sample_record "json" (py_str v) placeholder).

Definition sample_markdown (txt url : string) : PropertyData :=
  sample_record "markdown" txt (markdown_url txt url).

Definition sample_text (txt url : string) : PropertyData :=
  sample_record "text" txt (text_url txt url).

(** Text that starts like JSON and does not decode is parsed as text. *)
Lemma parse_input_errors_witness :
  parse_input_to_property_data sample_loads sample_json sample_markdown sample_text
    (InStr "{name: Sterling Court") "auto" placeholder
  = Return (sample_record "text" "{name: Sterling Court" placeholder).
Proof.
  destruct (parse_input_errors sample_loads sample_json sample_markdown sample_text
              "{name: Sterling Court" "auto" placeholder)
    as (_ & _ & _ & Hdegrade & _).
  rewrite Hdegrade.
  - vm_compute; reflexivity.
  - discriminate.
  - intros _. right. eexists. vm_compute; reflexivity.
Defined.

(** A counterexample to C9 as stated: an integer as input, with no format
    declared, makes the parse raise a [ValueError]. *)
Lemma parse_input_counterexample :
  parse_input_to_property_data sample_loads sample_json sample_markdown sample_text
    (InOther "<class 'int'>") "auto" placeholder
  = Raise (ValueError "Unsupported input type: <class 'int'>")
  /\ "auto" <> "json".
Proof. split; [vm_compute; reflexivity | discriminate]. Qed.

End DispatchExamples.

(* ===================================================================== *)
(** ** The empty result of the extractor *)
(* ===================================================================== *)

Section ExtractorClaim.
Import Text Py Extractor.

Variable llm_extract : pyval -> pyval -> pyval -> option pyval.

(** C8, as amended.  For every input whose text has fewer than 50
    characters, the extractor returns, without raising and without calling
    the model, the empty result for the name and URL of the input: no
    sections, zero for the section, item and word counts and for every
    metric.  The result has no confidence score. *)
Theorem short_text_gives_empty_result (raw_data extracted_content : pydict)
  (txt : string) :
  get_default raw_data "extracted_content" (PDict []) = PDict extracted_content ->
  get_default extracted_content "text" (PStr "") = PStr txt ->
  len txt < 50 ->
  let result := _empty_result (get_default raw_data "property_name" (PStr "Unknown"))
                              (get_default raw_data "url" (PStr "")) in
  extract llm_extract raw_data = Return (PDict result)
  /\ get result "sections" = PList []
  /\ get result "sections_count" = PInt 0
  /\ get result "total_items" = PInt 0
  /\ get result "total_word_count" = PInt 0
  /\ (exists metrics, get result "metrics" = PDict metrics
                      /\ Forall (fun kv => kv.2 = PInt 0) metrics)
  /\ lookup_key "confidence_score" result = None.
Proof.
  intros Hec Htxt Hlen. cbv zeta. split.
  - unfold extract. rewrite Hec, Htxt. cbn [py_len].
    apply Nat.ltb_lt in Hlen. rewrite Hlen. now rewrite orb_true_r.
  - repeat split; try reflexivity.
    eexists. split; [reflexivity |]. repeat constructor.
Qed.

End ExtractorClaim.

Section ExtractorExamples.
Import Text Py Extractor.

(** An input of 20 characters. *)
Definition short_input : pydict :=
  [ ("property_name", PStr "Sterling Court");
    ("url", PStr "https://example.com/property/123");
    ("extracted_content", PDict [("text", PStr "Two bed flat, London")]) ].

Lemma short_text_witness :
  len "Two bed flat, London" = 20
  /\ extract (fun _ _ _ => None) short_input
     = Return (PDict (_empty_result (PStr "Sterling Court")
                                    (PStr "https://example.com/property/123"))).
Proof.
  split; [reflexivity |].
  destruct (short_text_gives_empty_result (fun _ _ _ => None) short_input
              [("text", PStr "Two bed flat, London")] "Two bed flat, London")
    as (H & _); [reflexivity | reflexivity | vm_compute; lia |].
  exact H.
Defined.

(** A counterexample to C8 as stated: the record returned for an input of
    20 characters has no sections, and no confidence score either (the claim
    has it at 0). *)
Lemma short_text_counterexample :
  exists result,
    extract (fun _ _ _ => None) short_input = Return (PDict result)
    /\ get result "sections" = PList []
    /\ lookup_key "confidence_score" result = None
    /\ get result "confidence_score" <> PInt 0.
Proof.
  eexists. split; [vm_compute; reflexivity |].
  split; [reflexivity |]. split; [reflexivity | discriminate].
Qed.

End ExtractorExamples.

(* ===================================================================== *)
(** ** More about trimming, splitting and joining *)
(* ===================================================================== *)

Lemma elem_of_rev_iff {A : Type} (l : list A) (x : A) : x ∈ rev l <-> x ∈ l.
Proof. rewrite !list_elem_of_In. symmetry. apply in_rev. Qed.

Section StripFacts.
Import Text.

Variable p : ascii -> bool.

(** A list that does not start with a character of the class [p]. *)
Definition starts_clean (l : list ascii) : Prop :=
  match l with
  | [] => True
  | c :: _ => p c = false
  end.

Lemma drop_while_starts_clean (l : list ascii) : starts_clean (drop_while p l).
Proof.
  induction l as [| c t IH]; simpl; [exact I |].
  destruct (p c) eqn:E; [exact IH | exact E].
Qed.

Lemma drop_while_id (l : list ascii) : starts_clean l -> drop_while p l = l.
Proof. destruct l as [| c t]; simpl; [reflexivity | now intros ->]. Qed.

Lemma drop_while_suffix (l : list ascii) : exists pre, l = pre ++ drop_while p l.
Proof.
  induction l as [| c t [pre IH]]; simpl; [now exists [] |].
  destruct (p c); [| now exists []].
  exists (c :: pre). simpl. now rewrite <- IH.
Qed.

Lemma starts_clean_app_l (a b : list ascii) :
  a <> [] -> starts_clean (a ++ b) -> starts_clean a.
Proof. destruct a; [contradiction | auto]. Qed.

Lemma drop_while_ends_clean (l : list ascii) :
  starts_clean (rev l) -> starts_clean (rev (drop_while p l)).
Proof.
  intros H. destruct (drop_while_suffix l) as [pre Hpre].
  destruct (drop_while p l) as [| c t] eqn:E; [exact I |].
  rewrite Hpre, rev_app_distr in H.
  apply (starts_clean_app_l _ (rev pre)); [| exact H].
  simpl. intros Hnil. now apply app_eq_nil in Hnil as [_ ?].
Qed.

Lemma strip_with_clean (l : list ascii) :
  starts_clean (strip_with p l) /\ starts_clean (rev (strip_with p l)).
Proof.
  unfold strip_with. rewrite rev_involutive. split.
  - apply drop_while_ends_clean. rewrite rev_involutive.
    apply drop_while_starts_clean.
  - apply drop_while_starts_clean.
Qed.

Lemma strip_with_id (l : list ascii) :
  starts_clean l -> starts_clean (rev l) -> strip_with p l = l.
Proof.
  intros H1 H2. unfold strip_with.
  now rewrite (drop_while_id l H1), (drop_while_id (rev l) H2), rev_involutive.
Qed.

Lemma strip_with_idempotent (l : list ascii) :
  strip_with p (strip_with p l) = strip_with p l.
Proof. apply strip_with_id; apply strip_with_clean. Qed.

Lemma drop_while_sublist (l : list ascii) : drop_while p l `sublist_of` l.
Proof.
  induction l as [| c t IH]; simpl; [constructor |].
  destruct (p c); [now apply sublist_cons | reflexivity].
Qed.

Lemma strip_with_elem (l : list ascii) (c : ascii) :
  c ∈ strip_with p l -> c ∈ l.
Proof.
  unfold strip_with. rewrite elem_of_rev_iff. intros H.
  assert (H1 : c ∈ rev (drop_while p l))
    by (eapply elem_of_sublist; [exact H | apply drop_while_sublist]).
  rewrite elem_of_rev_iff in H1.
  eapply elem_of_sublist; [exact H1 | apply drop_while_sublist].
Qed.

End StripFacts.

Section LinesFacts.
Import Text.

Lemma strip_idempotent (s : string) : strip (strip s) = strip s.
Proof. unfold strip. now rewrite chars_text, strip_with_idempotent. Qed.

(** A string that holds the character [c]. *)
Definition holds (c : ascii) (s : string) : Prop := c ∈ chars s.

Lemma strip_keeps_free (c : ascii) (s : string) : ~ holds c s -> ~ holds c (strip s).
Proof.
  unfold holds, strip. rewrite chars_text. intros H Hin. apply H.
  now apply strip_with_elem in Hin.
Qed.

Lemma ascii_eqb_neq (a b : ascii) : ascii_eqb a b = false <-> a <> b.
Proof.
  rewrite <- ascii_eqb_eq. destruct (ascii_eqb a b); split; congruence.
Qed.

Lemma split_char_aux_free (sep : ascii) (cur l : list ascii) :
  sep ∉ l -> split_char_aux sep cur l = [rev cur ++ l].
Proof.
  revert cur. induction l as [| c t IH]; intros cur H; simpl.
  - now rewrite app_nil_r.
  - apply not_elem_of_cons in H as [Hc Ht].
    assert (E : ascii_eqb c sep = false) by (apply ascii_eqb_neq; congruence).
    rewrite E, (IH (c :: cur) Ht). simpl. now rewrite <- app_assoc.
Qed.

Lemma split_char_aux_app (sep : ascii) (cur a b : list ascii) :
  sep ∉ a ->
  split_char_aux sep cur (a ++ sep :: b) = (rev cur ++ a) :: split_char_aux sep [] b.
Proof.
  revert cur. induction a as [| c t IH]; intros cur H; simpl.
  - rewrite (proj2 (ascii_eqb_eq sep sep) eq_refl). now rewrite app_nil_r.
  - apply not_elem_of_cons in H as [Hc Ht].
    assert (E : ascii_eqb c sep = false) by (apply ascii_eqb_neq; congruence).
    rewrite E, (IH (c :: cur) Ht). simpl. now rewrite <- app_assoc.
Qed.

Lemma split_char_aux_pieces_free (sep : ascii) (cur l : list ascii) :
  sep ∉ cur -> Forall (fun piece => sep ∉ piece) (split_char_aux sep cur l).
Proof.
  revert cur. induction l as [| c t IH]; intros cur H; simpl.
  - constructor; [| constructor]. now rewrite elem_of_rev_iff.
  - destruct (ascii_eqb c sep) eqn:E.
    + constructor; [now rewrite elem_of_rev_iff |]. apply IH, not_elem_of_nil.
    + apply IH. apply not_elem_of_cons. split; [| exact H].
      apply ascii_eqb_neq in E. congruence.
Qed.

Lemma split_char_aux_join (sep : ascii) (cur l : list ascii) :
  chars (join (str1 sep) (map text (split_char_aux sep cur l))) = rev cur ++ l.
Proof.
  revert cur. induction l as [| c t IH]; intros cur; simpl.
  - now rewrite chars_text, app_nil_r.
  - destruct (ascii_eqb c sep) eqn:E.
    + apply ascii_eqb_eq in E. subst c. specialize (IH []).
      cbn [map join String.concat].
      destruct (map text (split_char_aux sep [] t)) as [| x xs] eqn:Ex.
      * destruct t; simpl in Ex; [discriminate |].
        destruct (ascii_eqb a sep); discriminate.
      * fold (join (str1 sep) (x :: xs)).
        rewrite !chars_append, chars_text, IH. reflexivity.
    + rewrite (IH (c :: cur)). simpl. now rewrite <- app_assoc.
Qed.

(** Joining the lines of a text with newlines gives the text back. *)
Lemma join_lines (s : string) : join nl (lines s) = s.
Proof.
  unfold lines, split_char, nl.
  rewrite <- (text_chars (join _ _)), split_char_aux_join. apply text_chars.
Qed.

Lemma lines_free (s : string) : Forall (fun line => ~ holds NL line) (lines s).
Proof.
  unfold lines, split_char, holds. apply Forall_map.
  eapply Forall_impl; [apply (split_char_aux_pieces_free NL [] _), not_elem_of_nil |].
  intros piece H. simpl. now rewrite chars_text.
Qed.

(** Splitting the join of newline-free lines gives the lines back. *)
Lemma lines_join (l : list string) :
  l <> [] -> Forall (fun line => ~ holds NL line) l -> lines (join nl l) = l.
Proof.
  intros Hne Hfree. unfold lines, split_char.
  induction Hfree as [| x xs Hx Hxs IH]; [contradiction |].
  destruct xs as [| y ys].
  - cbn [join String.concat]. rewrite split_char_aux_free; [| exact Hx].
    simpl. now rewrite text_chars.
  - cbn [join String.concat]. fold (join nl (y :: ys)).
    rewrite !chars_append. change (chars nl) with [NL]. cbn [app].
    rewrite split_char_aux_app; [| exact Hx].
    cbn [map rev app]. rewrite text_chars. f_equal.
    apply IH. discriminate.
Qed.

End LinesFacts.

(* ===================================================================== *)
(** ** More about the section engine *)
(* ===================================================================== *)

Section NoiseFacts.
Import Text Regex Firecrawl.

Lemma filter_all {A : Type} (f : A -> bool) (l : list A) :
  Forall (fun x => f x = true) l -> List.filter f l = l.
Proof.
  induction 1 as [| x l Hx _ IH]; simpl; [reflexivity |].
  now rewrite Hx, IH.
Qed.

Lemma filter_fixed {A : Type} (f : A -> bool) (l : list A) :
  List.filter f (List.filter f l) = List.filter f l.
Proof.
  apply filter_all, Forall_forall. intros x Hx.
  now apply elem_of_list_filter in Hx.
Qed.

(** The test of the loop of [_remove_navigation_noise], read as a
    proposition: the line is kept. *)
Lemma noise_test (line : string) :
  negb (contains_any skip_keywords line && (len line <? 100)%nat) = true
  <-> contains_any skip_keywords line = false \/ 100 <= len line.
Proof.
  rewrite negb_true_iff, andb_false_iff, Nat.ltb_ge. tauto.
Qed.

Lemma remove_navigation_noise_fixed (txt : string) :
  _remove_navigation_noise (_remove_navigation_noise txt) = _remove_navigation_noise txt.
Proof.
  unfold _remove_navigation_noise.
  set (keep := fun line => negb (contains_any skip_keywords line && (len line <? 100)%nat)).
  destruct (List.filter keep (lines txt)) as [| x xs] eqn:E.
  - vm_compute. reflexivity.
  - rewrite lines_join, <- E, filter_fixed; [reflexivity | discriminate |].
    rewrite <- E. apply Forall_forall. intros line Hin.
    apply elem_of_list_filter in Hin as [Hin _].
    revert line Hin. apply Forall_forall, lines_free.
Qed.

(** X1.  Removing the navigation noise a second time changes nothing.  Every
    line of the cleaned text is free of the navigation keywords or has 100
    characters or more, and the lines of the cleaned text are lines of the
    input in their order, unless nothing is left of it. *)
Theorem remove_navigation_noise_idempotent (txt : string) :
  let cleaned := _remove_navigation_noise txt in
  _remove_navigation_noise cleaned = cleaned
  /\ Forall (fun line => contains_any skip_keywords line = false \/ 100 <= len line)
            (lines cleaned)
  /\ (cleaned = "" \/ lines cleaned `sublist_of` lines txt).
Proof.
  cbv zeta. split; [apply remove_navigation_noise_fixed |].
  unfold _remove_navigation_noise.
  set (keep := fun line => negb (contains_any skip_keywords line && (len line <? 100)%nat)).
  destruct (List.filter keep (lines txt)) as [| x xs] eqn:E.
  - change (join nl []) with "". split; [| now left].
    change (lines "") with [""]. constructor; [| constructor].
    left. vm_compute. reflexivity.
  - assert (Hl : lines (join nl (x :: xs)) = x :: xs).
    { apply lines_join; [discriminate |]. rewrite <- E.
      apply Forall_forall. intros line Hin. apply elem_of_list_filter in Hin as [Hin _].
      revert line Hin. apply Forall_forall, lines_free. }
    rewrite Hl, <- E. split.
    + apply Forall_forall. intros line Hin.
      apply elem_of_list_filter in Hin as [_ Hin]. now apply noise_test.
    + right. apply list_filter_sublist.
Qed.

(** X2.  A text in which every line is free of the navigation keywords, or
    has 100 characters or more, comes back unchanged. *)
Theorem remove_navigation_noise_keeps_clean_text (txt : string) :
  Forall (fun line => contains_any skip_keywords line = false \/ 100 <= len line)
         (lines txt) ->
  _remove_navigation_noise txt = txt.
Proof.
  intros H. unfold _remove_navigation_noise.
  rewrite filter_all; [apply join_lines |].
  eapply Forall_impl; [exact H |]. intros line Hl. now apply noise_test.
Qed.

Lemma remove_navigation_noise_clean_witness :
  _remove_navigation_noise (join nl ["## Amenities"; "- Gym"; ""; "- Pool"])
  = join nl ["## Amenities"; "- Gym"; ""; "- Pool"].
Proof.
  apply remove_navigation_noise_keeps_clean_text.
  change (lines _) with ["## Amenities"; "- Gym"; ""; "- Pool"].
  repeat constructor.
Defined.

End NoiseFacts.

Section SectionFacts.
Import Text Regex Firecrawl.

Variable bullets : string -> list string.
Variable order : list string -> list string.

(** X3.  A section of the heading strategy has a heading that is not a
    navigation heading and a body of more than 15 characters; heading and
    body carry no blanks at either end, and the name of the section is the
    name inferred from its heading. *)
Theorem heading_sections_wellformed (cleaned : string) (s : PreSection) :
  s ∈ heading_sections bullets order cleaned ->
  _is_navigation_section (display_name s) = false
  /\ 15 < len (content s)
  /\ original_name s = _infer_section_name (display_name s)
  /\ strip (display_name s) = display_name s
  /\ strip (content s) = content s.
Proof.
  unfold heading_sections. rewrite list_elem_of_In, in_flat_map.
  intros (m & _ & Hs). apply list_elem_of_In in Hs. revert Hs.
  unfold heading_section.
  destruct (_is_navigation_section _) eqn:Hnav; [intros H; now apply elem_of_nil in H |].
  destruct (15 <? _)%nat eqn:Hlen; [| intros H; now apply elem_of_nil in H].
  intros H. apply list_elem_of_singleton in H as ->. cbn [display_name content original_name].
  apply Nat.ltb_lt in Hlen.
  split; [exact Hnav |]. split; [exact Hlen |]. split; [reflexivity |].
  split; apply strip_idempotent.
Qed.

(** A list of at most one section, of a given name and with at least [min]
    items. *)
Definition at_most_one (name : string) (min : nat) (l : list PreSection) : Prop :=
  l = [] \/ exists s, l = [s] /\ original_name s = name /\ min <= List.length (items s).

Lemma amenities_section_one (ls : list string) :
  at_most_one "amenities" 3 (amenities_section ls).
Proof.
  induction ls as [| line rest IH]; [now left |].
  cbn [amenities_section].
  destruct (3 <=? count_keywords amenities_keywords line)%nat; [| exact IH].
  destruct (3 <=? List.length (amenity_items line))%nat eqn:E; [| exact IH].
  apply Nat.leb_le in E. right. eexists. split; [reflexivity |]. now split.
Qed.

Lemma bills_section_one (ls : list string) :
  at_most_one "bills_included" 3 (bills_section ls).
Proof.
  induction ls as [| line rest IH]; [now left |].
  cbn [bills_section].
  destruct (3 <=? count_keywords bills_patterns line)%nat; [| exact IH].
  destruct (3 <=? List.length (bill_items line))%nat eqn:E; [| exact IH].
  apply Nat.leb_le in E. right. eexists. split; [reflexivity |]. now split.
Qed.

Lemma faqs_section_one (txt : string) : at_most_one "faqs" 1 (faqs_section txt).
Proof.
  unfold faqs_section. destruct (re_search faq_region_re txt) as [m |]; [| now left].
  set (qs := re_findall1 faq_heading_re _ ++ _).
  destruct (dict_fromkeys qs) eqn:E; [now left |].
  right. eexists. split; [reflexivity |]. split; [reflexivity |]. simpl. lia.
Qed.

Lemma room_types_section_one (txt : string) :
  at_most_one "room_types" 1 (room_types_section order txt).
Proof.
  unfold room_types_section. destruct (re_findall1 room_re txt) as [| r rs]; [now left |].
  destruct (order (r :: rs)) eqn:Eo; [now left |].
  right. eexists. split; [reflexivity |]. split; [reflexivity |]. simpl. lia.
Qed.

Lemma dash_region_section_one (region : re) (name display txt : string) :
  at_most_one name 1 (dash_region_section region name display txt).
Proof.
  unfold dash_region_section. destruct (re_search region txt) as [m |]; [| now left].
  destruct (re_findall1 dash_line_re _); [now left |].
  right. eexists. split; [reflexivity |]. split; [reflexivity |]. simpl. lia.
Qed.

(** What a list of sections keeps when one more block is put in front. *)
Lemma at_most_one_app (name : string) (min : nat) (b rest : list PreSection)
  (ns : list string) :
  at_most_one name min b ->
  0 < min ->
  map original_name rest `sublist_of` ns /\ Forall (fun s => items s <> []) rest ->
  map original_name (b ++ rest) `sublist_of` name :: ns
  /\ Forall (fun s => items s <> []) (b ++ rest).
Proof.
  intros [-> | (s & -> & Hn & Hmin)] Hpos [Hsub Hne]; simpl.
  - split; [now apply sublist_cons | exact Hne].
  - rewrite Hn. split; [now apply sublist_skip |].
    constructor; [| exact Hne]. destruct (items s); [simpl in Hmin; lia | discriminate].
Qed.

(** X4.  The keyword strategy gives at most one section of each of its seven
    kinds, in a fixed order: at most seven sections, with pairwise different
    names.  None of them has an empty item list, and an amenities or bills
    section has three items or more. *)
Theorem special_sections_one_per_kind (txt : string) :
  let secs := _extract_special_sections order txt in
  map original_name secs `sublist_of`
    ["amenities"; "bills_included"; "faqs"; "room_types"; "payment";
     "cancellation"; "offers"]
  /\ NoDup (map original_name secs)
  /\ List.length secs <= 7
  /\ Forall (fun s => items s <> []) secs
  /\ Forall (fun s => original_name s = "amenities" \/ original_name s = "bills_included" ->
                      3 <= List.length (items s)) secs.
Proof.
  cbv zeta.
  assert (Hshape :
    map original_name (_extract_special_sections order txt) `sublist_of`
      ["amenities"; "bills_included"; "faqs"; "room_types"; "payment";
       "cancellation"; "offers"]
    /\ Forall (fun s => items s <> []) (_extract_special_sections order txt)).
  { unfold _extract_special_sections.
    apply (at_most_one_app _ 3); [apply amenities_section_one | lia |].
    apply (at_most_one_app _ 3); [apply bills_section_one | lia |].
    apply (at_most_one_app _ 1); [apply faqs_section_one | lia |].
    apply (at_most_one_app _ 1); [apply room_types_section_one | lia |].
    apply (at_most_one_app _ 1); [apply dash_region_section_one | lia |].
    apply (at_most_one_app _ 1); [apply dash_region_section_one | lia |].
    rewrite <- (app_nil_r (offers_section txt)).
    apply (at_most_one_app _ 1); [apply dash_region_section_one | lia |].
    split; constructor. }
  destruct Hshape as [Hsub Hne].
  split; [exact Hsub |]. split; [| split; [| split; [exact Hne |]]].
  - eapply sublist_NoDup; [| exact Hsub].
    repeat (apply NoDup_cons; split;
            [intros H;
             repeat (apply elem_of_cons in H as [H | H]; [discriminate H |]);
             now apply elem_of_nil in H |]).
    constructor.
  - rewrite <- (length_map original_name).
    apply sublist_length in Hsub. simpl in Hsub. exact Hsub.
  - apply Forall_forall. intros s Hs.
    unfold _extract_special_sections in Hs. rewrite !elem_of_app in Hs.
    intros Hname.
    destruct Hs as [H | [H | [H | [H | [H | [H | H]]]]]].
    + destruct (amenities_section_one (lines txt)) as [E | (s' & E & _ & Hmin)];
        rewrite E in H; [now apply elem_of_nil in H |].
      now apply list_elem_of_singleton in H as ->.
    + destruct (bills_section_one (lines txt)) as [E | (s' & E & _ & Hmin)];
        rewrite E in H; [now apply elem_of_nil in H |].
      now apply list_elem_of_singleton in H as ->.
    + apply faqs_section_spec in H as [H _]. rewrite H in Hname.
      destruct Hname; discriminate.
    + apply room_types_section_spec in H as [H _]. rewrite H in Hname.
      destruct Hname; discriminate.
    + apply dash_region_section_spec in H. rewrite H in Hname.
      destruct Hname; discriminate.
    + apply dash_region_section_spec in H. rewrite H in Hname.
      destruct Hname; discriminate.
    + apply dash_region_section_spec in H. rewrite H in Hname.
      destruct Hname; discriminate.
Qed.

Lemma first_occurrences_id (l seen : list string) :
  NoDup l -> (forall x, x ∈ l -> x ∉ seen) -> first_occurrences seen l = l.
Proof.
  revert seen. induction l as [| a l IH]; intros seen Hnd Hfresh; simpl; [reflexivity |].
  apply NoDup_cons in Hnd as [Ha Hnd].
  rewrite bool_decide_eq_false_2 by (apply Hfresh, list_elem_of_here).
  f_equal. apply IH; [exact Hnd |].
  intros x Hx. rewrite not_elem_of_cons. split.
  - intros ->. contradiction.
  - apply Hfresh. now apply list_elem_of_further.
Qed.

(** X5.  The items that the item extractor returns carry no blanks at either
    end and are not empty, and the list is a fixed point of the loop that
    produced it: cleaning and capping it again gives the same list. *)
Theorem extracted_items_stable (content section_name : string) :
  let out := _extract_items_from_firecrawl_content bullets order content section_name in
  Forall (fun x => strip x = x /\ x <> "") out
  /\ take 50 (dedupe out) = out.
Proof.
  cbv zeta. unfold _extract_items_from_firecrawl_content.
  set (raw := collected_items bullets order content section_name).
  destruct (capped_dedupe_spec raw) as (_ & Hlen & Hnd & Hmin & Hsub).
  cbv zeta in Hlen, Hnd, Hmin, Hsub.
  set (out := take 50 (dedupe raw)) in *.
  assert (Hstrip : Forall (fun x => strip x = x) out).
  { apply Forall_forall. intros x Hx.
    assert (Hin : x ∈ map strip raw) by (eapply elem_of_sublist; eauto).
    apply list_elem_of_fmap in Hin as (y & -> & _). apply strip_idempotent. }
  assert (Hkeeps : Forall (fun x => keeps x = true) out).
  { apply Forall_forall. intros x Hx. apply Hmin in Hx. unfold keeps.
    apply andb_true_iff. split.
    - apply negb_true_iff, String.eqb_neq. intros ->. simpl in Hx. lia.
    - apply Nat.ltb_lt. lia. }
  split.
  - apply Forall_forall. intros x Hx. split.
    + revert x Hx. now apply Forall_forall.
    + intros ->. apply Hmin in Hx. simpl in Hx. lia.
  - rewrite dedupe_first_occurrences.
    assert (Hmap : map strip out = out).
    { clear -Hstrip. induction Hstrip as [| x l Hx _ IH]; simpl; [reflexivity |].
      now rewrite Hx, IH. }
    rewrite Hmap, (filter_all _ _ Hkeeps), first_occurrences_id.
    + now apply take_ge.
    + exact Hnd.
    + intros x _. apply not_elem_of_nil.
Qed.

End SectionFacts.

Section SectionExamples.
Import Text Regex Firecrawl.

Lemma heading_sections_wellformed_witness :
  let s := mkPreSection "amenities" "Amenities"
             (join nl ["- Gym"; "- Pool"; "- Sauna"]) ["Gym"; "Pool"; "Sauna"] in
  _is_navigation_section (display_name s) = false
  /\ 15 < len (content s)
  /\ original_name s = _infer_section_name (display_name s)
  /\ strip (display_name s) = display_name s
  /\ strip (content s) = content s.
Proof.
  cbv zeta.
  apply (heading_sections_wellformed dash_bullets first_seen_order
           (join nl ["## Amenities"; "- Gym"; "- Pool"; "- Sauna"])).
  assert (E : heading_sections dash_bullets first_seen_order
                (join nl ["## Amenities"; "- Gym"; "- Pool"; "- Sauna"])
              = [mkPreSection "amenities" "Amenities"
                   (join nl ["- Gym"; "- Pool"; "- Sauna"]) ["Gym"; "Pool"; "Sauna"]])
    by (vm_compute; reflexivity).
  rewrite E. apply list_elem_of_here.
Defined.

End SectionExamples.

Section MergeMore.
Import Text Firecrawl.

(** Where the winner stands among the candidates: it is the first candidate
    of its name that no candidate of that name exceeds. *)
Definition earliest_largest (cands : list PreSection) (w : PreSection) : Prop :=
  exists pre post,
    cands = pre ++ w :: post
    /\ (forall c, c ∈ pre -> original_name c = original_name w ->
        List.length (items c) < List.length (items w))
    /\ (forall c, c ∈ post -> original_name c = original_name w ->
        List.length (items c) <= List.length (items w)).

Lemma winner_None (n : string) (l : list PreSection) :
  winner n l = None -> forall c, c ∈ l -> original_name c <> n.
Proof.
  induction l as [| c l IH] using rev_ind; intros H c' Hc'.
  - now apply elem_of_nil in Hc'.
  - rewrite winner_snoc in H. unfold challenge in H.
    destruct (named n c) eqn:En.
    + destruct (winner n l); [destruct (_ <? _)%nat |]; discriminate.
    + apply elem_of_app in Hc' as [Hc' | Hc']; [now apply IH |].
      apply list_elem_of_singleton in Hc' as ->. now apply named_false.
Qed.

Lemma winner_earliest_largest (n : string) (l : list PreSection) (w : PreSection) :
  winner n l = Some w -> original_name w = n /\ earliest_largest l w.
Proof.
  revert w. induction l as [| c l IH] using rev_ind; intros w; [discriminate |].
  rewrite winner_snoc. unfold challenge. destruct (named n c) eqn:En.
  - apply named_true in En. destruct (winner n l) as [w0 |] eqn:Ew.
    + destruct (IH w0 eq_refl) as (Hn0 & pre & post & -> & Hpre & Hpost).
      destruct (List.length (items w0) <? List.length (items c))%nat eqn:Hlt;
        intros [= <-].
      * apply Nat.ltb_lt in Hlt. split; [exact En |].
        exists (pre ++ w0 :: post), []. split; [reflexivity |]. split.
        -- intros c' Hc' Hn'. rewrite En, <- Hn0 in Hn'.
           apply elem_of_app in Hc' as [Hc' | Hc'].
           ++ specialize (Hpre c' Hc' Hn'). lia.
           ++ apply elem_of_cons in Hc' as [-> | Hc']; [exact Hlt |].
              specialize (Hpost c' Hc' Hn'). lia.
        -- intros c' Hc'. now apply elem_of_nil in Hc'.
      * apply Nat.ltb_ge in Hlt. split; [exact Hn0 |].
        exists pre, (post ++ [c]). split; [now rewrite <- app_assoc |].
        split; [exact Hpre |].
        intros c' Hc' Hn'. apply elem_of_app in Hc' as [Hc' | Hc'].
        -- now apply Hpost.
        -- now apply list_elem_of_singleton in Hc' as ->.
    + intros [= <-]. split; [exact En |].
      exists l, []. split; [reflexivity |]. split.
      * intros c' Hc' Hn'. exfalso.
        apply (winner_None _ _ Ew c' Hc'). congruence.
      * intros c' Hc'. now apply elem_of_nil in Hc'.
  - intros H. destruct (IH w H) as (Hn0 & pre & post & -> & Hpre & Hpost).
    split; [exact Hn0 |].
    exists pre, (post ++ [c]). split; [now rewrite <- app_assoc |].
    split; [exact Hpre |].
    intros c' Hc' Hn'. apply elem_of_app in Hc' as [Hc' | Hc'].
    + now apply Hpost.
    + apply list_elem_of_singleton in Hc' as ->.
      apply named_false in En. congruence.
Qed.

(** X6.  Every section that the merge keeps is the earliest candidate of its
    name with the greatest number of items: the candidates of that name
    before it have strictly fewer items, those after it have no more.  And
    the name of every candidate is the name of a kept section. *)
Theorem merge_keeps_earliest_largest (cands : list PreSection) :
  exists merged,
    merge_sections cands = Some merged
    /\ (forall s, s ∈ merged -> earliest_largest cands s)
    /\ (forall c, c ∈ cands ->
        exists s, s ∈ merged /\ original_name s = original_name c
                  /\ List.length (items c) <= List.length (items s)).
Proof.
  destruct (merge_sections_total cands) as (merged & Hm & Hnd & Hwin).
  exists merged. split; [exact Hm |].
  assert (Hkept : forall s, s ∈ merged -> earliest_largest cands s).
  { intros s Hs.
    destruct (find (named (original_name s)) merged) as [w |] eqn:Ef.
    - assert (w = s) as ->.
      { destruct (find_named_name _ _ _ Ef) as [Hn Hin].
        clear -Hnd Hs Hin Hn. unfold names in Hnd.
        induction merged as [| a u IHu]; [now apply elem_of_nil in Hs |].
        simpl in Hnd. apply NoDup_cons in Hnd as [Ha Hnd].
        apply elem_of_cons in Hs as [-> | Hs];
          apply elem_of_cons in Hin as [-> | Hin]; try reflexivity.
        - exfalso. apply Ha. apply list_elem_of_fmap. eauto.
        - exfalso. apply Ha. apply list_elem_of_fmap. exists s. auto.
        - now apply IHu. }
      rewrite Hwin in Ef. now apply winner_earliest_largest in Ef.
    - apply find_named_None in Ef. exfalso. apply Ef.
      unfold names. apply list_elem_of_fmap. eauto. }
  split; [exact Hkept |].
  intros c Hc. destruct (winner (original_name c) cands) as [w |] eqn:Ew.
  - assert (Hf := Hwin (original_name c)). rewrite Ew in Hf.
    destruct (find_named_name _ _ _ Hf) as [Hn Hin].
    exists w. split; [exact Hin |]. split; [exact Hn |].
    destruct (Hkept w Hin) as (pre & post & -> & Hpre & Hpost).
    apply elem_of_app in Hc as [Hc | Hc].
    + specialize (Hpre c Hc (eq_sym Hn)). lia.
    + apply elem_of_cons in Hc as [-> | Hc]; [lia |].
      exact (Hpost c Hc (eq_sym Hn)).
  - exfalso. exact (winner_None _ _ Ew c Hc eq_refl).
Qed.

Lemma merge_fold_distinct (u : list PreSection) (seen : gset string)
  (acc : list PreSection) :
  NoDup (names u) ->
  (forall n, n ∈ names u -> n ∉ seen) ->
  exists seen', fold_left merge_step u (Some (seen, acc)) = Some (seen', acc ++ u).
Proof.
  revert seen acc. induction u as [| a u IH]; intros seen acc Hnd Hfresh.
  - exists seen. simpl. now rewrite app_nil_r.
  - simpl in Hnd. apply NoDup_cons in Hnd as [Ha Hnd].
    cbn [fold_left merge_step].
    rewrite bool_decide_eq_true_2 by (apply Hfresh, list_elem_of_here).
    destruct (IH ({[original_name a]} ∪ seen) (acc ++ [a]) Hnd) as (seen' & Hs).
    + intros n Hn. rewrite elem_of_union, elem_of_singleton.
      intros [-> | Hin]; [contradiction |].
      revert Hin. apply Hfresh. now apply list_elem_of_further.
    + exists seen'. rewrite Hs. now rewrite <- app_assoc.
Qed.

(** X7.  Merging is idempotent: the merge of a merged list is that list. *)
Theorem merge_sections_idempotent (cands : list PreSection) :
  exists merged,
    merge_sections cands = Some merged /\ merge_sections merged = Some merged.
Proof.
  destruct (merge_sections_total cands) as (merged & Hm & Hnd & _).
  exists merged. split; [exact Hm |].
  unfold merge_sections.
  destruct (merge_fold_distinct merged ∅ [] Hnd) as (seen' & ->); [| reflexivity].
  intros n _. apply not_elem_of_empty.
Qed.

End MergeMore.

Section NameMore.
Import Text Regex Firecrawl.

Lemma lower_char_idempotent (c : ascii) : lower_char (lower_char c) = lower_char c.
Proof. destruct c as [[] [] [] [] [] [] [] []]; vm_compute; reflexivity. Qed.

Lemma lower_idempotent (s : string) : lower (lower s) = lower s.
Proof.
  unfold lower. rewrite chars_text, map_map. f_equal.
  apply map_ext. intros c. apply lower_char_idempotent.
Qed.

(** The two ways in which a section name comes about. *)
Lemma infer_section_name_cases (heading : string) :
  _infer_section_name heading ∈ map snd keyword_groups
  \/ _infer_section_name heading = slugify (lower heading).
Proof.
  unfold _infer_section_name, keyword_groups. cbv zeta.
  set (h := lower heading). cbn [map snd].
  repeat match goal with
         | |- context [contains ?k h] =>
             destruct (contains k h); cbn [orb andb];
             try (left;
                  solve [repeat first [apply list_elem_of_here
                                      | apply list_elem_of_further]])
         end.
  now right.
Qed.

(** The characters that a section name is made of. *)
Definition name_char (c : ascii) : bool :=
  (is_word c || is_space c) && negb (ascii_eqb c " ")
  && ascii_eqb (lower_char c) c.

Lemma slug_chars (cs : list ascii) :
  Forall (fun c => name_char c = true)
    (map (fun c => if ascii_eqb c " " then "_"%char else c)
         (List.filter (fun c => is_word c || is_space c) (map lower_char cs))).
Proof.
  induction cs as [| c cs IH]; [constructor |].
  cbn [map List.filter].
  destruct (is_word (lower_char c) || is_space (lower_char c)) eqn:E; [| exact IH].
  cbn [map]. constructor; [| exact IH].
  destruct (ascii_eqb (lower_char c) " ") eqn:Es; [vm_compute; reflexivity |].
  unfold name_char. rewrite E, Es, lower_char_idempotent.
  cbn [andb negb]. now apply ascii_eqb_eq.
Qed.

(** X8.  The name of a section does not depend on the case of the heading,
    and it is made of lower-case word characters and of blanks other than
    the space: it is its own lower-case form and holds no space. *)
Theorem infer_section_name_normal (heading : string) :
  _infer_section_name (lower heading) = _infer_section_name heading
  /\ Forall (fun c => name_char c = true) (chars (_infer_section_name heading))
  /\ lower (_infer_section_name heading) = _infer_section_name heading
  /\ ~ holds " " (_infer_section_name heading).
Proof.
  assert (Hchars :
    Forall (fun c => name_char c = true) (chars (_infer_section_name heading))).
  { destruct (infer_section_name_cases heading) as [H | ->].
    - assert (Hall : forallb (fun n => forallb name_char (chars n))
                             (map snd keyword_groups) = true)
        by (vm_compute; reflexivity).
      apply list_elem_of_In in H.
      apply (proj1 (forallb_forall _ _) Hall) in H.
      apply Forall_forall. intros c Hc. apply list_elem_of_In in Hc.
      exact (proj1 (forallb_forall _ _) H c Hc).
    - rewrite slugify_spec, chars_text. unfold lower. rewrite chars_text.
      apply slug_chars. }
  split; [| split; [exact Hchars | split]].
  - unfold _infer_section_name. cbv zeta. now rewrite lower_idempotent.
  - rewrite <- (text_chars (_infer_section_name heading)) at 2.
    unfold lower. f_equal.
    induction Hchars as [| c l Hc _ IH]; simpl; [reflexivity |].
    rewrite IH. f_equal. unfold name_char in Hc.
    apply andb_true_iff in Hc as [_ Hc]. now apply ascii_eqb_eq.
  - unfold holds. intros Hin.
    apply (proj1 (Forall_forall _ _) Hchars) in Hin. discriminate Hin.
Qed.

End NameMore.

(* ===================================================================== *)
(** ** What a match consumes *)
(* ===================================================================== *)

Section MatchFacts.
Import Text Regex.

(** The matcher moves from state [s] to state [s'] over the characters [w]. *)
Definition reaches (s s' : mstate) (w : list ascii) : Prop :=
  before s' = rev w ++ before s /\ after s = w ++ after s'.

Lemma reaches_refl (s : mstate) : reaches s s [].
Proof. now split. Qed.

Lemma reaches_trans (s1 s2 s3 : mstate) (w1 w2 : list ascii) :
  reaches s1 s2 w1 -> reaches s2 s3 w2 -> reaches s1 s3 (w1 ++ w2).
Proof.
  intros [Hb1 Ha1] [Hb2 Ha2]. split.
  - now rewrite Hb2, Hb1, rev_app_distr, <- app_assoc.
  - now rewrite Ha1, Ha2, <- app_assoc.
Qed.

Lemma many_inv (p : ascii -> bool) (post pre : list ascii) (g : list (nat * string))
  (k : mstate -> option mstate) (res : mstate) :
  many p pre post g k = Some res ->
  exists s' w, k s' = Some res /\ reaches (MState pre post g) s' w
               /\ Forall (fun c => p c = true) w.
Proof.
  revert pre. induction post as [| c t IH]; intros pre; simpl.
  - intros H. exists (MState pre [] g), []. split; [exact H |].
    split; [apply reaches_refl | constructor].
  - destruct (p c) eqn:Hc.
    + destruct (many p (c :: pre) t g k) as [r |] eqn:Hm.
      * intros [= <-]. destruct (IH _ Hm) as (s' & w & Hk & [Hb Ha] & Hw).
        exists s', (c :: w). split; [exact Hk |]. split.
        -- split; simpl in *; [now rewrite Hb, <- app_assoc | now rewrite Ha].
        -- now constructor.
      * intros H. exists (MState pre (c :: t) g), []. split; [exact H |].
        split; [apply reaches_refl | constructor].
    + intros H. exists (MState pre (c :: t) g), []. split; [exact H |].
      split; [apply reaches_refl | constructor].
Qed.

Lemma few_inv (p : ascii -> bool) (post pre : list ascii) (g : list (nat * string))
  (k : mstate -> option mstate) (res : mstate) :
  few p pre post g k = Some res ->
  exists s' w, k s' = Some res /\ reaches (MState pre post g) s' w
               /\ Forall (fun c => p c = true) w.
Proof.
  revert pre. induction post as [| c t IH]; intros pre; simpl.
  - destruct (k (MState pre [] g)) as [r |] eqn:Hk; [| discriminate].
    intros [= <-]. exists (MState pre [] g), []. split; [exact Hk |].
    split; [apply reaches_refl | constructor].
  - destruct (k (MState pre (c :: t) g)) as [r |] eqn:Hk.
    + intros [= <-]. exists (MState pre (c :: t) g), []. split; [exact Hk |].
      split; [apply reaches_refl | constructor].
    + destruct (p c) eqn:Hc; [| discriminate].
      intros H. destruct (IH _ H) as (s' & w & Hk' & [Hb Ha] & Hw).
      exists s', (c :: w). split; [exact Hk' |]. split.
      * split; simpl in *; [now rewrite Hb, <- app_assoc | now rewrite Ha].
      * now constructor.
Qed.

(** A successful run calls its continuation at a state that lies further on
    in the same text. *)
Lemma run_inv (r : re) (s : mstate) (k : mstate -> option mstate) (res : mstate) :
  run r s k = Some res ->
  exists s' w, k s' = Some res /\ reaches s s' w.
Proof.
  revert s k res. induction r as [| p | a IHa b IHb | a IHa b IHb | p | p | i a IHa
                                  | a IHa | ml | ml |]; intros s k res; cbn [run].
  - intros H. exists s, []. split; [exact H | apply reaches_refl].
  - destruct (after s) as [| c t] eqn:Ha; [discriminate |].
    destruct (p c); [| discriminate]. intros H.
    eexists _, [c]. split; [exact H |]. split; [reflexivity | exact Ha].
  - intros H. apply IHa in H as (s1 & w1 & H & H1).
    apply IHb in H as (s2 & w2 & H & H2).
    exists s2, (w1 ++ w2). split; [exact H | now apply (reaches_trans s s1 s2)].
  - destruct (run a s k) as [x |] eqn:Hx.
    + intros [= <-]. now apply IHa.
    + apply IHb.
  - intros H. apply many_inv in H as (s' & w & H & Hr & _).
    exists s', w. split; [exact H |]. destruct s. exact Hr.
  - intros H. apply few_inv in H as (s' & w & H & Hr & _).
    exists s', w. split; [exact H |]. destruct s. exact Hr.
  - intros H. apply IHa in H as (s' & w & H & Hr).
    eexists _, w. split; [exact H |]. exact Hr.
  - destruct (run a s Some); [| discriminate].
    intros H. exists s, []. split; [exact H | apply reaches_refl].
  - destruct (if ml then _ else _); [| discriminate].
    intros H. exists s, []. split; [exact H | apply reaches_refl].
  - destruct (if ml then _ else _); [| discriminate].
    intros H. exists s, []. split; [exact H | apply reaches_refl].
  - destruct (after s); [| discriminate].
    intros H. exists s, []. split; [exact H | apply reaches_refl].
Qed.

Lemma consumed_reaches (s s' : mstate) (w : list ascii) :
  reaches s s' w -> consumed s s' = text w.
Proof.
  intros [Hb _]. unfold consumed. rewrite Hb, length_app, length_rev.
  replace (List.length w + List.length (before s) - List.length (before s))
    with (List.length (rev w)) by (rewrite length_rev; lia).
  now rewrite take_app_length, rev_involutive.
Qed.

(** The whole match is a piece of the text that was searched. *)
Lemma match_here_inv (r : re) (pre post : list ascii) (m : rmatch) :
  match_here r pre post = Some m ->
  exists w rest, post = w ++ rest /\ m_all m = text w.
Proof.
  unfold match_here. destruct (run r _ Some) as [s' |] eqn:H; [| discriminate].
  intros [= <-]. apply run_inv in H as (s1 & w & [= ->] & Hr).
  exists w, (after s'). split; [apply Hr | now apply consumed_reaches].
Qed.

Lemma search_from_inv (r : re) (post pre : list ascii) (m : rmatch) :
  search_from r pre post = Some m ->
  exists skipped w rest, post = skipped ++ w ++ rest /\ m_all m = text w.
Proof.
  revert pre. induction post as [| c t IH]; intros pre; cbn [search_from].
  - destruct (match_here r pre []) as [m' |] eqn:H; [| discriminate].
    intros [= <-]. apply match_here_inv in H as (w & rest & Hp & Hm).
    now exists [], w, rest.
  - destruct (match_here r pre (c :: t)) as [m' |] eqn:H.
    + intros [= <-]. apply match_here_inv in H as (w & rest & Hp & Hm).
      now exists [], w, rest.
    + intros Hs. apply IH in Hs as (sk & w & rest & -> & Hm).
      now exists (c :: sk), w, rest.
Qed.

Lemma search_from_here (r : re) (post pre : list ascii) (m : rmatch) :
  search_from r pre post = Some m ->
  exists pre' post', match_here r pre' post' = Some m.
Proof.
  revert pre. induction post as [| c t IH]; intros pre; cbn [search_from].
  - destruct (match_here r pre []) as [m' |] eqn:H; [| discriminate].
    intros [= <-]. eauto.
  - destruct (match_here r pre (c :: t)) as [m' |] eqn:H; [intros [= <-]; eauto |].
    apply IH.
Qed.

(** What [re.search] finds is in the text. *)
Lemma re_search_contains (r : re) (s : string) (m : rmatch) :
  re_search r s = Some m -> contains (m_all m) s = true.
Proof.
  unfold re_search, contains. intros H.
  apply search_from_inv in H as (sk & w & rest & -> & ->).
  rewrite chars_text. apply has_infix_spec. eauto.
Qed.

End MatchFacts.

(* ===================================================================== *)
(** ** The record of the text parser *)
(* ===================================================================== *)

Section TextParserFacts.
Import Text Regex TextParser.

Lemma map_fixed {A : Type} (f : A -> A) (l : list A) :
  Forall (fun x => f x = x) l -> map f l = l.
Proof.
  induction 1 as [| x l Hx _ IH]; simpl; [reflexivity |].
  now rewrite Hx, IH.
Qed.

Lemma clean_lines_spec (ls : list string) :
  Forall (fun line => strip line = line /\ line <> "") (clean_lines ls).
Proof.
  unfold clean_lines. apply Forall_forall. intros x Hx.
  apply list_elem_of_fmap in Hx as (y & -> & Hy).
  apply elem_of_list_filter in Hy as [_ Hy].
  apply negb_true_iff, String.eqb_neq in Hy.
  split; [apply strip_idempotent | exact Hy].
Qed.

Lemma clean_lines_fixed (ls : list string) :
  Forall (fun line => strip line = line /\ line <> "") ls -> clean_lines ls = ls.
Proof.
  intros H. unfold clean_lines. rewrite filter_all.
  - apply map_fixed. eapply Forall_impl; [exact H |]. now intros x [Hx _].
  - eapply Forall_impl; [exact H |]. intros x [Hx Hne]. simpl.
    rewrite Hx. now apply negb_true_iff, String.eqb_neq.
Qed.

Lemma clean_lines_free (ls : list string) :
  Forall (fun line => ~ holds NL line) ls ->
  Forall (fun line => ~ holds NL line) (clean_lines ls).
Proof.
  intros H. unfold clean_lines. apply Forall_forall. intros x Hx.
  apply list_elem_of_fmap in Hx as (y & -> & Hy).
  apply elem_of_list_filter in Hy as [Hy _].
  apply strip_keeps_free. revert y Hy. now apply Forall_forall.
Qed.

(** X9.  The text of the record has no blank line and no line with blanks at
    either end: its lines are the trimmed non-blank lines of the input, in
    order.  Parsing the text of the record again gives the same text. *)
Theorem parsed_text_is_clean (txt default_url : string) :
  let r := parse_text_to_property_data txt default_url in
  (clean_text r = "" \/ lines (clean_text r) = clean_lines (lines txt))
  /\ Forall (fun line => strip line = line) (lines (clean_text r))
  /\ (clean_text r <> "" -> Forall (fun line => line <> "") (lines (clean_text r)))
  /\ clean_text (parse_text_to_property_data (clean_text r) default_url) = clean_text r.
Proof.
  cbv zeta. unfold parse_text_to_property_data. cbn [clean_text].
  destruct (clean_lines (lines txt)) as [| x xs] eqn:E.
  - change (join nl []) with "". change (lines "") with [""].
    split; [now left |]. split; [repeat constructor |].
    split; [intros H; now contradiction H |]. vm_compute. reflexivity.
  - assert (Hl : lines (join nl (x :: xs)) = x :: xs).
    { apply lines_join; [discriminate |]. rewrite <- E.
      apply clean_lines_free, lines_free. }
    assert (Hs := clean_lines_spec (lines txt)). rewrite E in Hs.
    rewrite Hl. split; [now right |]. split; [| split].
    + eapply Forall_impl; [exact Hs |]. now intros y [Hy _].
    + intros _. eapply Forall_impl; [exact Hs |]. now intros y [_ Hy].
    + now rewrite (clean_lines_fixed _ Hs).
Qed.

Lemma drop_while_snoc (p : ascii -> bool) (l : list ascii) (c : ascii) :
  p c = false -> drop_while p (l ++ [c]) <> [].
Proof.
  intros Hc. induction l as [| a l IH]; simpl.
  - now rewrite Hc.
  - destruct (p a); [exact IH | discriminate].
Qed.

Lemma strip_nonempty (c : ascii) (w : list ascii) :
  is_space c = false -> strip (text (c :: w)) <> "".
Proof.
  intros Hc. unfold strip, strip_with. rewrite chars_text.
  cbn [drop_while]. rewrite Hc. cbn [rev].
  intros H. apply (f_equal chars) in H. rewrite chars_text in H.
  change (chars "") with (@nil ascii) in H.
  apply (f_equal (@rev ascii)) in H. rewrite rev_involutive in H.
  now apply (drop_while_snoc is_space (rev w) c Hc).
Qed.

Lemma upper_not_space (c : ascii) : between 65 90 c = true -> is_space c = false.
Proof.
  destruct c as [[] [] [] [] [] [] [] []]; vm_compute; congruence.
Qed.

(** The name that the third strategy finds starts with a capital letter. *)
Lemma building_group (line : string) (m : rmatch) :
  re_search building_re line = Some m ->
  exists c w, group 1 m = text (c :: w) /\ between 65 90 c = true.
Proof.
  unfold re_search. intros H.
  apply search_from_here in H as (pre & post & H). revert H.
  unfold match_here, building_re. cbn [seq].
  set (rest := Cat (Plus name_body) _). cbn [run after before].
  destruct post as [| c t]; [discriminate |].
  destruct (between 65 90 c) eqn:Hc; [| discriminate].
  destruct (run rest _ _) as [res |] eqn:Hr; [| discriminate].
  intros [= <-]. apply run_inv in Hr as (s' & w & [= <-] & Hreach).
  exists c, w. split; [| exact Hc].
  unfold group. cbn [m_groups groups find fst snd Nat.eqb].
  apply consumed_reaches. destruct Hreach as [Hb Ha]. cbn [before after] in *.
  split; cbn [before after rev]; [now rewrite Hb, <- app_assoc | now rewrite Ha].
Qed.

Lemma labelled_name_spec (ls : list string) (name : string) :
  labelled_name ls = Some name -> strip name = name /\ 3 < len name < 100.
Proof.
  induction ls as [| line rest IH]; [discriminate |]. cbn [labelled_name].
  destruct (re_search name_label_re line) as [m |]; [| exact IH].
  destruct (_ && _) eqn:E; [| exact IH].
  intros [= <-]. apply andb_true_iff in E as [E1 E2].
  apply Nat.ltb_lt in E1, E2. split; [apply strip_idempotent | lia].
Qed.

Lemma first_plain_line_spec (ls : list string) (name : string) :
  first_plain_line ls = Some name ->
  strip name = name /\ 3 < len name < 100 /\ generic_start name = false.
Proof.
  induction ls as [| line rest IH]; [discriminate |]. cbn [first_plain_line].
  destruct (_ && _) eqn:E; [| exact IH].
  intros [= <-]. apply andb_true_iff in E as [E E4].
  apply andb_true_iff in E as [E E3]. apply andb_true_iff in E as [_ E2].
  apply Nat.ltb_lt in E2, E3. apply negb_true_iff in E4.
  split; [apply strip_idempotent |]. split; [lia | exact E4].
Qed.

Lemma first_group1_spec (r : re) (ls : list string) (x : string) :
  first_group1 r ls = Some x ->
  exists line m, line ∈ ls /\ re_search r line = Some m /\ x = strip (group 1 m).
Proof.
  induction ls as [| line rest IH]; [discriminate |]. cbn [first_group1].
  destruct (re_search r line) as [m |] eqn:E.
  - intros [= <-]. exists line, m. split; [apply list_elem_of_here | auto].
  - intros H. apply IH in H as (l & m & Hin & Hs & Hx).
    exists l, m. split; [now apply list_elem_of_further | auto].
Qed.

Lemma len_nonempty (s : string) : 0 < len s -> s <> "".
Proof. intros H ->. simpl in H. lia. Qed.

(** X10.  The name of the record is never empty and has no blanks at either
    end, and the same holds of the location and of the provider with regard
    to blanks.  The title is the name followed by the fixed suffix. *)
Theorem parsed_text_fields_trimmed (txt default_url : string) :
  let r := parse_text_to_property_data txt default_url in
  property_name r <> ""
  /\ strip (property_name r) = property_name r
  /\ (forall x, location r = Some x -> strip x = x)
  /\ (forall x, provider r = Some x -> strip x = x)
  /\ title r = property_name r +:+ " | Property Details".
Proof.
  cbv zeta. unfold parse_text_to_property_data.
  cbn [property_name location provider title].
  assert (Hname : text_property_name (lines txt) <> ""
                  /\ strip (text_property_name (lines txt))
                     = text_property_name (lines txt)).
  { unfold text_property_name. cbv zeta.
    destruct (labelled_name _) as [n1 |] eqn:E1.
    - apply labelled_name_spec in E1 as [Hs Hl].
      destruct (n1 =? unknown)%string eqn:Eu.
      + apply String.eqb_eq in Eu. subst n1.
        destruct (first_plain_line _) as [n2 |] eqn:E2.
        * apply first_plain_line_spec in E2 as (Hs2 & Hl2 & _).
          destruct (n2 =? unknown)%string eqn:Eu2.
          -- apply String.eqb_eq in Eu2. subst n2.
             destruct (first_group1 _ _) as [n3 |] eqn:E3.
             ++ apply first_group1_spec in E3 as (l & m & _ & Hm & ->).
                apply building_group in Hm as (c & w & -> & Hc).
                split; [apply strip_nonempty, upper_not_space, Hc
                       | apply strip_idempotent].
             ++ split; [discriminate | vm_compute; reflexivity].
          -- split; [apply len_nonempty; lia | exact Hs2].
        * rewrite String.eqb_refl.
          destruct (first_group1 _ _) as [n3 |] eqn:E3.
          -- apply first_group1_spec in E3 as (l & m & _ & Hm & ->).
             apply building_group in Hm as (c & w & -> & Hc).
             split; [apply strip_nonempty, upper_not_space, Hc
                    | apply strip_idempotent].
          -- split; [discriminate | vm_compute; reflexivity].
      + rewrite Eu. split; [apply len_nonempty; lia | exact Hs].
    - rewrite String.eqb_refl.
      destruct (first_plain_line _) as [n2 |] eqn:E2.
      + apply first_plain_line_spec in E2 as (Hs2 & Hl2 & _).
        destruct (n2 =? unknown)%string eqn:Eu2.
        * apply String.eqb_eq in Eu2. subst n2.
          destruct (first_group1 _ _) as [n3 |] eqn:E3.
          -- apply first_group1_spec in E3 as (l & m & _ & Hm & ->).
             apply building_group in Hm as (c & w & -> & Hc).
             split; [apply strip_nonempty, upper_not_space, Hc
                    | apply strip_idempotent].
          -- split; [discriminate | vm_compute; reflexivity].
        * split; [apply len_nonempty; lia | exact Hs2].
      + rewrite String.eqb_refl.
        destruct (first_group1 _ _) as [n3 |] eqn:E3.
        * apply first_group1_spec in E3 as (l & m & _ & Hm & ->).
          apply building_group in Hm as (c & w & -> & Hc).
          split; [apply strip_nonempty, upper_not_space, Hc
                 | apply strip_idempotent].
        * split; [discriminate | vm_compute; reflexivity]. }
  destruct Hname as [Hne Hs].
  split; [exact Hne |]. split; [exact Hs |]. split; [| split; [| reflexivity]].
  - intros x Hx. apply first_group1_spec in Hx as (l & m & _ & _ & ->).
    apply strip_idempotent.
  - intros x Hx. apply first_group1_spec in Hx as (l & m & _ & _ & ->).
    apply strip_idempotent.
Qed.

Lemma len_append (a b : string) : len (a +:+ b) = len a + len b.
Proof. now rewrite !len_chars, chars_append, length_app. Qed.

(** X11.  The record is bounded: at most 20 images and 50 links, and a
    description of at most 203 characters, which is the text itself when
    that has at most 200 characters and its first 200 characters followed by
    three dots otherwise.  The URL of the record is never among its links. *)
Theorem parsed_text_bounds (txt default_url : string) :
  let r := parse_text_to_property_data txt default_url in
  List.length (images r) <= 20
  /\ List.length (links r) <= 50
  /\ (url r ∉ links r)
  /\ len (description r) <= 203
  /\ (len (clean_text r) <= 200 -> description r = clean_text r)
  /\ (200 < len (clean_text r) ->
      description r = text (take 200 (chars (clean_text r))) +:+ "..."
      /\ len (description r) = 203).
Proof.
  cbv zeta. unfold parse_text_to_property_data.
  cbn [images links url description clean_text].
  set (clean := join nl (clean_lines (lines txt))).
  set (u := Parsers.text_url_loop (lines txt) default_url).
  assert (Hlong : 200 < len clean ->
                  len (text (take 200 (chars clean)) +:+ "...") = 203).
  { intros H.
    rewrite len_append, (len_chars (text _)), chars_text, length_take, <- len_chars.
    change (len "...") with 3. lia. }
  split; [rewrite length_take; lia |]. split; [rewrite length_take; lia |].
  split; [| split; [| split]].
  - intros Hin. apply elem_of_take in Hin as (i & Hin & _).
    apply list_elem_of_lookup_2 in Hin.
    apply elem_of_list_filter in Hin as [_ Hin].
    apply negb_true_iff, String.eqb_neq in Hin. now apply Hin.
  - unfold summary. destruct (200 <? len clean)%nat eqn:E.
    + apply Nat.ltb_lt in E. rewrite (Hlong E). lia.
    + apply Nat.ltb_ge in E. lia.
  - intros H. unfold summary. apply Nat.ltb_ge in H. now rewrite H.
  - intros H. unfold summary. assert (E := H). apply Nat.ltb_lt in E. rewrite E.
    split; [reflexivity | now apply Hlong].
Qed.

(** X12.  The URL of the record is the default URL, or it starts with
    [http] and is a URL-like piece of a line of the input, with [https://]
    put before it when that piece does not start with [http]. *)
Theorem parsed_text_url (txt default_url : string) :
  let r := parse_text_to_property_data txt default_url in
  url r = default_url
  \/ (startswith "http" (url r) = true
      /\ exists line found,
           line ∈ lines txt /\ contains found line = true
           /\ url r = (if startswith "http" found then found
                       else "https://" +:+ found)).
Proof.
  cbv zeta. unfold parse_text_to_property_data. cbn [url].
  induction (lines txt) as [| line rest IH]; [now left |].
  cbn [Parsers.text_url_loop].
  destruct (re_search Parsers.text_url_pattern line) as [m |] eqn:E.
  - right. apply re_search_contains in E. split.
    + destruct (startswith "http" (m_all m)) eqn:Es; cbn [negb]; [exact Es |].
      unfold startswith. now rewrite chars_append.
    + exists line, (m_all m). split; [apply list_elem_of_here |].
      split; [exact E |]. now destruct (startswith "http" (m_all m)).
  - destruct IH as [IH | (Hs & l & f & Hin & Hc & Hu)]; [now left |].
    right. split; [exact Hs |]. exists l, f.
    split; [now apply list_elem_of_further | auto].
Qed.

End TextParserFacts.

(* ===================================================================== *)
(** ** The fields of a JSON document *)
(* ===================================================================== *)

Section JsonFieldFacts.
Import Text Py JsonFields.

Definition name_keys : list string :=
  ["property_name"; "name"; "title"; "property"; "propertyName"].

Definition url_keys : list string :=
  ["url"; "source_link"; "link"; "property_url"; "website"; "sourceUrl"].

Definition provider_keys : list string := ["provider"; "source"; "host"; "owner_name"].

(** The first truthy value among those of the keys, or the default. *)
Definition first_truthy (data : pydict) (keys : list string) (default : pyval) : pyval :=
  match find truthy (map (get data) keys) with
  | Some v => v
  | None => default
  end.

Lemma first_truthy_truthy (data : pydict) (keys : list string) (default : pyval) :
  truthy default = true -> truthy (first_truthy data keys default) = true.
Proof.
  intros Hd. unfold first_truthy.
  destruct (find truthy _) as [v |] eqn:E; [| exact Hd].
  now apply find_some in E.
Qed.

(** X13.  The name, the URL and the provider of a JSON document are the
    first truthy value among their aliases, in the order of the source; an
    alias that is missing, null or empty is passed over.  Name and URL fall
    back on their placeholders and so are never falsy; the provider is
    [None] or truthy, never an empty string. *)
Theorem json_alias_resolution (data : pydict) :
  json_property_name data = first_truthy data name_keys (PStr "Unknown Property")
  /\ json_url data = first_truthy data url_keys (PStr "https://example.com")
  /\ json_provider data = first_truthy data provider_keys PNone
  /\ truthy (json_property_name data) = true
  /\ truthy (json_url data) = true
  /\ (json_provider data = PNone \/ truthy (json_provider data) = true).
Proof.
  assert (Hn : json_property_name data
               = first_truthy data name_keys (PStr "Unknown Property")).
  { unfold json_property_name, first_truthy, name_keys, por. cbn [map find].
    repeat match goal with
           | |- context [truthy (get data ?k)] => destruct (truthy (get data k))
           end; reflexivity. }
  assert (Hu : json_url data = first_truthy data url_keys (PStr "https://example.com")).
  { unfold json_url, first_truthy, url_keys, por. cbn [map find].
    repeat match goal with
           | |- context [truthy (get data ?k)] => destruct (truthy (get data k))
           end; reflexivity. }
  assert (Hp : json_provider data = first_truthy data provider_keys PNone).
  { unfold json_provider, first_truthy, provider_keys, por. cbn [map find].
    repeat match goal with
           | |- context [truthy (get data ?k)] => destruct (truthy (get data k))
           end; reflexivity. }
  split; [exact Hn |]. split; [exact Hu |]. split; [exact Hp |].
  split; [rewrite Hn; now apply first_truthy_truthy |].
  split; [rewrite Hu; now apply first_truthy_truthy |].
  rewrite Hp. unfold first_truthy.
  destruct (find truthy _) as [v |] eqn:E; [| now left].
  right. now apply find_some in E.
Qed.

End JsonFieldFacts.

(* ===================================================================== *)
(** ** The title of a scraped page *)
(* ===================================================================== *)

Section ScraperFacts.
Import Text Scraper.

Lemma contains_spec (x s : string) :
  contains x s = true <-> exists a b, s = a +:+ x +:+ b.
Proof.
  unfold contains. rewrite has_infix_spec. split.
  - intros (q & r & H). exists (text q), (text r).
    rewrite <- (text_chars s), H, !text_app. now rewrite text_chars.
  - intros (a & b & ->). exists (chars a), (chars b). now rewrite !chars_append.
Qed.

Lemma append_assoc (a b c : string) : (a +:+ b) +:+ c = a +:+ (b +:+ c).
Proof.
  rewrite <- (text_chars ((a +:+ b) +:+ c)), <- (text_chars (a +:+ (b +:+ c))).
  now rewrite !chars_append, app_assoc.
Qed.

(** A text without [x] has no piece with [x]. *)
Lemma contains_mono (x a s : string) :
  contains a s = true -> contains x s = false -> contains x a = false.
Proof.
  intros Ha Hx. destruct (contains x a) eqn:E; [| reflexivity].
  apply contains_spec in Ha as (p & q & ->). apply contains_spec in E as (u & v & ->).
  assert (H : contains x (p +:+ (u +:+ x +:+ v) +:+ q) = true).
  { apply contains_spec. exists (p +:+ u), (v +:+ q).
    now rewrite !append_assoc. }
  congruence.
Qed.

Lemma contains_prefix_of (p rest : string) : contains p (p +:+ rest) = true.
Proof. apply contains_spec. now exists "", rest. Qed.

Lemma strip_infix (s : string) : contains (strip s) s = true.
Proof.
  unfold contains, strip. rewrite chars_text. apply has_infix_spec.
  unfold strip_with.
  destruct (drop_while_suffix is_space (chars s)) as [pre Hpre].
  destruct (drop_while_suffix is_space (rev (drop_while is_space (chars s))))
    as [pre2 Hpre2].
  exists pre, (rev pre2). rewrite Hpre at 1. f_equal.
  rewrite <- rev_app_distr, <- Hpre2. now rewrite rev_involutive.
Qed.

Lemma append_empty (s : string) : s +:+ "" = s.
Proof.
  rewrite <- (text_chars (s +:+ "")), chars_append. simpl.
  now rewrite app_nil_r, text_chars.
Qed.

Lemma cut_at_prefix (n suffix : string) :
  suffix <> "" -> exists rest, n = cut_at n suffix +:+ rest.
Proof.
  intros Hne. unfold cut_at. destruct (contains suffix n) eqn:E.
  - destruct (split_str_first suffix n Hne E) as (p & rest & tl & -> & Hs & _).
    now exists (suffix +:+ rest).
  - exists "". now rewrite append_empty.
Qed.

Lemma cut_at_free (n suffix : string) :
  suffix <> "" -> contains suffix (cut_at n suffix) = false.
Proof.
  intros Hne. unfold cut_at. destruct (contains suffix n) eqn:E; [| exact E].
  destruct (split_str_first suffix n Hne E) as (p & rest & tl & -> & Hs & Hmin).
  destruct (contains suffix p) eqn:Ep; [| reflexivity].
  apply contains_spec in Ep as (u & v & Hp).
  assert (Hlen : len p <= len u).
  { apply (Hmin u (v +:+ suffix +:+ rest)). rewrite Hs, Hp.
    now rewrite !append_assoc. }
  rewrite Hp, !len_append in Hlen.
  assert (0 < len suffix) by (destruct suffix; [contradiction | simpl; lia]).
  lia.
Qed.

Lemma fold_cut_at (l : list string) (n : string) :
  Forall (fun suffix => suffix <> "") l ->
  (exists rest, n = fold_left cut_at l n +:+ rest)
  /\ Forall (fun suffix => contains suffix (fold_left cut_at l n) = false) l.
Proof.
  intros Hl. revert n. induction Hl as [| s l Hs _ IH]; intros n; simpl.
  - split; [exists ""; now rewrite append_empty | constructor].
  - destruct (IH (cut_at n s)) as ((rest1 & H1) & Hfree).
    destruct (cut_at_prefix n s Hs) as (rest0 & H0).
    split.
    + exists (rest1 +:+ rest0). rewrite <- append_assoc, <- H1. exact H0.
    + constructor; [| exact Hfree].
      apply (contains_mono s _ (cut_at n s)); [| now apply cut_at_free].
      apply contains_spec. exists "", rest1. exact H1.
Qed.

Lemma fold_cut_at_id (l : list string) (n : string) :
  contains_any l n = false -> fold_left cut_at l n = n.
Proof.
  induction l as [| s l IH]; simpl; [reflexivity |].
  intros H. apply orb_false_iff in H as [Hs Hl].
  unfold cut_at at 2. rewrite Hs. now apply IH.
Qed.

(** X14.  The name taken from the title of a scraped page holds none of the
    four site suffixes and has no blanks at either end; it is a piece of the
    title, and the trimmed title itself when the title holds no suffix. *)
Theorem scraped_property_name_clean (title : string) :
  Forall (fun suffix => contains suffix (scraped_property_name title) = false)
         title_suffixes
  /\ strip (scraped_property_name title) = scraped_property_name title
  /\ contains (scraped_property_name title) title = true
  /\ (contains_any title_suffixes title = false ->
      scraped_property_name title = strip title).
Proof.
  unfold scraped_property_name.
  assert (Hne : Forall (fun suffix => suffix <> "") title_suffixes)
    by (repeat constructor; discriminate).
  destruct (fold_cut_at title_suffixes title Hne) as ((rest & Hpre) & Hfree).
  set (cut := fold_left cut_at title_suffixes title) in *.
  split; [| split; [apply strip_idempotent | split]].
  - eapply Forall_impl; [exact Hfree |]. intros suffix Hs. simpl in Hs.
    apply (contains_mono suffix _ cut); [apply strip_infix | exact Hs].
  - destruct (contains (strip cut) title) eqn:E; [reflexivity |].
    assert (Hc : contains cut title = true)
      by (apply contains_spec; exists "", rest; exact Hpre).
    pose proof (contains_mono (strip cut) cut title Hc E) as H.
    now rewrite strip_infix in H.
  - intros H. unfold cut. now rewrite fold_cut_at_id.
Qed.

End ScraperFacts.

(* ===================================================================== *)
(** ** Retries of the language-model client *)
(* ===================================================================== *)

Section RetryFacts.
Import Text Py LlmClient.

Variable generate : Z -> outcome string.

Lemma attempts_outcome (retries : Z) (todo : nat) (attempt : Z) :
  (attempt + Z.of_nat todo = retries)%Z ->
  (0 < todo)%nat ->
  exists i,
    (attempt <= i < retries)%Z
    /\ attempts generate retries todo attempt = generate i
    /\ (forall j, (attempt <= j < i)%Z -> exists e, generate j = Raise e)
    /\ ((i < retries - 1)%Z -> exists answer, generate i = Return answer).
Proof.
  revert attempt. induction todo as [| todo IH]; intros attempt Hsum Hpos; [lia |].
  cbn [attempts]. destruct (generate attempt) as [answer | e] eqn:E.
  - exists attempt. split; [lia |]. split; [now rewrite E |].
    split; [intros j Hj; lia | intros _; now exists answer].
  - destruct (attempt =? retries - 1)%Z eqn:Elast.
    + apply Z.eqb_eq in Elast. exists attempt. split; [lia |].
      split; [now rewrite E |]. split; [intros j Hj; lia | intros H; lia].
    + apply Z.eqb_neq in Elast.
      destruct (IH (attempt + 1)%Z) as (i & Hi & Hout & Hbefore & Hlast); [lia | lia |].
      exists i. split; [lia |]. split; [exact Hout |]. split; [| exact Hlast].
      intros j Hj. destruct (Z.eq_dec j attempt) as [-> | Hne]; [now exists e |].
      apply Hbefore. lia.
Qed.

(** X15.  With one retry or more, the call gives the outcome of one attempt
    among the first [retries]: all attempts before it raised, and it either
    returned or was the last one, whose exception is raised again.  The
    empty string after the loop is returned only when [retries] is zero or
    negative. *)
Theorem generate_with_retries_outcome (retries : Z) :
  ((retries <= 0)%Z -> generate_with_retries generate retries = Return "")
  /\ ((0 < retries)%Z ->
      exists i,
        (0 <= i < retries)%Z
        /\ generate_with_retries generate retries = generate i
        /\ (forall j, (0 <= j < i)%Z -> exists e, generate j = Raise e)
        /\ ((i < retries - 1)%Z -> exists answer, generate i = Return answer)).
Proof.
  unfold generate_with_retries. split.
  - intros H. destruct retries as [| p | p]; [reflexivity | lia | reflexivity].
  - intros H. apply attempts_outcome; lia.
Qed.

End RetryFacts.

(* ===================================================================== *)
(** ** The outcomes of the extractor *)
(* ===================================================================== *)

Section ExtractorFacts.
Import Text Py Extractor.

Variable llm_extract : pyval -> pyval -> pyval -> option pyval.

(** X16.  The extractor raises in two cases only: when the extracted content
    of the input is not a dictionary, and when its text is a value without a
    length.  With no extracted content or no text at all the result is the
    empty result, and so it is when the call of the model fails; for a text
    of 50 characters or more the result is otherwise the answer of the
    model. *)
Theorem extract_outcomes (raw_data : pydict) :
  let name := get_default raw_data "property_name" (PStr "Unknown") in
  let url := get_default raw_data "url" (PStr "") in
  let empty := Return (PDict (_empty_result name url)) in
  (lookup_key "extracted_content" raw_data = None ->
   extract llm_extract raw_data = empty)
  /\ (forall content,
        lookup_key "extracted_content" raw_data = Some (PDict content) ->
        lookup_key "text" content = None ->
        extract llm_extract raw_data = empty)
  /\ (forall content txt,
        lookup_key "extracted_content" raw_data = Some (PDict content) ->
        lookup_key "text" content = Some (PStr txt) ->
        50 <= len txt ->
        extract llm_extract raw_data =
          match llm_extract (PStr txt) name url with
          | Some result => Return result
          | None => empty
          end)
  /\ ((exists e, extract llm_extract raw_data = Raise e) <->
      (exists v, lookup_key "extracted_content" raw_data = Some v
                 /\ forall content, v <> PDict content)
      \/ (exists content v,
            lookup_key "extracted_content" raw_data = Some (PDict content)
            /\ lookup_key "text" content = Some v /\ py_len v = None)).
Proof.
  cbv zeta. unfold extract, get_default. split; [| split; [| split]].
  - intros ->. reflexivity.
  - intros content -> ->. reflexivity.
  - intros content txt -> -> Hlen. cbn [py_len truthy].
    assert (Hne : (txt =? "")%string = false).
    { apply String.eqb_neq. intros ->. simpl in Hlen. lia. }
    apply Nat.ltb_ge in Hlen. rewrite Hne, Hlen. cbn [negb orb].
    now destruct (llm_extract _ _ _).
  - destruct (lookup_key "extracted_content" raw_data) as [v |] eqn:Ec.
    + destruct v as [| b | z | sh nz | s | l | content];
        try (split; [intros _; left; eexists; split; [reflexivity | discriminate]
                    | intros _; eexists; reflexivity]).
      destruct (lookup_key "text" content) as [t |] eqn:Et.
      * destruct (py_len t) as [n |] eqn:El.
        -- split.
           ++ intros [e He]. exfalso.
              destruct (negb (truthy t) || (n <? 50)%nat); [discriminate |].
              destruct (llm_extract _ _ _); discriminate.
           ++ intros [(v & [= <-] & Hv) | (c & v & [= <-] & Hv & Hl)].
              ** now contradiction (Hv content).
              ** rewrite Et in Hv. injection Hv as <-. congruence.
        -- split; [| intros _; eexists; reflexivity].
           intros _. right. exists content, t. auto.
      * cbn [py_len truthy]. split; [intros [e He]; discriminate |].
        intros [(v & [= <-] & Hv) | (c & v & [= <-] & Hv & _)].
        -- now contradiction (Hv content).
        -- congruence.
    + cbn [py_len truthy]. split; [intros [e He]; discriminate |].
      intros [(v & Hv & _) | (c & v & Hv & _)]; discriminate.
Qed.

End ExtractorFacts.

(* ===================================================================== *)
(** ** Format detection *)
(* ===================================================================== *)

Section DetectionFacts.
Import Text Regex Py Parsers.

Variable json_loads : string -> outcome pyval.
Variable parse_json : pyval -> outcome PropertyData.
Variable parse_markdown : string -> string -> PropertyData.
Variable parse_text : string -> string -> PropertyData.

Lemma search_from_fails (r : re) (p : ascii -> bool) :
  (forall pre post m, match_here r pre post = Some m ->
                      exists c t, post = c :: t /\ p c = true) ->
  forall post pre, Forall (fun c => p c = false) post -> search_from r pre post = None.
Proof.
  intros Hfirst post. induction post as [| c t IH]; intros pre Hall; cbn [search_from].
  - destruct (match_here r pre []) as [m |] eqn:E; [| reflexivity].
    apply Hfirst in E as (c & t & [=] & _).
  - destruct (match_here r pre (c :: t)) as [m |] eqn:E.
    + apply Hfirst in E as (c' & t' & [= <- <-] & Hc).
      apply Forall_inv in Hall. congruence.
    + apply IH. now apply Forall_inv_tail in Hall.
Qed.

Lemma free_of_char (c : ascii) (s : string) :
  ~ holds c s -> Forall (fun x => is_char c x = false) (chars s).
Proof.
  intros H. apply Forall_forall. intros x Hx.
  unfold is_char. apply ascii_eqb_neq. intros ->. now apply H.
Qed.

(** A text without a hash sign and without an opening square bracket has no
    markdown pattern. *)
Lemma no_markdown_patterns (txt : string) :
  ~ holds "#" txt -> ~ holds "[" txt -> has_markdown_patterns txt = false.
Proof.
  intros Hh Hb. unfold has_markdown_patterns, re_search.
  rewrite (search_from_fails md_heading_re (is_char "#")).
  - rewrite (search_from_fails md_link_re (is_char "[")); [reflexivity | |].
    + intros pre post m. unfold match_here, md_link_re. cbn [seq run after].
      destruct post as [| c t]; [discriminate |].
      destruct (is_char "[" c) eqn:Hc; [| discriminate]. eauto.
    + now apply free_of_char.
  - intros pre post m. unfold match_here, md_heading_re, Plus. cbn [seq run after].
    destruct (at_line_start _); [| discriminate].
    destruct post as [| c t]; [discriminate |].
    destruct (is_char "#" c) eqn:Hc; [| discriminate]. eauto.
  - now apply free_of_char.
Qed.

(** X17.  Blanks around the input never matter: the parse of a string is the
    parse of the trimmed string, whatever the declared format. *)
Theorem parse_input_ignores_outer_blanks (s input_format default_url : string) :
  parse_input_to_property_data json_loads parse_json parse_markdown parse_text
    (InStr (strip s)) input_format default_url
  = parse_input_to_property_data json_loads parse_json parse_markdown parse_text
      (InStr s) input_format default_url.
Proof.
  unfold parse_input_to_property_data. now rewrite strip_idempotent.
Qed.

(** X18.  With format detection, a string that holds no hash sign and no
    opening square bracket, and that does not start with an opening brace
    once trimmed, goes to the text parser: it is neither decoded as JSON nor
    read as markdown. *)
Theorem plain_text_detection (s default_url : string) :
  ~ holds "#" s -> ~ holds "[" s -> startswith "{" (strip s) = false ->
  parse_input_to_property_data json_loads parse_json parse_markdown parse_text
    (InStr s) "auto" default_url
  = Return (parse_text (strip s) default_url).
Proof.
  intros Hh Hb Hbrace. unfold parse_input_to_property_data.
  rewrite no_markdown_patterns by now apply strip_keeps_free.
  cbn [String.eqb Ascii.eqb Bool.eqb]. rewrite Hbrace.
  assert (Hsq : startswith "[" (strip s) = false).
  { unfold startswith. destruct (chars (strip s)) as [| c t] eqn:E; [reflexivity |].
    cbn [chars list_ascii_of_string is_prefix]. rewrite andb_true_r.
    apply ascii_eqb_neq. intros <-.
    apply (strip_keeps_free "[" s Hb). unfold holds. rewrite E.
    apply list_elem_of_here. }
  now rewrite Hsq.
Qed.

End DetectionFacts.

Section DetectionExamples.
Import Text Regex Py Parsers.

Lemma plain_text_detection_witness :
  parse_input_to_property_data sample_loads sample_json sample_markdown sample_text
    (InStr "  Sterling Court, London  ") "auto" placeholder
  = Return (sample_text "Sterling Court, London" placeholder).
Proof.
  apply (plain_text_detection sample_loads sample_json sample_markdown sample_text
           "  Sterling Court, London  " placeholder).
  - unfold holds. intros H. apply list_elem_of_In in H. vm_compute in H.
    repeat (destruct H as [H | H]; [discriminate H |]). exact H.
  - unfold holds. intros H. apply list_elem_of_In in H. vm_compute in H.
    repeat (destruct H as [H | H]; [discriminate H |]). exact H.
  - vm_compute. reflexivity.
Defined.

End DetectionExamples.

(* ===================================================================== *)
(** ** What the parser reads of a text *)
(* ===================================================================== *)

Section ReadingFacts.
Import Text Regex Firecrawl.

Variable bullets : string -> list string.
Variable order : list string -> list string.

Lemma split_char_aux_sep (sep : ascii) (a b cur : list ascii) :
  split_char_aux sep cur (a ++ sep :: b)
  = split_char_aux sep cur a ++ split_char_aux sep [] b.
Proof.
  revert cur. induction a as [| c a IH]; intros cur; simpl.
  - now rewrite (proj2 (ascii_eqb_eq sep sep) eq_refl).
  - destruct (ascii_eqb c sep); [| apply IH].
    simpl. now rewrite IH.
Qed.

Lemma lines_append (a b : string) : lines (a +:+ nl +:+ b) = lines a ++ lines b.
Proof.
  unfold lines, split_char. rewrite !chars_append.
  change (chars nl ++ chars b) with (NL :: chars b).
  now rewrite split_char_aux_sep, map_app.
Qed.

(** X19.  Only the first 20 lines of the text count for the name of the
    property: whatever follows a text of 20 lines or more on further lines
    leaves the name as it is. *)
Theorem real_property_name_reads_20_lines (txt more : string)
  (fallback : option string) :
  20 <= List.length (lines txt) ->
  _extract_real_property_name (txt +:+ nl +:+ more) fallback
  = _extract_real_property_name txt fallback.
Proof.
  intros H. unfold _extract_real_property_name.
  now rewrite lines_append, take_app_le.
Qed.

(** X20.  Section extraction reads the text through the noise filter only:
    a text and its cleaned form give the same candidates and the same
    sections. *)
Theorem sections_of_cleaned_text (txt : string) :
  candidate_sections bullets order (_remove_navigation_noise txt)
  = candidate_sections bullets order txt
  /\ _extract_firecrawl_sections bullets order (_remove_navigation_noise txt)
     = _extract_firecrawl_sections bullets order txt.
Proof.
  unfold _extract_firecrawl_sections, candidate_sections.
  now rewrite remove_navigation_noise_fixed.
Qed.

End ReadingFacts.

Section ReadingExamples.
Import Text Regex Firecrawl.

Lemma real_property_name_reads_20_lines_witness :
  let txt := join nl (repeat "Rooms from 900 a month" 20) in
  _extract_real_property_name (txt +:+ nl +:+ "# The Real Name")
    (Some "Loft - Kitchen")
  = _extract_real_property_name txt (Some "Loft - Kitchen").
Proof.
  cbv zeta. apply real_property_name_reads_20_lines.
  vm_compute. lia.
Defined.

End ReadingExamples.

(* ===================================================================== *)
(** ** The candidate URLs of a markdown document *)
(* ===================================================================== *)

Section CandidateFacts.
Import Text Regex Py Parsers.

Lemma holds_append (c : ascii) (a b : string) :
  holds c (a +:+ b) <-> holds c a \/ holds c b.
Proof. unfold holds. rewrite chars_append. apply elem_of_app. Qed.

(** The first piece of a split is the text before the first separator. *)
Lemma split_char_aux_first (sep : ascii) (l cur : list ascii) :
  exists p tail rest,
    split_char_aux sep cur l = (rev cur ++ p) :: tail
    /\ l = p ++ rest /\ sep ∉ p.
Proof.
  revert cur. induction l as [| c t IH]; intros cur; simpl.
  - exists [], [], []. rewrite app_nil_r. split; [reflexivity |].
    split; [reflexivity | apply not_elem_of_nil].
  - destruct (ascii_eqb c sep) eqn:E.
    + exists [], (split_char_aux sep [] t), (c :: t). rewrite app_nil_r.
      split; [reflexivity |]. split; [reflexivity | apply not_elem_of_nil].
    + destruct (IH (c :: cur)) as (p & tail & rest & Hs & -> & Hp).
      exists (c :: p), tail, rest. split; [| split; [reflexivity |]].
      * rewrite Hs. simpl. now rewrite <- app_assoc.
      * apply not_elem_of_cons. split; [| exact Hp].
        apply ascii_eqb_neq in E. congruence.
Qed.

Lemma first_part_split (sep : ascii) (s : string) :
  exists p rest,
    first_part (split_char sep s) = text p /\ chars s = p ++ rest /\ sep ∉ p.
Proof.
  unfold split_char.
  destruct (split_char_aux_first sep (chars s) []) as (p & tail & rest & -> & Hs & Hp).
  exists p, rest. simpl. auto.
Qed.

(** Query string and fragment are cut off. *)
Lemma clean_url_free (potential_url : string) :
  ~ holds "?" (clean_url potential_url) /\ ~ holds "#" (clean_url potential_url).
Proof.
  unfold clean_url.
  destruct (first_part_split "?" (strip_chars ("()[]" +:+ quotes) potential_url))
    as (p1 & r1 & -> & _ & H1).
  destruct (first_part_split "#" (text p1)) as (p2 & r2 & -> & Hp & H2).
  rewrite chars_text in Hp. unfold holds. rewrite chars_text. split; [| exact H2].
  intros Hin. apply H1. rewrite Hp. apply elem_of_app. now left.
Qed.

Lemma candidate_of_shape (lastindex : nat) (base : Z) (m : rmatch) (c : string * Z) :
  c ∈ candidate_of lastindex base m ->
  ~ holds "?" c.1 /\ ~ holds "#" c.1
  /\ (startswith "http" c.1 = true \/ contains "://" c.1 = true).
Proof.
  unfold candidate_of. cbv zeta.
  set (u := clean_url _).
  destruct (clean_url_free (match lastindex with
                            | 0 => m_all m
                            | S _ => group lastindex m
                            end)) as [Hq Hf].
  fold u in Hq, Hf.
  assert (Hs : forall x, x = "?"%char \/ x = "#"%char -> ~ holds x ("https://" +:+ u)).
  { intros x Hx Hin. apply holds_append in Hin as [Hin | Hin].
    - unfold holds in Hin. apply list_elem_of_In in Hin. vm_compute in Hin.
      destruct Hx as [-> | ->];
        repeat (destruct Hin as [Hin | Hin]; [discriminate Hin |]); exact Hin.
    - destruct Hx as [-> | ->]; contradiction. }
  destruct (startswith "http" u) eqn:Eh; cbn [negb].
  - destruct (contains_any skip_keywords (lower u));
      [intros H; now apply elem_of_nil in H |].
    intros H. apply list_elem_of_singleton in H as ->. cbn [fst]. auto.
  - destruct (startswith "www." u) eqn:Ew.
    + destruct (contains_any skip_keywords (lower ("https://" +:+ u)));
        [intros H; now apply elem_of_nil in H |].
      intros H. apply list_elem_of_singleton in H as ->. cbn [fst].
      split; [apply Hs; now left |]. split; [apply Hs; now right |].
      left. unfold startswith. now rewrite chars_append.
    + destruct (contains "://" u) eqn:Ec; cbn [negb];
        [| intros H; now apply elem_of_nil in H].
      destruct (contains_any skip_keywords (lower u));
        [intros H; now apply elem_of_nil in H |].
      intros H. apply list_elem_of_singleton in H as ->. cbn [fst]. auto.
Qed.

Lemma insert_desc_elem (x c : string * Z) (l : list (string * Z)) :
  c ∈ insert_desc x l <-> c = x \/ c ∈ l.
Proof.
  induction l as [| y t IH]; simpl.
  - rewrite list_elem_of_singleton, elem_of_nil. tauto.
  - destruct (x.2 <? y.2)%Z; rewrite !elem_of_cons; [rewrite IH |]; tauto.
Qed.

Lemma sort_desc_elem (c : string * Z) (l : list (string * Z)) :
  c ∈ sort_desc l <-> c ∈ l.
Proof.
  induction l as [| x t IH]; simpl; [reflexivity |].
  rewrite insert_desc_elem, elem_of_cons, IH. tauto.
Qed.

(** X21.  Every candidate URL of a markdown document is without query string
    and fragment: it holds no question mark and no hash sign.  It starts with
    [http] or holds [://], and its lower-case form holds no keyword of the
    skip list.  The URL chosen among the candidates is one of them, or the
    default URL when there is none. *)
Theorem markdown_candidates_shape (ls : list string) (default_url : string) :
  Forall (fun c => ~ holds "?" c.1 /\ ~ holds "#" c.1
                   /\ (startswith "http" c.1 = true \/ contains "://" c.1 = true)
                   /\ contains_any skip_keywords (lower c.1) = false)
         (url_candidates ls)
  /\ ((url_candidates ls = [] /\ best_url ls default_url = default_url)
      \/ exists priority, (best_url ls default_url, priority) ∈ url_candidates ls).
Proof.
  split.
  - apply Forall_forall. intros c Hc.
    assert (Hk := url_candidates_clean ls c Hc).
    revert Hc. unfold url_candidates, line_candidates.
    rewrite list_elem_of_In, in_flat_map. intros (line & _ & H).
    apply in_flat_map in H as ([[pattern lastindex] base] & _ & H).
    apply in_flat_map in H as (m & _ & H). apply list_elem_of_In in H.
    apply candidate_of_shape in H as (H1 & H2 & H3). auto.
  - unfold best_url. destruct (sort_desc (url_candidates ls)) as [| [u p] rest] eqn:E.
    + left. split; [| reflexivity].
      destruct (url_candidates ls) as [| c l]; [reflexivity |].
      assert (H : c ∈ sort_desc (c :: l)) by (apply sort_desc_elem, list_elem_of_here).
      rewrite E in H. now apply elem_of_nil in H.
    + right. exists p. apply sort_desc_elem. rewrite E. apply list_elem_of_here.
Qed.

End CandidateFacts.

(* ===================================================================== *)
(** ** The items of the amenity and bill sections *)
(* ===================================================================== *)

Section KnownItemFacts.
Import Text Regex Firecrawl.

Variable order : list string -> list string.

Lemma amenity_items_known (line : string) :
  Forall (fun x => x ∈ known_patterns ++ known_single) (amenity_items line).
Proof.
  unfold amenity_items.
  set (st := fold_left amenity_pattern_step known_patterns ([], line)).
  set (raw := fold_left amenity_word_step (split_ws st.2) st.1).
  apply Forall_forall. intros x Hx.
  apply elem_of_list_filter in Hx as [Hx _].
  apply (proj1 (dict_fromkeys_elem _ _)) in Hx. apply elem_of_app.
  apply amenity_word_fold in Hx as [Hx | Hx]; [| now right].
  apply amenity_pattern_fold in Hx as [Hx | Hx]; [| now left].
  now apply elem_of_nil in Hx.
Qed.

Lemma bill_items_known (line : string) :
  Forall (fun x => x ∈ known_bills /\ contains x line = true) (bill_items line).
Proof.
  apply Forall_forall. intros x Hx. unfold bill_items in Hx.
  apply (proj1 (dict_fromkeys_elem _ _)) in Hx.
  now apply elem_of_list_filter in Hx.
Qed.

(** X22.  The keyword strategy lists known names only: every item of its
    amenities section is one of the 22 amenity names of the parser, and every
    item of its bills section is one of the 9 bill names and occurs in the
    line that the section was made from, which is the content of the
    section. *)
Theorem special_items_are_known (txt : string) :
  Forall (fun s =>
            (original_name s = "amenities" ->
             Forall (fun x => x ∈ known_patterns ++ known_single) (items s))
            /\ (original_name s = "bills_included" ->
                Forall (fun x => x ∈ known_bills /\ contains x (content s) = true)
                       (items s)))
         (_extract_special_sections order txt).
Proof.
  apply Forall_forall. intros s Hs.
  unfold _extract_special_sections in Hs. rewrite !elem_of_app in Hs.
  destruct Hs as [H | [H | [H | [H | [H | [H | H]]]]]].
  - split; [intros _ | intros Hn; apply amenities_section_spec in H as [H _]; congruence].
    induction (lines txt) as [| line rest IH]; [now apply elem_of_nil in H |].
    cbn [amenities_section] in H.
    destruct (3 <=? count_keywords amenities_keywords line)%nat; [| now apply IH].
    destruct (3 <=? List.length (amenity_items line))%nat; [| now apply IH].
    apply list_elem_of_singleton in H as ->. apply amenity_items_known.
  - split; [intros Hn; apply bills_section_spec in H as [H _]; congruence | intros _].
    induction (lines txt) as [| line rest IH]; [now apply elem_of_nil in H |].
    cbn [bills_section] in H.
    destruct (3 <=? count_keywords bills_patterns line)%nat; [| now apply IH].
    destruct (3 <=? List.length (bill_items line))%nat; [| now apply IH].
    apply list_elem_of_singleton in H as ->. apply bill_items_known.
  - apply faqs_section_spec in H as [H _]. split; intros Hn; congruence.
  - apply room_types_section_spec in H as [H _]. split; intros Hn; congruence.
  - apply dash_region_section_spec in H. split; intros Hn; congruence.
  - apply dash_region_section_spec in H. split; intros Hn; congruence.
  - apply dash_region_section_spec in H. split; intros Hn; congruence.
Qed.

End KnownItemFacts.

(* ===================================================================== *)
(** ** The items found by a pattern *)
(* ===================================================================== *)

Section ItemPatternFacts.
Import Text Regex Firecrawl.

Lemma many_state (p : ascii -> bool) (post pre : list ascii) (g : list (nat * string))
  (k : mstate -> option mstate) (res : mstate) :
  many p pre post g k = Some res ->
  exists w post', post = w ++ post' /\ Forall (fun c => p c = true) w
                  /\ k (MState (rev w ++ pre) post' g) = Some res.
Proof.
  revert pre. induction post as [| c t IH]; intros pre; simpl.
  - intros H. exists [], []. auto.
  - destruct (p c) eqn:Hc.
    + destruct (many p (c :: pre) t g k) as [r |] eqn:Hm.
      * intros [= <-]. destruct (IH _ Hm) as (w & post' & -> & Hw & Hk).
        exists (c :: w), post'. split; [reflexivity |]. split; [now constructor |].
        simpl. now rewrite <- app_assoc.
      * intros H. exists [], (c :: t). auto.
    + intros H. exists [], (c :: t). auto.
Qed.

Lemma few_state (p : ascii -> bool) (post pre : list ascii) (g : list (nat * string))
  (k : mstate -> option mstate) (res : mstate) :
  few p pre post g k = Some res ->
  exists w post', post = w ++ post' /\ Forall (fun c => p c = true) w
                  /\ k (MState (rev w ++ pre) post' g) = Some res.
Proof.
  revert pre. induction post as [| c t IH]; intros pre; simpl.
  - destruct (k (MState pre [] g)) as [r |] eqn:Hk; [| discriminate].
    intros [= <-]. exists [], []. auto.
  - destruct (k (MState pre (c :: t) g)) as [r |] eqn:Hk.
    + intros [= <-]. exists [], (c :: t). auto.
    + destruct (p c) eqn:Hc; [| discriminate].
      intros H. destruct (IH _ H) as (w & post' & -> & Hw & Hk').
      exists (c :: w), post'. split; [reflexivity |]. split; [now constructor |].
      simpl. now rewrite <- app_assoc.
Qed.

(** One or more characters of a class, greedy or lazy: the run goes on at a
    state that lies a non-empty word of the class further on. *)
Lemma plus_state (lazy : bool) (p : ascii -> bool) (s : mstate)
  (k : mstate -> option mstate) (res : mstate) :
  run (if lazy then PlusLazy p else Plus p) s k = Some res ->
  exists w post', w <> [] /\ after s = w ++ post' /\ Forall (fun c => p c = true) w
                  /\ k (MState (rev w ++ before s) post' (groups s)) = Some res.
Proof.
  assert (Hstep : forall star,
    (forall post pre g k' res',
        run star (MState pre post g) k' = Some res' ->
        exists w post', post = w ++ post' /\ Forall (fun c => p c = true) w
                        /\ k' (MState (rev w ++ pre) post' g) = Some res') ->
    run (Cat (Sym p) star) s k = Some res ->
    exists w post', w <> [] /\ after s = w ++ post' /\ Forall (fun c => p c = true) w
                    /\ k (MState (rev w ++ before s) post' (groups s)) = Some res).
  { intros star Hstar. cbn [run].
    destruct (after s) as [| c t] eqn:Ha; [discriminate |].
    destruct (p c) eqn:Hc; [| discriminate]. intros H.
    apply Hstar in H as (w & post' & -> & Hw & Hk).
    exists (c :: w), post'. split; [discriminate |]. split; [reflexivity |].
    split; [now constructor |]. simpl. now rewrite <- app_assoc. }
  destruct lazy; unfold PlusLazy, Plus; apply Hstep; intros post pre g k' res';
    cbn [run before after groups]; [apply few_state | apply many_state].
Qed.

Lemma finditer_from_here (r : re) (post : list ascii) (skip : nat) (pre : list ascii)
  (m : rmatch) :
  m ∈ finditer_from r skip pre post ->
  exists pre' post', match_here r pre' post' = Some m.
Proof.
  revert skip pre. induction post as [| c t IH]; intros skip pre.
  - destruct skip as [| n]; cbn [finditer_from]; [| intros H; now apply elem_of_nil in H].
    destruct (match_here r pre []) as [m' |] eqn:E;
      [| intros H; now apply elem_of_nil in H].
    intros H. apply list_elem_of_singleton in H as ->. eauto.
  - destruct skip as [| n]; cbn [finditer_from]; [| apply IH].
    destruct (match_here r pre (c :: t)) as [m' |] eqn:E; [| apply IH].
    intros H. apply elem_of_cons in H as [-> | H]; [eauto |].
    now apply IH in H.
Qed.

Lemma findall1_here (r : re) (s x : string) :
  x ∈ re_findall1 r s ->
  exists pre post m, match_here r pre post = Some m /\ x = group 1 m.
Proof.
  unfold re_findall1, re_finditer. intros H.
  apply list_elem_of_fmap in H as (m & -> & H).
  apply finditer_from_here in H as (pre & post & H). eauto.
Qed.

(** A line of text that ends with a question mark. *)
Definition question (q : string) : Prop :=
  exists w, q = text w +:+ "?" /\ w <> [] /\ NL ∉ w.

(** A non-empty text without a line break. *)
Definition one_line (x : string) : Prop := x <> "" /\ ~ holds NL x.

Lemma not_nl_free (w : list ascii) : Forall (fun c => not_nl c = true) w -> NL ∉ w.
Proof.
  intros H Hin. apply (proj1 (Forall_forall _ _) H) in Hin.
  unfold not_nl in Hin. apply negb_true_iff, ascii_eqb_neq in Hin. now apply Hin.
Qed.

(** The group of [(.+\?)], called at state [s]. *)
Lemma question_group_state (s : mstate) (k : mstate -> option mstate) (res : mstate) :
  run (Grp 1 (seq [Plus not_nl; Sym (is_char "?")])) s k = Some res ->
  exists q s', question q /\ k s' = Some res /\ groups s' = (1, q) :: groups s.
Proof.
  cbn [seq run]. intros H.
  apply (plus_state false) in H as (w & post' & Hne & Ha & Hw & H).
  cbn [run after before groups] in H.
  destruct post' as [| c t]; [discriminate |].
  destruct (is_char "?" c) eqn:Hc; [| discriminate].
  apply ascii_eqb_eq in Hc. subst c.
  eexists _, _. split; [| split; [exact H | reflexivity]].
  exists w. split; [| split; [exact Hne | now apply not_nl_free]].
  rewrite (consumed_reaches _ _ (w ++ ["?"%char])).
  - now rewrite text_app.
  - split; cbn [before after]; [| now rewrite Ha, <- app_assoc].
    now rewrite rev_app_distr.
Qed.

Lemma faq_heading_question (pre post : list ascii) (m : rmatch) :
  match_here faq_heading_re pre post = Some m -> question (group 1 m).
Proof.
  unfold match_here, faq_heading_re.
  destruct (run _ _ Some) as [res |] eqn:H; [| discriminate].
  intros [= <-]. revert H.
  change (seq [Lit "###"; Many is_space;
               Grp 1 (seq [Plus not_nl; Sym (is_char "?")])])
    with (Cat (Lit "###") (Cat (Many is_space)
            (Grp 1 (seq [Plus not_nl; Sym (is_char "?")])))).
  cbn [run]. intros H.
  apply run_inv in H as (s1 & w1 & H & _).
  apply many_state in H as (w2 & post2 & _ & _ & H).
  apply question_group_state in H as (q & s' & Hq & [= <-] & Hg).
  unfold group. cbn [m_groups]. rewrite Hg. exact Hq.
Qed.

Lemma question_line_question (pre post : list ascii) (m : rmatch) :
  match_here question_line_re pre post = Some m -> question (group 1 m).
Proof.
  unfold match_here, question_line_re.
  destruct (run _ _ Some) as [res |] eqn:H; [| discriminate].
  intros [= <-]. revert H.
  set (G := Grp 1 (seq [Plus not_nl; Sym (is_char "?")])).
  cbn [seq run]. destruct (at_line_start _); [| discriminate].
  intros H. apply question_group_state in H as (q & s' & Hq & H & Hg).
  destruct (at_line_end s'); [| discriminate]. injection H as <-.
  unfold group. cbn [m_groups]. rewrite Hg. exact Hq.
Qed.

Lemma dash_line_one_line (pre post : list ascii) (m : rmatch) :
  match_here dash_line_re pre post = Some m -> one_line (group 1 m).
Proof.
  unfold match_here, dash_line_re.
  destruct (run _ _ Some) as [res |] eqn:H; [| discriminate].
  intros [= <-]. revert H.
  set (body := PlusLazy not_nl).
  cbn [seq run after before groups]. destruct (at_line_start _); [| discriminate].
  destruct post as [| c t]; [discriminate |].
  destruct (is_char "-" c); [| discriminate]. intros H.
  apply many_state in H as (w2 & post2 & _ & _ & H).
  apply (plus_state true) in H as (w & post' & Hne & Ha & Hw & H).
  cbn [before after groups] in H, Ha.
  destruct (at_line_end _); [| discriminate]. injection H as <-.
  unfold group. cbn [m_groups groups find fst snd Nat.eqb].
  rewrite (consumed_reaches _ _ w) by (split; cbn [before after]; auto).
  split.
  - intros E. apply (f_equal chars) in E. rewrite chars_text in E.
    now apply Hne.
  - unfold holds. rewrite chars_text. now apply not_nl_free.
Qed.

(** X23.  Every item of the FAQ section of the keyword strategy is a
    question: a non-empty text without a line break, followed by a question
    mark. *)
Theorem faq_items_are_questions (txt : string) :
  Forall (fun s => Forall question (items s)) (faqs_section txt).
Proof.
  unfold faqs_section. destruct (re_search faq_region_re txt) as [m |]; [| constructor].
  set (content := strip (group 1 m)).
  destruct (dict_fromkeys _) as [| q qs] eqn:E; [constructor |].
  constructor; [| constructor]. cbn [items]. rewrite <- E.
  apply Forall_forall. intros x Hx.
  apply (proj1 (dict_fromkeys_elem _ _)) in Hx.
  apply elem_of_app in Hx as [Hx | Hx];
    apply findall1_here in Hx as (pre & post & m' & Hm & ->).
  - now apply faq_heading_question in Hm.
  - now apply question_line_question in Hm.
Qed.

(** X24.  Every item of the payment, cancellation and offer sections is
    non-empty and holds no line break. *)
Theorem policy_items_are_lines (txt : string) :
  Forall (fun s => Forall one_line (items s))
         (payment_section txt ++ cancellation_section txt ++ offers_section txt).
Proof.
  assert (H : forall region name display,
    Forall (fun s => Forall one_line (items s))
           (dash_region_section region name display txt)).
  { intros region name display. unfold dash_region_section.
    destruct (re_search region txt) as [m |]; [| constructor].
    destruct (re_findall1 dash_line_re _) as [| x xs] eqn:E; [constructor |].
    constructor; [| constructor]. cbn [items]. rewrite <- E.
    apply Forall_forall. intros y Hy.
    apply findall1_here in Hy as (pre & post & m' & Hm & ->).
    now apply dash_line_one_line in Hm. }
  rewrite !Forall_app. repeat split; apply H.
Qed.

End ItemPatternFacts.

(* ===================================================================== *)
(** ** The images and links of a markdown document *)
(* ===================================================================== *)

Section MediaFacts.
Import Text Regex MarkdownMedia.

Lemma none_of_free (c : ascii) (w : list ascii) :
  Forall (fun x => none_of (str1 c) x = true) w -> c ∉ w.
Proof.
  intros H Hin. apply (proj1 (Forall_forall _ _) H) in Hin.
  unfold none_of in Hin. cbn [chars str1 list_ascii_of_string existsb] in Hin.
  rewrite orb_false_r in Hin. apply negb_true_iff, ascii_eqb_neq in Hin.
  now apply Hin.
Qed.

Lemma text_nonempty (w : list ascii) : w <> [] -> text w <> "".
Proof.
  intros Hne E. apply (f_equal chars) in E. rewrite chars_text in E. now apply Hne.
Qed.

(** What the two groups of a link hold. *)
Lemma link_groups (pre post : list ascii) (m : rmatch) :
  match_here link_pattern pre post = Some m ->
  exists w1 w2,
    group 1 m = text w1 /\ group 2 m = text w2
    /\ w1 <> [] /\ w2 <> [] /\ ("]"%char ∉ w1) /\ (")"%char ∉ w2).
Proof.
  unfold match_here, link_pattern.
  destruct (run _ _ Some) as [res |] eqn:H; [| discriminate].
  intros [= <-]. revert H.
  set (G1 := Plus (none_of "]")). set (G2 := Plus (none_of ")")).
  cbn [seq run after before groups].
  destruct post as [| c0 t0]; [discriminate |].
  destruct (is_char "[" c0); [| discriminate]. intros H.
  apply (plus_state false) in H as (w1 & post1 & Hne1 & Ha1 & Hw1 & H).
  cbn [after before groups] in H, Ha1.
  destruct post1 as [| c1 t1]; [discriminate |].
  destruct (is_char "]" c1); [| discriminate].
  destruct t1 as [| c2 t2]; [discriminate |].
  destruct (is_char "(" c2); [| discriminate].
  apply (plus_state false) in H as (w2 & post2 & Hne2 & Ha2 & Hw2 & H).
  cbn [after before groups] in H, Ha2.
  destruct post2 as [| c3 t3]; [discriminate |].
  destruct (is_char ")" c3); [| discriminate].
  injection H as <-.
  exists w1, w2. unfold group. cbn [m_groups groups find fst snd Nat.eqb].
  split; [| split; [| split; [exact Hne1 | split; [exact Hne2 |]]]].
  - apply consumed_reaches. split; cbn [before after]; auto.
  - apply consumed_reaches. split; cbn [before after]; auto.
  - split; now apply (none_of_free _ _).
Qed.

Lemma image_groups (pre post : list ascii) (m : rmatch) :
  match_here image_pattern pre post = Some m ->
  exists w1 w2,
    group 1 m = text w1 /\ group 2 m = text w2
    /\ w2 <> [] /\ ("]"%char ∉ w1) /\ (")"%char ∉ w2).
Proof.
  unfold match_here, image_pattern.
  destruct (run _ _ Some) as [res |] eqn:H; [| discriminate].
  intros [= <-]. revert H.
  set (G2 := Plus (none_of ")")).
  cbn [seq run after before groups].
  destruct post as [| c t]; [discriminate |].
  destruct (is_char "!" c); [| discriminate].
  destruct t as [| c0 t0]; [discriminate |].
  destruct (is_char "[" c0); [| discriminate]. intros H.
  apply many_state in H as (w1 & post1 & Ha1 & Hw1 & H).
  cbn [after before groups] in H.
  destruct post1 as [| c1 t1]; [discriminate |].
  destruct (is_char "]" c1); [| discriminate].
  destruct t1 as [| c2 t2]; [discriminate |].
  destruct (is_char "(" c2); [| discriminate].
  apply (plus_state false) in H as (w2 & post2 & Hne2 & Ha2 & Hw2 & H).
  cbn [after before groups] in H, Ha2.
  destruct post2 as [| c3 t3]; [discriminate |].
  destruct (is_char ")" c3); [| discriminate].
  injection H as <-.
  exists w1, w2. unfold group. cbn [m_groups groups find fst snd Nat.eqb].
  split; [| split; [| split; [exact Hne2 |]]].
  - apply consumed_reaches. split; cbn [before after]; auto.
  - apply consumed_reaches. split; cbn [before after]; auto.
  - split; now apply (none_of_free _ _).
Qed.

(** X25.  A markdown document gives at most 20 images and 50 links.  The
    URL of an image or of a link is never empty and holds no closing
    parenthesis; the text of a link is never empty and the alternative text
    of an image is absent rather than empty, and neither holds a closing
    square bracket.  No link is an anchor: its URL does not start with a
    hash sign. *)
Theorem markdown_media_shape (markdown : string) :
  List.length (markdown_images markdown) <= 20
  /\ List.length (markdown_links markdown) <= 50
  /\ Forall (fun i => image_url i <> "" /\ ~ holds ")" (image_url i)
                      /\ alt i <> Some ""
                      /\ (forall a, alt i = Some a -> ~ holds "]" a))
            (markdown_images markdown)
  /\ Forall (fun l => link_url l <> "" /\ ~ holds ")" (link_url l)
                      /\ startswith "#" (link_url l) = false
                      /\ link_text l <> "" /\ ~ holds "]" (link_text l))
            (markdown_links markdown).
Proof.
  unfold markdown_images, markdown_links.
  split; [rewrite length_take; lia |]. split; [rewrite length_take; lia |]. split.
  - apply Forall_take, Forall_forall. intros i Hi.
    apply list_elem_of_fmap in Hi as (m & -> & Hm).
    apply finditer_from_here in Hm as (pre & post & Hm).
    apply image_groups in Hm as (w1 & w2 & E1 & E2 & Hne & H1 & H2).
    unfold image_of. cbv zeta. cbn [image_url alt]. rewrite E1, E2.
    split; [now apply text_nonempty |]. unfold holds. rewrite chars_text.
    split; [exact H2 |].
    destruct (text w1 =? "")%string eqn:E; cbn [negb].
    + split; [discriminate | intros a Ha; discriminate].
    + apply String.eqb_neq in E. split; [congruence |].
      intros a [= <-]. now rewrite chars_text.
  - apply Forall_take, Forall_forall. intros l Hl.
    apply list_elem_of_In, in_flat_map in Hl as (m & Hm & Hl).
    apply list_elem_of_In in Hm, Hl.
    apply finditer_from_here in Hm as (pre & post & Hm).
    apply link_groups in Hm as (w1 & w2 & E1 & E2 & Hne1 & Hne2 & H1 & H2).
    unfold link_of in Hl. cbv zeta in Hl. rewrite E1, E2 in Hl.
    destruct (startswith "#" (text w2)) eqn:Es; cbn [negb] in Hl;
      [now apply elem_of_nil in Hl |].
    apply list_elem_of_singleton in Hl as ->. cbn [link_url link_text].
    unfold holds. rewrite !chars_text.
    split; [now apply text_nonempty |]. split; [exact H2 |].
    split; [exact Es |]. split; [now apply text_nonempty | exact H1].
Qed.

End MediaFacts.

(* ===================================================================== *)
(** ** The invariants of a record *)
(* ===================================================================== *)

Section RecordInvariants.
Import Text Regex Firecrawl.

Variable bullets : string -> list string.
Variable order : list string -> list string.









End RecordInvariants.

Section RecordExamples.
Import Text Regex Firecrawl Py.








End RecordExamples.
